(** * Verification of the workspace setup script

    The development embeds the interactive setup script of the boilerplate
    (the program behind [pnpm rock]): the [.env] parser and differ, the merged
    write-back, the application detector, the prompting stages, the database
    readiness waiter and the [main] sequence.

    Modelling conventions.
    - A JavaScript string is the list of its UTF-16 code units ([jsstring]);
      regular expressions without the [u] flag, [trim] and [split] all work on
      code units.  Files hold text: a file's content is the string that
      [readFileSync(path, 'utf-8')] returns for it.
    - A [Record<string, string>] is an ordinary object whose prototype is
      [Object.prototype]: own properties are kept in the order in which
      [Object.keys] lists them, and the inherited properties are visible to the
      [in] operator and to property reads.
    - A [number] that the script handles is either [NaN] or an integer; the
      model is exact for integers of at most 2^53 in absolute value.
    - Console lines are kept without colour escapes and pictographs.
    - Paths are written relative to the project root.
    - The [.env] files and their templates are regular, readable files,
      and a file that has just been read can be written back; the copy of a
      template to a new file can fail.  A package manifest is known only by
      what its update meets: no file, a JSON object, text that is not JSON,
      JSON that is not an object, or a file that cannot be read or written.
      The commands that the script launches leave the [.env] files alone.
    - The keys that the script writes back are identifiers; the regular
      expression built from a key is modelled for such keys only.
    - Functions that only read the files take them as an argument; the
      functions that write return the new files.  What a run does to the
      outside (questions, commands, console lines, writes) is recorded in
      its trace. *)

From Stdlib Require Import List String Ascii Bool NArith ZArith Lia.
From Stdlib Require Import DecimalString DecimalN.
Import ListNotations.

Local Open Scope N_scope.
Local Open Scope list_scope.

(** ** JavaScript strings *)

Module JS.

Definition jsstring := list N.

(** A string literal of the source, as code units (ASCII only). *)
Fixpoint js (s : string) : jsstring :=
  match s with
  | EmptyString => []
  | String a s' => N_of_ascii a :: js s'
  end.

Definition NL : N := 10.
Definition EQUALS : N := 61.
Definition HASH : N := 35.
Definition DOLLAR : N := 36.

Fixpoint str_eqb (a b : jsstring) : bool :=
  match a, b with
  | [], [] => true
  | x :: a', y :: b' => (x =? y) && str_eqb a' b'
  | _, _ => false
  end.

Definition mem (k : jsstring) (l : list jsstring) : bool :=
  existsb (str_eqb k) l.

(** ECMAScript LineTerminator: LF, CR, LS, PS. *)
Definition isLineTerminator (c : N) : bool :=
  (c =? 10) || (c =? 13) || (c =? 8232) || (c =? 8233).

(** ECMAScript WhiteSpace: TAB, VT, FF, SP, NBSP, ZWNBSP and category Zs. *)
Definition isWhiteSpace (c : N) : bool :=
  (c =? 9) || (c =? 11) || (c =? 12) || (c =? 32) || (c =? 160)
  || (c =? 65279) || (c =? 5760) || ((8192 <=? c) && (c <=? 8202))
  || (c =? 8239) || (c =? 8287) || (c =? 12288).

Definition isTrimmed (c : N) : bool := isWhiteSpace c || isLineTerminator c.

Fixpoint trimStart (s : jsstring) : jsstring :=
  match s with
  | [] => []
  | c :: s' => if isTrimmed c then trimStart s' else s
  end.

Definition trimEnd (s : jsstring) : jsstring := rev (trimStart (rev s)).

(** [String.prototype.trim] *)
Definition trim (s : jsstring) : jsstring := trimEnd (trimStart s).

(** [s.split(sep)] for a one-character separator. *)
Fixpoint split (sep : N) (s : jsstring) : list jsstring :=
  match s with
  | [] => [[]]
  | c :: s' =>
      if c =? sep then [] :: split sep s'
      else match split sep s' with
           | l :: ls => (c :: l) :: ls
           | [] => [[c]]
           end
  end.

(** [array.join(sep)] *)
Fixpoint join (sep : jsstring) (l : list jsstring) : jsstring :=
  match l with
  | [] => []
  | [x] => x
  | x :: rest => x ++ sep ++ join sep rest
  end.

(** The text of a file given line by line. *)
Definition text (ls : list string) : jsstring := join [NL] (map js ls).

Fixpoint startsWith (p s : jsstring) : bool :=
  match p, s with
  | [], _ => true
  | x :: p', y :: s' => (x =? y) && startsWith p' s'
  | _ :: _, [] => false
  end.

(** Longest prefix whose characters satisfy [f], and the rest. *)
Fixpoint span (f : N -> bool) (s : jsstring) : jsstring * jsstring :=
  match s with
  | [] => ([], [])
  | c :: s' =>
      if f c then let '(a, b) := span f s' in (c :: a, b) else ([], s)
  end.

Definition isDigit (c : N) : bool := (48 <=? c) && (c <=? 57).

Definition digitsValue (ds : jsstring) : N :=
  fold_left (fun acc c => acc * 10 + (c - 48)) ds 0.

(** ** Numbers *)

Inductive number := NaN | Int (z : Z).

(** [Number.parseInt(s, 10)]: leading white space is skipped, an optional
    sign is read, then the longest run of decimal digits. *)
Definition parseInt (s : jsstring) : number :=
  let s1 := trimStart s in
  let '(neg, s2) :=
    match s1 with
    | c :: r => if c =? 45 then (true, r)
                else if c =? 43 then (false, r) else (false, s1)
    | [] => (false, [])
    end in
  match fst (span isDigit s2) with
  | [] => NaN
  | ds => let v := Z.of_N (digitsValue ds) in Int (if neg then (- v)%Z else v)
  end.

(** ToBoolean on a number. *)
Definition numTruthy (n : number) : bool :=
  match n with
  | NaN => false
  | Int z => negb (z =? 0)%Z
  end.

(** [n || d] for a number [n] and a numeric literal [d]. *)
Definition numOr (n : number) (d : Z) : number :=
  if numTruthy n then n else Int d.

Definition decimal (n : N) : jsstring := js (NilEmpty.string_of_uint (N.to_uint n)).

(** [n.toString()] and the interpolation of a number in a template literal. *)
Definition numToString (n : number) : jsstring :=
  match n with
  | NaN => js "NaN"
  | Int z => if (z <? 0)%Z then 45 :: decimal (Z.abs_N z) else decimal (Z.abs_N z)
  end.

(** ** Plain objects used as string maps *)

(** Own properties, in [Object.keys] order. *)
Definition Obj := list (jsstring * jsstring).

(** The names that every plain object inherits from [Object.prototype]. *)
Definition protoNames : list jsstring :=
  map js [ "constructor"; "__defineGetter__"; "__defineSetter__";
           "hasOwnProperty"; "__lookupGetter__"; "__lookupSetter__";
           "isPrototypeOf"; "propertyIsEnumerable"; "toString"; "valueOf";
           "__proto__"; "toLocaleString" ]%string.

Inductive value :=
| VUndefined
| VString (s : jsstring)
| VInherited. (* a function or object found on the prototype *)

Fixpoint own (k : jsstring) (o : Obj) : option jsstring :=
  match o with
  | [] => None
  | (k', v) :: o' => if str_eqb k k' then Some v else own k o'
  end.

(** [k in o] *)
Definition has (k : jsstring) (o : Obj) : bool :=
  match own k o with
  | Some _ => true
  | None => mem k protoNames
  end.

(** [o[k]] *)
Definition get (k : jsstring) (o : Obj) : value :=
  match own k o with
  | Some v => VString v
  | None => if mem k protoNames then VInherited else VUndefined
  end.

(** ToBoolean *)
Definition truthy (v : value) : bool :=
  match v with
  | VUndefined => false
  | VString [] => false
  | VString (_ :: _) => true
  | VInherited => true
  end.

(** An array index is the canonical decimal form of an integer below
    2^32 - 1; such keys are listed first, in ascending order. *)
Definition arrayIndex (k : jsstring) : option N :=
  match k with
  | [] => None
  | c :: rest =>
      if forallb isDigit k
         && (negb (c =? 48) || match rest with [] => true | _ => false end)
      then if digitsValue k <? 4294967295 then Some (digitsValue k) else None
      else None
  end.

Fixpoint replaceOwn (k v : jsstring) (o : Obj) : Obj :=
  match o with
  | [] => []
  | (k', v') :: o' =>
      if str_eqb k k' then (k', v) :: o' else (k', v') :: replaceOwn k v o'
  end.

Fixpoint insertIndex (n : N) (k v : jsstring) (o : Obj) : Obj :=
  match o with
  | [] => [(k, v)]
  | (k', v') :: o' =>
      match arrayIndex k' with
      | Some m => if m <? n then (k', v') :: insertIndex n k v o'
                  else (k, v) :: o
      | None => (k, v) :: o
      end
  end.

(** [o[k] = v] for a string [v].  Assigning a string to [__proto__] runs the
    inherited setter, which ignores it. *)
Definition set (k v : jsstring) (o : Obj) : Obj :=
  if str_eqb k (js "__proto__") then o
  else match own k o with
       | Some _ => replaceOwn k v o
       | None =>
           match arrayIndex k with
           | Some n => insertIndex n k v o
           | None => o ++ [(k, v)]
           end
       end.

(** [Object.keys(o)] and [Object.entries(o)] *)
Definition keys (o : Obj) : list jsstring := map fst o.
Definition entries (o : Obj) : list (jsstring * jsstring) := o.

(** An object literal [{ k1: v1, ... }] and later assignments [o.k = v]. *)
Definition literal (l : list (jsstring * jsstring)) : Obj :=
  fold_left (fun o kv => set (fst kv) (snd kv) o) l [].

(** [o[k] || d] for a string default [d], for a key [k] that is a fixed
    identifier of the script (none of them is inherited). *)
Definition getOr (k : string) (o : Obj) (d : jsstring) : jsstring :=
  match own (js k) o with
  | Some (c :: v) => c :: v
  | _ => d
  end.

End JS.
Import JS.

(** ** The file system *)

(** Regular files of the workspace: path to content. *)
Definition Files := string -> option jsstring.

Definition existsSync (fs : Files) (p : string) : bool :=
  match fs p with Some _ => true | None => false end.

Definition writeFile (fs : Files) (p : string) (c : jsstring) : Files :=
  fun q => if String.eqb q p then Some c else fs q.

(** ** The key-value file store *)

(** The match of the assignment pattern (start, one or more characters
    other than [=], an [=], any characters but line terminators, end) on a
    trimmed line: the key is everything before the first [=] and must not be
    empty; the rest may not contain a line terminator. *)
Definition matchAssignment (s : jsstring) : option (jsstring * jsstring) :=
  match span (fun c => negb (c =? EQUALS)) s with
  | ((_ :: _) as k, _ :: v) =>
      if existsb isLineTerminator v then None else Some (k, v)
  | _ => None
  end.

Definition parseLine (vars : Obj) (line : jsstring) : Obj :=
  let trimmed := trim line in
  match trimmed with
  | [] => vars
  | _ :: _ =>
      if startsWith [HASH] trimmed then vars
      else match matchAssignment trimmed with
           | Some (k, v) => set (trim k) (trim v) vars
           | None => vars
           end
  end.

Definition parseContent (content : jsstring) : Obj :=
  fold_left parseLine (split NL content) [].

Definition parseEnvFile (fs : Files) (filePath : string) : Obj :=
  match fs filePath with
  | None => []
  | Some content => parseContent content
  end.

Definition isMissing (envVars : Obj) (key : jsstring) : bool :=
  negb (has key envVars) || negb (truthy (get key envVars)).

Definition getMissingVariables (fs : Files) (examplePath envPath : string)
  : list jsstring :=
  let exampleVars := parseEnvFile fs examplePath in
  let envVars := parseEnvFile fs envPath in
  filter (isMissing envVars) (keys exampleVars).

(** *** Replacing a line in place *)

(** A word character of a regular expression: a letter, a digit or an
    underscore. *)
Definition isWordChar (c : N) : bool :=
  ((48 <=? c) && (c <=? 57)) || ((65 <=? c) && (c <=? 90))
  || ((97 <=? c) && (c <=? 122)) || (c =? 95).

(** A key as the script writes them: a non-empty run of word characters.
    [new RegExp(`^${key}=.*$`, 'm')] compiles such a key into a pattern that
    matches it character by character; a key with a metacharacter would
    compile into another pattern, or not at all.  Every key that the script
    passes to [updateEnvFile] is plain, and every statement below that
    quantifies over keys is about plain keys. *)
Definition plainKey (k : jsstring) : bool :=
  match k with
  | [] => false
  | _ :: _ => forallb isWordChar k
  end.

(** The first match of the regular expression [^KEY=.*$] with flag [m] in
    [s], for a plain [KEY], as (text before, matched text, text after);
    [pat] is [KEY=].  The match starts at the beginning of a line (at the
    start of the text or right after a line terminator) and runs to the end
    of that line. *)
Fixpoint findAssign (pat : jsstring) (atLineStart : bool) (s : jsstring)
  : option (jsstring * jsstring * jsstring) :=
  match s with
  | [] => None
  | c :: s' =>
      if atLineStart && startsWith pat s then
        let '(line, rest) := span (fun c => negb (isLineTerminator c)) s in
        Some ([], line, rest)
      else
        match findAssign pat (isLineTerminator c) s' with
        | Some (b, m, a) => Some (c :: b, m, a)
        | None => None
        end
  end.

(** The expansion of a replacement text for a pattern without capture
    groups: [$$] is a dollar, [$&] the match, [$`] the text before it and
    [$'] the text after it; any other [$] stands for itself. *)
Fixpoint getSubstitution (matched before after template : jsstring) : jsstring :=
  match template with
  | [] => []
  | c :: r =>
      if c =? DOLLAR then
        match r with
        | d :: r' =>
            if d =? DOLLAR then DOLLAR :: getSubstitution matched before after r'
            else if d =? 38 then matched ++ getSubstitution matched before after r'
            else if d =? 96 then before ++ getSubstitution matched before after r'
            else if d =? 39 then after ++ getSubstitution matched before after r'
            else c :: getSubstitution matched before after r
        | [] => [c]
        end
      else c :: getSubstitution matched before after r
  end.

(** [`${key}=${value}`] *)
Definition assignment (key value : jsstring) : jsstring :=
  key ++ [EQUALS] ++ value.

(** One turn of the loop of [updateEnvFile] for a key that is not skipped:
    replace the first line of the key, or append a new line. *)
Definition applyReplacement (content key value : jsstring) : jsstring :=
  match findAssign (key ++ [EQUALS]) true content with
  | Some (before, matched, after) =>
      before ++ getSubstitution matched before after (assignment key value)
             ++ after
  | None => content ++ [NL] ++ assignment key value
  end.

(** ** Effects: the trace of a run, and errors *)

Inductive Exn :=
| PromptAborted
| CommandFailed (code : option Z)
| LaunchFailed
| FsError (path : string)
| CopyError (from to : string)
| ManifestError (path : string)
| TypeError (path : string).

Inductive Event :=
| Print (line : jsstring)
| PrintError (line : jsstring) (e : Exn)
| Asked (message : string) (initial : jsstring)
| Confirmed (message : string)
| Ran (command : string) (args : list string)
| Probed (attempt : nat)
| Slept (ms : nat)
| Copied (from to : string)
| Wrote (path : string) (content : jsstring)
| Renamed (path : string) (name : jsstring)
| Rescoped (path : string) (oldPrefix newPrefix : jsstring).

Inductive Result (A : Type) :=
| Ok (a : A)
| Throw (e : Exn).
Arguments Ok {A} a.
Arguments Throw {A} e.

(** A computation produces the events it performs and then returns or
    throws. *)
Definition M (A : Type) : Type := list Event * Result A.

Definition ret {A} (a : A) : M A := ([], Ok a).

Definition bind {A B} (m : M A) (f : A -> M B) : M B :=
  match m with
  | (t, Ok a) => let '(t', r) := f a in (t ++ t', r)
  | (t, Throw e) => (t, Throw e)
  end.

Definition throw {A} (e : Exn) : M A := ([], Throw e).

Definition emit (e : Event) : M unit := ([e], Ok tt).

(** [try { m } catch (e) { h e }] *)
Definition catch {A} (m : M A) (h : Exn -> M A) : M A :=
  match m with
  | (t, Throw e) => let '(t', r) := h e in (t ++ t', r)
  | (t, Ok a) => (t, Ok a)
  end.

Declare Scope monad_scope.
Delimit Scope monad_scope with monad.
Notation "x <- m ;; k" := (bind m (fun x => k))
  (at level 61, m at next level, right associativity) : monad_scope.
Notation "m ;; k" := (bind m (fun _ => k))
  (at level 61, right associativity) : monad_scope.
Local Open Scope monad_scope.

Definition say (line : string) : M unit := emit (Print (js line)).

Definition events {A} (m : M A) : list Event := fst m.
Definition result {A} (m : M A) : Result A := snd m.

(** *** The merged write-back *)

Definition skipped (onlyMissing : bool) (existingVars : Obj) (key : jsstring)
  : bool :=
  onlyMissing && has key existingVars && truthy (get key existingVars).

(** The body of the loop over [Object.entries(replacements)], on the pair of
    the variables [content] and [updated]. *)
Definition updateStep (onlyMissing : bool) (existingVars : Obj)
  (st : jsstring * bool) (kv : jsstring * jsstring) : jsstring * bool :=
  if skipped onlyMissing existingVars (fst kv) then st
  else (applyReplacement (fst st) (fst kv) (snd kv), true).

(** [updateEnvFile] for updates with plain keys.  The file is written back
    only when a key was applied; the write goes to the file that has just
    been read and is taken to succeed. *)
Definition updateEnvFile (fs : Files) (filePath : string) (replacements : Obj)
  (onlyMissing : bool) : M Files :=
  match fs filePath with
  | None => emit (Print (js "File not found: " ++ js filePath)) ;; ret fs
  | Some content0 =>
      let existingVars := parseEnvFile fs filePath in
      let '(content, updated) :=
        fold_left (updateStep onlyMissing existingVars)
                  (entries replacements) (content0, false) in
      if updated
      then emit (Wrote filePath content) ;; ret (writeFile fs filePath content)
      else ret fs
  end.

(** ** The surroundings of a run *)

Inductive CmdOutcome :=
| Exited (code : option Z)   (* the [close] event; no code when killed *)
| SpawnError.                (* the [error] event *)

Inductive ProbeOutcome :=
| SpawnThrew                 (* [spawn] itself throws *)
| ProbeError                 (* the [error] event *)
| ProbeClosed (code : option Z).

Inductive StatResult := IsDirectory | NotDirectory | StatFails.

(** What [existsSync] and [readdirSync] see of a directory path. *)
Inductive DirState :=
| Absent
| Unlistable                 (* exists, but [readdirSync] throws *)
| Listing (items : list (string * StatResult)).

(** What the update of a [package.json] finds at its path. *)
Inductive ManifestState :=
| NoManifest                 (* [existsSync] is false *)
| Manifest                   (* a file that holds a JSON object or array *)
| Malformed                  (* [JSON.parse] throws a SyntaxError *)
| NotObject                  (* the JSON is [null] or a primitive: the
                                assignment of [name] throws a TypeError *)
| Inaccessible.              (* [readFileSync] or [writeFileSync] throws *)

(** The user at the terminal and the machine around the script.
    [copies from to] tells whether [copyFileSync(from, to)] succeeds. *)
Record Host := {
  answer : string -> jsstring -> option jsstring;
  accept : string -> option bool;
  exec : string -> list string -> CmdOutcome;
  probe : nat -> ProbeOutcome;
  appsDir : DirState;
  packagesDir : DirState;
  manifest : string -> ManifestState;
  copies : string -> string -> bool
}.

Record AvailableApps := {
  api : bool;
  webSpa : bool;
  webSsr : bool;
  openapiGenerator : bool
}.

Module Database.
Record t := {
  user : jsstring;
  password : jsstring;
  name : jsstring;
  host : jsstring;
  port : number
}.
End Database.

Module Ports.
Record t := {
  api : option number;
  webSpa : option number;
  webSsr : option number
}.
Definition empty : t := {| api := None; webSpa := None; webSsr := None |}.
Definition setApi (n : number) (p : t) : t :=
  {| api := Some n; webSpa := webSpa p; webSsr := webSsr p |}.
Definition setWebSpa (n : number) (p : t) : t :=
  {| api := api p; webSpa := Some n; webSsr := webSsr p |}.
Definition setWebSsr (n : number) (p : t) : t :=
  {| api := api p; webSpa := webSpa p; webSsr := Some n |}.
End Ports.

Module Smtp.
Record t := {
  port : number;
  portWeb : number
}.
End Smtp.

Record EnvConfig := {
  database : Database.t;
  ports : Ports.t;
  smtp : Smtp.t
}.

Record EnvFileInfo := {
  from : string;
  to : string;
  exists_ : bool;
  missingVars : list jsstring
}.

Section Script.

Variable H : Host.

(** *** Prompts and commands *)

Definition prompt (message : string) (initial : jsstring) : M jsstring :=
  emit (Asked message initial) ;;
  match answer H message initial with
  | Some s => ret s
  | None => throw PromptAborted
  end.

Definition confirm (message : string) : M bool :=
  emit (Confirmed message) ;;
  match accept H message with
  | Some b => ret b
  | None => throw PromptAborted
  end.

Definition runCommand (command : string) (args : list string) : M unit :=
  emit (Print (js "Running: " ++ js command ++ js " "
               ++ join (js " ") (map js args))) ;;
  emit (Ran command args) ;;
  match exec H command args with
  | Exited (Some 0%Z) => ret tt
  | Exited code => throw (CommandFailed code)
  | SpawnError => throw LaunchFailed
  end.

(** *** The readiness waiter *)

(** The exit code that one attempt resolves to; [None] when [spawn] threw
    and the [catch] block swallowed it. *)
Definition probeExitCode (o : ProbeOutcome) : option Z :=
  match o with
  | SpawnThrew => None
  | ProbeError => Some 1%Z
  | ProbeClosed (Some code) => Some code
  | ProbeClosed None => Some 1%Z
  end.

Definition isReady (o : ProbeOutcome) : bool :=
  match probeExitCode o with
  | Some 0%Z => true
  | _ => false
  end.

(** The [for] loop from index [i], with [remaining = maxRetries - i]. *)
Fixpoint waitLoop (maxRetries delayMs remaining i : nat) : M bool :=
  match remaining with
  | O =>
      emit (Print (js "Database not ready after "
                   ++ decimal (N.of_nat maxRetries) ++ js " attempts")) ;;
      ret false
  | S remaining' =>
      emit (Probed i) ;;
      if isReady (probe H i) then
        say "Database is ready!" ;; ret true
      else
        emit (Slept delayMs) ;;
        emit (Print (js "Waiting... (" ++ decimal (N.of_nat (i + 1)) ++ js "/"
                     ++ decimal (N.of_nat maxRetries) ++ js ")")) ;;
        waitLoop maxRetries delayMs remaining' (S i)
  end.

Definition waitForDatabase (maxRetries delayMs : nat) : M bool :=
  say "Waiting for database to be ready..." ;;
  waitLoop maxRetries delayMs maxRetries 0.

(** *** The application detector *)

(** [readdirSync(dir).filter(item => statSync(join(dir, item)).isDirectory())] *)
Fixpoint directoriesOf (dir : string) (items : list (string * StatResult))
  : M (list string) :=
  match items with
  | [] => ret []
  | (item, st) :: rest =>
      match st with
      | StatFails => throw (FsError (dir ++ "/" ++ item))
      | IsDirectory => ds <- directoriesOf dir rest ;; ret (item :: ds)
      | NotDirectory => directoriesOf dir rest
      end
  end.

Definition readDirectories (dir : string) (d : DirState) : M (list string) :=
  match d with
  | Absent => throw (FsError dir)
  | Unlistable => throw (FsError dir)
  | Listing items => directoriesOf dir items
  end.

Definition dirExists (d : DirState) : bool :=
  match d with Absent => false | _ => true end.

Definition includes (x : string) (l : list string) : bool :=
  existsb (String.eqb x) l.

Definition detectAvailableApps : M AvailableApps :=
  let apps :=
    {| api := false; webSpa := false; webSsr := false;
       openapiGenerator := false |} in
  apps <- (if dirExists (appsDir H) then
             appDirs <- readDirectories "apps" (appsDir H) ;;
             ret {| api := includes "api" appDirs;
                    webSpa := includes "web-spa" appDirs;
                    webSsr := includes "web-ssr" appDirs;
                    openapiGenerator := openapiGenerator apps |}
           else ret apps) ;;
  if dirExists (packagesDir H) then
    packageDirs <- readDirectories "packages" (packagesDir H) ;;
    ret {| api := api apps; webSpa := webSpa apps; webSsr := webSsr apps;
           openapiGenerator := includes "openapi-generator" packageDirs |}
  else ret apps.

(** *** The prompting stages *)

(** [envExists ? getMissingVariables(example, env) : Object.keys(exampleVars)] *)
Definition missingOrAll (fs : Files) (examplePath envPath : string)
  : list jsstring :=
  if existsSync fs envPath then getMissingVariables fs examplePath envPath
  else keys (parseEnvFile fs examplePath).

(** [envExists ? parseEnvFile(env) : {}] *)
Definition existingOrEmpty (fs : Files) (envPath : string) : Obj :=
  if existsSync fs envPath then parseEnvFile fs envPath else [].

(** [missingVars.includes(key) ? await prompt(message, existing || example
    || fallback) : existing || fallback] *)
Definition promptIfMissing (missing : list jsstring) (existingVars exampleVars : Obj)
  (key message : string) (fallback : jsstring) : M jsstring :=
  if mem (js key) missing
  then prompt message (getOr key existingVars (getOr key exampleVars fallback))
  else ret (getOr key existingVars fallback).

Definition dbVars : list string :=
  [ "DATABASE_USER"; "DATABASE_PASSWORD"; "DATABASE_NAME"; "DATABASE_HOST";
    "DATABASE_PORT" ]%string.

Definition promptDatabaseConfig (fs : Files) : M Database.t :=
  let existingVars := existingOrEmpty fs ".env" in
  let exampleVars := parseEnvFile fs ".env.example" in
  let missing := missingOrAll fs ".env.example" ".env" in
  let needsDbConfig := existsb (fun v => mem (js v) missing) dbVars in
  if negb needsDbConfig then
    say "Database Configuration" ;;
    say "Database variables already configured" ;;
    ret {| Database.user := getOr "DATABASE_USER" existingVars (js "postgres");
           Database.password :=
             getOr "DATABASE_PASSWORD" existingVars (js "postgres");
           Database.name :=
             getOr "DATABASE_NAME" existingVars (js "lonestone_test");
           Database.host := getOr "DATABASE_HOST" existingVars (js "localhost");
           Database.port :=
             parseInt (getOr "DATABASE_PORT" existingVars (js "5111")) |}
  else
    say "Database Configuration" ;;
    user <- promptIfMissing missing existingVars exampleVars
              "DATABASE_USER" "Database user" (js "postgres") ;;
    password <- promptIfMissing missing existingVars exampleVars
                  "DATABASE_PASSWORD" "Database password" (js "postgres") ;;
    name <- promptIfMissing missing existingVars exampleVars
              "DATABASE_NAME" "Database name" (js "lonestone_test") ;;
    host <- promptIfMissing missing existingVars exampleVars
              "DATABASE_HOST" "Database host" (js "localhost") ;;
    portStr <- promptIfMissing missing existingVars exampleVars
                 "DATABASE_PORT" "Database port" (js "5111") ;;
    ret {| Database.user := user; Database.password := password;
           Database.name := name; Database.host := host;
           Database.port := numOr (parseInt portStr) 5111 |}.

(** The first half of [promptPortsConfig]: which applications need a port
    question, and the port of the API when it is already set. *)
Definition portNeeds (fs : Files) (availableApps : AvailableApps)
  : Ports.t * list string :=
  let st := (Ports.empty, []) in
  let st :=
    if api availableApps then
      let existingVars := existingOrEmpty fs "apps/api/.env" in
      let missing := missingOrAll fs "apps/api/.env.example" "apps/api/.env" in
      if mem (js "API_PORT") missing
      then (fst st, snd st ++ ["API"%string])
      else (Ports.setApi (parseInt (getOr "API_PORT" existingVars (js "3000")))
                         (fst st), snd st)
    else st in
  let st :=
    if webSpa availableApps then
      let missing :=
        if existsSync fs "apps/web-spa/.env"
        then getMissingVariables fs "apps/web-spa/.env.example"
                                 "apps/web-spa/.env"
        else [] in
      match missing with
      | _ :: _ => (fst st, snd st ++ ["Web SPA"%string])
      | [] => st
      end
    else st in
  if webSsr availableApps then
    let missing :=
      if existsSync fs "apps/web-ssr/.env"
      then getMissingVariables fs "apps/web-ssr/.env.example"
                               "apps/web-ssr/.env"
      else [] in
    match missing with
    | _ :: _ => (fst st, snd st ++ ["Web SSR"%string])
    | [] => st
    end
  else st.

Definition promptPortsConfig (fs : Files) (availableApps : AvailableApps)
  : M Ports.t :=
  let '(ports, needsPortConfig) := portNeeds fs availableApps in
  match needsPortConfig with
  | [] =>
      say "Application Ports Configuration" ;;
      say "Ports already configured" ;;
      ret ports
  | _ :: _ =>
      say "Application Ports Configuration" ;;
      ports <-
        (if api availableApps && includes "API" needsPortConfig then
           let existingVars := existingOrEmpty fs "apps/api/.env" in
           let exampleVars := parseEnvFile fs "apps/api/.env.example" in
           let initialPort :=
             getOr "API_PORT" existingVars
                   (getOr "API_PORT" exampleVars (js "3000")) in
           apiPortStr <- prompt "API port" initialPort ;;
           ret (Ports.setApi (numOr (parseInt apiPortStr) 3000) ports)
         else if api availableApps then
           let existingVars := parseEnvFile fs "apps/api/.env" in
           ret (Ports.setApi
                  (parseInt (getOr "API_PORT" existingVars (js "3000"))) ports)
         else ret ports) ;;
      ports <-
        (if webSpa availableApps && includes "Web SPA" needsPortConfig then
           let existingVars := existingOrEmpty fs "apps/web-spa/.env" in
           let exampleVars := parseEnvFile fs "apps/web-spa/.env.example" in
           let initialPort :=
             getOr "VITE_PORT" existingVars
                   (getOr "VITE_PORT" exampleVars (js "5173")) in
           webSpaPortStr <- prompt "Web SPA port" initialPort ;;
           ret (Ports.setWebSpa (numOr (parseInt webSpaPortStr) 5173) ports)
         else ret ports) ;;
      if webSsr availableApps && includes "Web SSR" needsPortConfig then
        let existingVars := existingOrEmpty fs "apps/web-ssr/.env" in
        let exampleVars := parseEnvFile fs "apps/web-ssr/.env.example" in
        let initialPort :=
          getOr "PORT" existingVars (getOr "PORT" exampleVars (js "5174")) in
        webSsrPortStr <- prompt "Web SSR port" initialPort ;;
        ret (Ports.setWebSsr (numOr (parseInt webSsrPortStr) 5174) ports)
      else ret ports
  end.

Definition smtpVars : list string := [ "SMTP_PORT"; "SMTP_PORT_WEB" ]%string.

Definition promptSmtpConfig (fs : Files) : M Smtp.t :=
  let existingVars := existingOrEmpty fs ".env" in
  let exampleVars := parseEnvFile fs ".env.example" in
  let missing := missingOrAll fs ".env.example" ".env" in
  let needsSmtpConfig := existsb (fun v => mem (js v) missing) smtpVars in
  if negb needsSmtpConfig then
    say "SMTP Configuration (MailDev)" ;;
    say "SMTP variables already configured" ;;
    ret {| Smtp.port := parseInt (getOr "SMTP_PORT" existingVars (js "1025"));
           Smtp.portWeb :=
             parseInt (getOr "SMTP_PORT_WEB" existingVars (js "1080")) |}
  else
    say "SMTP Configuration (MailDev)" ;;
    portStr <- promptIfMissing missing existingVars exampleVars
                 "SMTP_PORT" "SMTP port" (js "1025") ;;
    portWebStr <- promptIfMissing missing existingVars exampleVars
                    "SMTP_PORT_WEB" "MailDev web port" (js "1080") ;;
    ret {| Smtp.port := numOr (parseInt portStr) 1025;
           Smtp.portWeb := numOr (parseInt portWebStr) 1080 |}.

(** *** Template and target files *)

Definition envPairs (availableApps : AvailableApps) : list (string * string) :=
  [ (".env.example", ".env") ]%string
  ++ (if api availableApps
      then [ ("apps/api/.env.example", "apps/api/.env") ]%string else [])
  ++ (if webSpa availableApps
      then [ ("apps/web-spa/.env.example", "apps/web-spa/.env") ]%string
      else [])
  ++ (if webSsr availableApps
      then [ ("apps/web-ssr/.env.example", "apps/web-ssr/.env") ]%string
      else [])
  ++ (if openapiGenerator availableApps
      then [ ("packages/openapi-generator/.env.example",
              "packages/openapi-generator/.env") ]%string
      else []).

Definition checkEnvFiles (fs : Files) (availableApps : AvailableApps)
  : list EnvFileInfo :=
  map (fun ft =>
         let exists_ := existsSync fs (snd ft) in
         {| from := fst ft; to := snd ft; exists_ := exists_;
            missingVars :=
              if exists_ then getMissingVariables fs (fst ft) (snd ft)
              else [] |})
      (envPairs availableApps).

(** One turn of the loop of [copyEnvFiles].  [copyFileSync] is not guarded:
    when it fails, its error leaves the loop. *)
Definition copyEnvFile (fs : Files) (info : EnvFileInfo) : M Files :=
  if exists_ info then
    match missingVars info with
    | _ :: _ =>
        emit (Print (js (to info) ++ js " exists but missing variables: "
                     ++ join (js ", ") (missingVars info))) ;;
        ret fs
    | [] =>
        emit (Print (js (to info) ++ js " exists and is complete")) ;; ret fs
    end
  else
    match fs (from info) with
    | Some content =>
        if copies H (from info) (to info) then
          emit (Copied (from info) (to info)) ;;
          emit (Print (js "Copied " ++ js (from info) ++ js " -> "
                       ++ js (to info))) ;;
          ret (writeFile fs (to info) content)
        else throw (CopyError (from info) (to info))
    | None =>
        emit (Print (js "File not found: " ++ js (from info))) ;; ret fs
    end.

Fixpoint copyLoop (fs : Files) (envFilesInfo : list EnvFileInfo) : M Files :=
  match envFilesInfo with
  | [] => ret fs
  | info :: rest => fs' <- copyEnvFile fs info ;; copyLoop fs' rest
  end.

Definition copyEnvFiles (fs : Files) (envFilesInfo : list EnvFileInfo)
  : M Files :=
  say "Checking .env files" ;; copyLoop fs envFilesInfo.

(** *** The derived values and the write-back of all files *)

(** [`http://localhost:${port}`] *)
Definition localUrl (port : number) : jsstring :=
  js "http://localhost:" ++ numToString port.

(** [if (port) { origins.push(`http://localhost:${port}`) }] *)
Definition originOf (port : option number) : list jsstring :=
  match port with
  | Some n => if numTruthy n then [localUrl n] else []
  | None => []
  end.

Definition origins (p : Ports.t) : list jsstring :=
  originOf (Ports.api p) ++ originOf (Ports.webSpa p)
  ++ originOf (Ports.webSsr p).

Definition trustedOrigins (p : Ports.t) : jsstring := join (js ",") (origins p).

(** The properties assigned to an update object when [port] is truthy. *)
Definition whenPort (port : option number) (f : number -> list (jsstring * jsstring))
  : list (jsstring * jsstring) :=
  match port with
  | Some n => if numTruthy n then f n else []
  | None => []
  end.

Definition rootUpdates (config : EnvConfig) : Obj :=
  literal
    [ (js "DATABASE_USER", Database.user (database config));
      (js "DATABASE_PASSWORD", Database.password (database config));
      (js "DATABASE_NAME", Database.name (database config));
      (js "DATABASE_PORT", numToString (Database.port (database config)));
      (js "SMTP_PORT", numToString (Smtp.port (smtp config)));
      (js "SMTP_PORT_WEB", numToString (Smtp.portWeb (smtp config))) ].

Definition apiUpdates (config : EnvConfig) (apiPort : number) : Obj :=
  literal
    ([ (js "API_PORT", numToString apiPort);
       (js "DATABASE_USER", Database.user (database config));
       (js "DATABASE_PASSWORD", Database.password (database config));
       (js "DATABASE_NAME", Database.name (database config));
       (js "DATABASE_HOST", Database.host (database config));
       (js "DATABASE_PORT", numToString (Database.port (database config)));
       (js "TRUSTED_ORIGINS", trustedOrigins (ports config)) ]
     ++ whenPort (Ports.webSpa (ports config))
          (fun n => [ (js "CLIENTS_WEB_APP_URL", localUrl n) ])
     ++ whenPort (Ports.webSsr (ports config))
          (fun n => [ (js "CLIENTS_WEB_SSR_URL", localUrl n) ])).

(** [if (available && config.ports.api) { updateEnvFile(path, f(port), false) }] *)
Definition updateWhen (fs : Files) (available : bool) (apiPort : option number)
  (path : string) (f : number -> Obj) : M Files :=
  match apiPort with
  | Some n =>
      if available && numTruthy n then updateEnvFile fs path (f n) false
      else ret fs
  | None => ret fs
  end.

Definition updateAllEnvFiles (fs : Files) (config : EnvConfig)
  (availableApps : AvailableApps) : M Files :=
  say "Updating .env files" ;;
  let apiPort := Ports.api (ports config) in
  fs <- (match keys (rootUpdates config) with
         | _ :: _ => updateEnvFile fs ".env" (rootUpdates config) false
         | [] => ret fs
         end) ;;
  fs <- updateWhen fs (api availableApps) apiPort "apps/api/.env"
          (fun n => apiUpdates config n) ;;
  fs <- updateWhen fs (webSpa availableApps) apiPort "apps/web-spa/.env"
          (fun n => literal [ (js "VITE_API_URL", localUrl n) ]) ;;
  fs <- updateWhen fs (webSsr availableApps) apiPort "apps/web-ssr/.env"
          (fun n => literal [ (js "API_URL", localUrl n) ]) ;;
  fs <- updateWhen fs (openapiGenerator availableApps) apiPort
          "packages/openapi-generator/.env"
          (fun n => literal [ (js "API_URL", localUrl n) ]) ;;
  say "Configuration values have been updated in .env files" ;;
  ret fs.

(** *** Renaming the packages *)

(** [updatePackageJsonName] followed by [updatePackageJsonDependencies] on
    one manifest; the rewritten JSON itself is not modelled.  Every error
    is thrown by the first of the two, before anything is written; the
    second then works on the object that the first has just written. *)
Definition updateManifest (path : string) (newName oldPrefix newPrefix : jsstring)
  : M unit :=
  match manifest H path with
  | NoManifest => ret tt
  | Malformed => throw (ManifestError path)
  | NotObject => throw (TypeError path)
  | Inaccessible => throw (FsError path)
  | Manifest =>
      emit (Renamed path newName) ;; emit (Rescoped path oldPrefix newPrefix)
  end.

Fixpoint updateManifests (newPrefix : jsstring)
  (l : list (string * string * bool)) : M unit :=
  match l with
  | [] => ret tt
  | (path, name, condition) :: rest =>
      (if condition then
         updateManifest path (newPrefix ++ js "/" ++ js name)
                        (js "@lonestone") newPrefix ;;
         emit (Print (js "Updated " ++ js path))
       else ret tt) ;;
      updateManifests newPrefix rest
  end.

Definition renameProjects (projectName : jsstring)
  (availableApps : AvailableApps) : M unit :=
  say "Renaming project packages" ;;
  let newPrefix := js "@" ++ projectName in
  (match manifest H "package.json" with
   | NoManifest => ret tt
   | Malformed => throw (ManifestError "package.json")
   | NotObject => throw (TypeError "package.json")
   | Inaccessible => throw (FsError "package.json")
   | Manifest =>
       emit (Renamed "package.json" projectName) ;;
       say "Updated package.json"
   end) ;;
  updateManifests newPrefix
    [ ("apps/api/package.json", "api", api availableApps);
      ("apps/web-spa/package.json", "web-spa", webSpa availableApps);
      ("apps/web-ssr/package.json", "web-ssr", webSsr availableApps);
      ("apps/documentation/package.json", "documentation", true) ]%string ;;
  updateManifests newPrefix
    [ ("packages/ui/package.json", "ui", true);
      ("packages/openapi-generator/package.json", "openapi-generator",
       openapiGenerator availableApps) ]%string ;;
  emit (Print (js "All project packages renamed to @" ++ projectName
               ++ js "/*")) ;;
  say "Running linter with auto-fix..." ;;
  catch (runCommand "pnpm" [ "lint:fix" ]%string ;; say "Linting completed")
        (fun _ => say "Linting failed, but continuing setup").

(** *** The main sequence *)

Definition migrateCommand : string := "pnpm --filter=api db:migrate:up".

Definition sayWhen (port : option number) (label : string) : M unit :=
  match port with
  | Some n =>
      if numTruthy n then emit (Print (js label ++ localUrl n)) else ret tt
  | None => ret tt
  end.

(** The mandatory part of the [try] block of [main], from the detection to
    the configuration summary.  It returns the detected applications and the
    files as the write-back leaves them. *)
Definition configure (fs : Files) : M (AvailableApps * Files) :=
  availableApps <- detectAvailableApps ;;
  say "Detected Applications:" ;;
  (if api availableApps then say "API" else ret tt) ;;
  (if webSpa availableApps then say "Web SPA" else ret tt) ;;
  (if webSsr availableApps then say "Web SSR" else ret tt) ;;
  (if openapiGenerator availableApps then say "OpenAPI Generator" else ret tt) ;;
  let envFilesInfo := checkEnvFiles fs availableApps in
  projectName <- prompt "Project name" (js "my-project") ;;
  renameProjects projectName availableApps ;;
  databaseConfig <- promptDatabaseConfig fs ;;
  portsConfig <- promptPortsConfig fs availableApps ;;
  smtpConfig <- promptSmtpConfig fs ;;
  let config :=
    {| database := databaseConfig; ports := portsConfig;
       smtp := smtpConfig |} in
  fs <- copyEnvFiles fs envFilesInfo ;;
  fs <- updateAllEnvFiles fs config availableApps ;;
  say "Setup completed successfully!" ;;
  say "Configuration Summary:" ;;
  emit (Print (js "Database: " ++ Database.user databaseConfig ++ js "@"
               ++ Database.host databaseConfig ++ js ":"
               ++ numToString (Database.port databaseConfig) ++ js "/"
               ++ Database.name databaseConfig)) ;;
  sayWhen (Ports.api portsConfig) "API: " ;;
  sayWhen (Ports.webSpa portsConfig) "Web SPA: " ;;
  sayWhen (Ports.webSsr portsConfig) "Web SSR: " ;;
  emit (Print (js "SMTP: localhost:" ++ numToString (Smtp.port smtpConfig)
               ++ js " (Web: " ++ numToString (Smtp.portWeb smtpConfig)
               ++ js ")")) ;;
  ret (availableApps, fs).

(** The inner [try] around the migration command. *)
Definition runMigrations : M unit :=
  catch (runCommand "pnpm" [ "--filter=api"; "db:migrate:up" ]%string ;;
         say "Migrations completed successfully")
        (fun error =>
           emit (PrintError (js "Migration failed:") error) ;;
           emit (Print (js "You can run migrations manually later with: "
                        ++ js migrateCommand))).

(** What follows [dockerStarted = true] inside the [try] around the start
    of the Docker services. *)
Definition afterDockerUp (availableApps : AvailableApps) : M unit :=
  dbReady <- waitForDatabase 30 1000 ;;
  if dbReady && api availableApps then
    say "Database Migrations" ;;
    shouldRunMigrations <- confirm "Run database migrations?" ;;
    if shouldRunMigrations then runMigrations
    else emit (Print (js "Skipped migrations. Run manually with: "
                      ++ js migrateCommand))
  else if negb dbReady && api availableApps then
    emit (Print (js "Database not ready. Run migrations manually with: "
                 ++ js migrateCommand))
  else ret tt.

(** The [catch] block of that [try]; [dockerStarted] keeps the value it had
    when the error was thrown. *)
Definition dockerFailed (dockerStarted : bool) (error : Exn) : M bool :=
  emit (PrintError (js "Failed to start Docker:") error) ;;
  say "You can start Docker manually with: pnpm docker:up" ;;
  ret dockerStarted.

(** The optional part of the [try] block of [main]. *)
Definition optionalSteps (availableApps : AvailableApps) : M unit :=
  say "Docker Services" ;;
  shouldStartDocker <- confirm "Start Docker services (database, maildev)?" ;;
  dockerStarted <-
    (if shouldStartDocker then
       catch (runCommand "pnpm" [ "docker:up" ]%string ;;
              say "Docker services started" ;;
              catch (afterDockerUp availableApps ;; ret true)
                    (dockerFailed true))
             (dockerFailed false)
     else
       say "Skipped Docker. Start manually with: pnpm docker:up" ;;
       (if api availableApps then
          emit (Print (js "Migrations skipped (requires Docker). Run with: "
                       ++ js migrateCommand))
        else ret tt) ;;
       ret false) ;;
  say "Setup complete!" ;;
  say "Next steps:" ;;
  (if negb dockerStarted then
     say "Start Docker services: pnpm docker:up" ;;
     (if api availableApps
      then emit (Print (js "Run migrations: " ++ js migrateCommand))
      else ret tt)
   else ret tt) ;;
  say "Start development: pnpm dev".

(** The key-value files as the copies and writes of a trace leave them. *)
Definition written (fs : Files) (t : list Event) : Files :=
  fold_left (fun fs e =>
               match e with
               | Copied from to =>
                   match fs from with
                   | Some content => writeFile fs to content
                   | None => fs
                   end
               | Wrote path content => writeFile fs path content
               | _ => fs
               end) t fs.

(** What a run leaves behind: its trace, its exit code and the key-value
    files.  The manifests are not part of [files]: what happens to them is
    in the trace. *)
Record Outcome := {
  trace : list Event;
  exitCode : Z;
  files : Files
}.

(** The outer [catch] of [main]: the error is printed and the process exits
    with code 1. *)
Definition fatal (error : Exn) : Event :=
  PrintError (js "Error during setup:") error.

(** [main] with its single [try] block.  A failure of [configure] leaves
    the files with the copies and writes made before the error; a failure
    in the optional part leaves them as written back. *)
Definition main (fs : Files) : Outcome :=
  let banner := Print (js "Development Environment Setup") in
  match configure fs with
  | (t, Throw error) =>
      {| trace := banner :: t ++ [fatal error]; exitCode := 1;
         files := written fs t |}
  | (t, Ok (availableApps, fs')) =>
      match optionalSteps availableApps with
      | (t', Throw error) =>
          {| trace := banner :: t ++ t' ++ [fatal error]; exitCode := 1;
             files := fs' |}
      | (t', Ok _) =>
          {| trace := banner :: t ++ t'; exitCode := 0; files := fs' |}
      end
  end.

End Script.

(** ** Observations on a run, and the statements of the specification *)

(** The messages of the questions asked, in order. *)
Definition asked (t : list Event) : list string :=
  flat_map (fun e => match e with Asked m _ => [m] | _ => [] end) t.

(** The indices of the readiness attempts made, in order. *)
Definition probes (t : list Event) : list nat :=
  flat_map (fun e => match e with Probed i => [i] | _ => [] end) t.

(** The target file [path] contains [key] with a non-empty value. *)
Definition holds (fs : Files) (path : string) (key : jsstring) : bool :=
  match own key (parseEnvFile fs path) with
  | Some (_ :: _) => true
  | _ => false
  end.

(** The questions that stand for a key, with the target file whose content
    decides whether the key itself is asked for. *)
Definition keyQuestions : list (string * string * string) :=
  [ ("Database user", "DATABASE_USER", ".env");
    ("Database password", "DATABASE_PASSWORD", ".env");
    ("Database name", "DATABASE_NAME", ".env");
    ("Database host", "DATABASE_HOST", ".env");
    ("Database port", "DATABASE_PORT", ".env");
    ("SMTP port", "SMTP_PORT", ".env");
    ("MailDev web port", "SMTP_PORT_WEB", ".env");
    ("API port", "API_PORT", "apps/api/.env") ]%string.

(** A root directory that the detector can work with: absent, or listed
    with every item open to [statSync]. *)
Definition listable (d : DirState) : Prop :=
  match d with
  | Absent => True
  | Unlistable => False
  | Listing items => forall item, ~ In (item, StatFails) items
  end.

(** The trusted origins in the words of the specification: for each
    subproject, in the order backend, single-page frontend, server-rendered
    frontend, the local URL of its port when it has a resolved one (a number
    other than zero and NaN); all joined with commas. *)
Inductive Subproject := Backend | FrontendSpa | FrontendSsr.

Definition resolvedPort (p : Ports.t) (s : Subproject) : option number :=
  let field :=
    match s with
    | Backend => Ports.api p
    | FrontendSpa => Ports.webSpa p
    | FrontendSsr => Ports.webSsr p
    end in
  match field with
  | Some NaN => None
  | Some (Int 0) => None
  | other => other
  end.

Definition deriveTrustedOrigins (p : Ports.t) : jsstring :=
  join (js ",")
       (flat_map (fun s => match resolvedPort p s with
                           | Some n => [js "http://localhost:" ++ numToString n]
                           | None => []
                           end)
                 [Backend; FrontendSpa; FrontendSsr]).

(** At least one key of [replacements] is applied by [updateEnvFile]. *)
Definition applies (onlyMissing : bool) (existingVars replacements : Obj) : bool :=
  existsb (fun kv => negb (skipped onlyMissing existingVars (fst kv)))
          (entries replacements).

(** The content that [updateEnvFile] computes from [content0]. *)
Definition merged (onlyMissing : bool) (existingVars replacements : Obj)
  (content0 : jsstring) : jsstring :=
  fst (fold_left (updateStep onlyMissing existingVars) (entries replacements)
                 (content0, false)).

(** ** Concrete workspaces *)

Definition oneFile (path : string) (lines : list string) : Files :=
  fun p => if String.eqb p path then Some (text lines) else None.

Definition noFiles : Files := fun _ => None.

(** A user who accepts every default and declines every confirmation, on a
    machine where every command succeeds and no directory exists. *)
Definition quietHost : Host :=
  {| answer := fun _ initial => Some initial;
     accept := fun _ => Some false;
     exec := fun _ _ => Exited (Some 0%Z);
     probe := fun _ => ProbeClosed (Some 0%Z);
     appsDir := Absent;
     packagesDir := Absent;
     manifest := fun _ => Manifest;
     copies := fun _ _ => true |}.

Definition withDirs (apps packages : DirState) (h : Host) : Host :=
  {| answer := answer h; accept := accept h; exec := exec h; probe := probe h;
     appsDir := apps; packagesDir := packages; manifest := manifest h;
     copies := copies h |}.

Definition withProbe (p : nat -> ProbeOutcome) (h : Host) : Host :=
  {| answer := answer h; accept := accept h; exec := exec h; probe := p;
     appsDir := appsDir h; packagesDir := packagesDir h;
     manifest := manifest h; copies := copies h |}.


(** A target file that already holds the value to be written. *)
Definition settledFile : Files := oneFile ".env" [ "A=1" ]%string.

(** A machine on which the readiness probe cannot be launched. *)
Definition noDockerHost : Host := withProbe (fun _ => SpawnThrew) quietHost.

(** The items of a listing that are directories. *)
Definition directoryNames (items : list (string * StatResult)) : list string :=
  flat_map (fun it => match snd it with
                      | IsDirectory => [fst it]
                      | _ => []
                      end) items.

(** A workspace whose [apps] path exists but cannot be listed (no read
    permission, or a regular file of that name). *)
Definition unreadableAppsHost : Host := withDirs Unlistable Absent quietHost.

(** A workspace whose [packages] directory holds a dangling link. *)
Definition danglingLinkHost : Host :=
  withDirs Absent (Listing [ ("ui", IsDirectory); ("stale", StatFails) ]%string)
           quietHost.

(** A workspace with the backend only. *)
Definition backendOnlyHost : Host :=
  withDirs (Listing [ ("api", IsDirectory); ("README.md", NotDirectory) ]%string)
           Absent quietHost.

(** [l] ends with the events [tail]. *)
Definition endsWith (tail l : list Event) : Prop :=
  exists before, l = before ++ tail.

(** A user who accepts every default and every confirmation, on a machine
    with the backend only, where Docker starts and the database answers at
    the third attempt, but the migration command exits with status 1. *)
Definition failedMigrationHost : Host :=
  {| answer := fun _ initial => Some initial;
     accept := fun _ => Some true;
     exec := fun _ args =>
               if includes "db:migrate:up" args then Exited (Some 1%Z)
               else Exited (Some 0%Z);
     probe := fun i => if Nat.leb 2 i then ProbeClosed (Some 0%Z)
                       else ProbeClosed (Some 2%Z);
     appsDir := Listing [ ("api", IsDirectory) ]%string;
     packagesDir := Absent;
     manifest := fun _ => Manifest;
     copies := fun _ _ => true |}.

(** A fresh clone of a workspace with the backend only. *)
Definition freshBackendFiles : Files :=
  fun p =>
    if String.eqb p ".env.example" then
      Some (text [ "DATABASE_USER=postgres"; "DATABASE_PORT=5111" ]%string)
    else if String.eqb p "apps/api/.env.example" then
      Some (text [ "API_PORT=3000"; "DATABASE_USER=postgres" ]%string)
    else None.

(** The tail of the output of a run whose migration command failed. *)
Definition afterFailedMigration (error : Exn) : list Event :=
  [ PrintError (js "Migration failed:") error;
    Print (js "You can run migrations manually later with: pnpm --filter=api db:migrate:up");
    Print (js "Setup complete!");
    Print (js "Next steps:");
    Print (js "Start development: pnpm dev") ].


(** Every question asked by [m] satisfies [P]. *)
Definition asksOnly {A} (P : string -> Prop) (m : M A) : Prop :=
  forall message, In message (asked (events m)) -> P message.

(** No question at all. *)
Definition silent {A} (m : M A) : Prop := asksOnly (fun _ => False) m.

(** A workspace in which the backend's target file sets [DATABASE_USER]
    while the root has no target file yet, and the single-page frontend's
    target file sets [VITE_PORT] but lacks another key of its template. *)
Definition partlyConfiguredFiles : Files :=
  fun p =>
    if String.eqb p ".env.example" then
      Some (text [ "DATABASE_USER=postgres" ]%string)
    else if String.eqb p "apps/api/.env" then
      Some (text [ "DATABASE_USER=admin" ]%string)
    else if String.eqb p "apps/web-spa/.env.example" then
      Some (text [ "VITE_PORT=5173"; "VITE_API_URL=http://localhost:3000" ]%string)
    else if String.eqb p "apps/web-spa/.env" then
      Some (text [ "VITE_PORT=8080" ]%string)
    else None.

Definition backendAndSpaHost : Host :=
  withDirs (Listing [ ("api", IsDirectory); ("web-spa", IsDirectory) ]%string)
           Absent quietHost.

(** A workspace whose root target file is complete. *)
Definition configuredRootFiles : Files :=
  fun p =>
    if String.eqb p ".env.example" then
      Some (text [ "DATABASE_USER=postgres"; "SMTP_PORT=1025" ]%string)
    else if String.eqb p ".env" then
      Some (text [ "DATABASE_USER=admin"; "SMTP_PORT=" ]%string)
    else None.

(** A fresh clone with the backend, whose templates name the database
    host, and a user who types another host and accepts the other defaults. *)
Definition hostTemplateFiles : Files :=
  fun p =>
    if String.eqb p ".env.example" then
      Some (text [ "DATABASE_HOST=localhost" ]%string)
    else if String.eqb p "apps/api/.env.example" then
      Some (text [ "API_PORT=3000"; "DATABASE_HOST=localhost" ]%string)
    else None.

Definition remoteDatabaseHost : Host :=
  {| answer := fun message initial =>
                 if String.eqb message "Database host"
                 then Some (js "db.internal") else Some initial;
     accept := fun _ => Some false;
     exec := fun _ _ => Exited (Some 0%Z);
     probe := fun _ => ProbeClosed (Some 0%Z);
     appsDir := Listing [ ("api", IsDirectory) ]%string;
     packagesDir := Absent;
     manifest := fun _ => Manifest;
     copies := fun _ _ => true |}.

Definition firstRun : Outcome := main remoteDatabaseHost hostTemplateFiles.
Definition secondRun : Outcome := main remoteDatabaseHost (files firstRun).

(** A fresh clone with the backend and the single-page frontend, whose
    frontend template leaves one value empty; the user accepts every
    default. *)
Definition emptyValueTemplateFiles : Files :=
  fun p =>
    if String.eqb p "apps/api/.env.example" then
      Some (text [ "API_PORT=3000" ]%string)
    else if String.eqb p "apps/web-spa/.env.example" then
      Some (text [ "VITE_API_URL=http://localhost:3000"; "VITE_SENTRY_DSN=" ]%string)
    else None.

Definition firstDefaultRun : Outcome := main backendAndSpaHost emptyValueTemplateFiles.
Definition secondDefaultRun : Outcome := main backendAndSpaHost (files firstDefaultRun).

(** The question [message] stands for [key], which is missing from the
    target file [path]. *)
Definition asksForMissing (fs : Files) (message : string) : Prop :=
  exists key examplePath path,
    In (message, key, path) keyQuestions
    /\ mem (js key) (missingOrAll fs examplePath path) = true.

(** ** Further observations *)

(** The durations of the pauses of a run, in order. *)
Definition sleeps (t : list Event) : list nat :=
  flat_map (fun e => match e with Slept ms => [ms] | _ => [] end) t.

(** No line terminator occurs in [s]. *)
Definition noLT (s : jsstring) : bool :=
  forallb (fun c => negb (isLineTerminator c)) s.

(** No dollar sign occurs in [s]. *)
Definition noDollar (s : jsstring) : bool :=
  forallb (fun c => negb (c =? DOLLAR)) s.

(** What the parser guarantees about a map it returns: the keys are
    distinct; no key is empty, contains an equals sign, carries white space
    at either end or is [__proto__]; every value is trimmed and free of line
    terminators. *)
Definition wellFormed (o : Obj) : Prop :=
  NoDup (keys o)
  /\ forall k v, own k o = Some v ->
       (k <> [] /\ ~ In EQUALS k /\ trim k = k /\ k <> js "__proto__")
       /\ (trim v = v /\ noLT v = true).

(** A match found further on, seen from [x] characters earlier. *)
Definition prepend (x : jsstring) (r : option (jsstring * jsstring * jsstring))
  : option (jsstring * jsstring * jsstring) :=
  match r with
  | Some (b, m, a) => Some (x ++ b, m, a)
  | None => None
  end.

(** The first line of the key in [content] is exactly [KEY=value]. *)
Definition settled (key value content : jsstring) : Prop :=
  exists before after,
    findAssign (key ++ [EQUALS]) true content
    = Some (before, assignment key value, after).

(** The updates that the write-back handles without surprise: plain keys,
    and values without line terminators and dollar signs. *)
Definition plainUpdates (replacements : Obj) : Prop :=
  NoDup (keys replacements)
  /\ forall k v, In (k, v) replacements ->
       plainKey k = true /\ noLT v = true /\ noDollar v = true.

(** A target file with a comment, a key and a second line of the same key,
    and two updates for it. *)
Definition twoLinesFile : Files :=
  oneFile ".env" [ "# local"; "A=1"; "A=old" ]%string.

Definition twoUpdates : Obj := [ (js "A", js "2"); (js "B", js "x y") ].

(** The entry of the snapshot for one pair of template and target. *)
Definition infoOf (fs : Files) (ft : string * string) : EnvFileInfo :=
  let exists_ := existsSync fs (snd ft) in
  {| from := fst ft; to := snd ft; exists_ := exists_;
     missingVars :=
       if exists_ then getMissingVariables fs (fst ft) (snd ft) else [] |}.

(** The pair, if any, whose target is [q]. *)
Definition pairOf (pairs : list (string * string)) (q : string)
  : option (string * string) :=
  find (fun ft => String.eqb (snd ft) q) pairs.

(** A user who answers every question. *)
Definition attentive (H : Host) : Prop :=
  forall message initial, answer H message initial <> None.

(** The questions of the database stage and of the mail stage, each with
    the key it stands for, in the order of the script. *)
Definition databaseQuestions : list (string * string) :=
  [ ("Database user", "DATABASE_USER");
    ("Database password", "DATABASE_PASSWORD");
    ("Database name", "DATABASE_NAME");
    ("Database host", "DATABASE_HOST");
    ("Database port", "DATABASE_PORT") ]%string.

Definition smtpQuestions : list (string * string) :=
  [ ("SMTP port", "SMTP_PORT"); ("MailDev web port", "SMTP_PORT_WEB") ]%string.

(** The questions whose key is among the missing ones. *)
Definition questionsOf (missing : list jsstring)
  (questions : list (string * string)) : list string :=
  flat_map (fun q => if mem (js (snd q)) missing then [fst q] else [])
           questions.

(** Every event of [m] satisfies [P]. *)
Definition emitsOnly {A} (P : Event -> Prop) (m : M A) : Prop :=
  forall e, In e (events m) -> P e.

(** A copy of a template or a write of a target file. *)
Definition envWrite (e : Event) : bool :=
  match e with
  | Copied _ _ | Wrote _ _ => true
  | _ => false
  end.

(** What the script does while it collects the configuration: console
    lines, questions, the renaming of the manifests and the lint command. *)
Definition collecting (e : Event) : Prop :=
  match e with
  | Print _ | PrintError _ _ | Asked _ _ | Renamed _ _ | Rescoped _ _ _ => True
  | Ran command args => command = "pnpm"%string /\ args = [ "lint:fix"%string ]
  | _ => False
  end.

(** What it does while it writes the configuration back. *)
Definition writingBack (e : Event) : Prop :=
  match e with
  | Print _ | Copied _ _ | Wrote _ _ => True
  | _ => False
  end.

(** The error of a copy that failed. *)
Definition copyError (e : Exn) : Prop := exists from to, e = CopyError from to.

(** A computation in two stages: it collects, then writes back; while it
    collects it can throw any error, while it writes back only the error
    of a copy. *)
Definition staged {A} (m : M A) : Prop :=
  exists t1 t2,
    events m = t1 ++ t2
    /\ Forall collecting t1 /\ Forall writingBack t2
    /\ (forall e, result m = Throw e -> copyError e \/ t2 = []).


(** The command that runs the migrations. *)
Definition migration : Event :=
  Ran "pnpm" [ "--filter=api"; "db:migrate:up" ]%string.

(** An event of the readiness waiter. *)
Definition waiting (e : Event) : Prop :=
  match e with
  | Print _ | Probed _ | Slept _ => True
  | _ => False
  end.

(** A configuration without any application port. *)
Definition portlessConfig : EnvConfig :=
  {| database := {| Database.user := js "u"; Database.password := js "p";
                    Database.name := js "d"; Database.host := js "h";
                    Database.port := Int 5432 |};
     ports := Ports.empty;
     smtp := {| Smtp.port := Int 1025; Smtp.portWeb := Int 1080 |} |}.

Definition everyApp : AvailableApps :=
  {| api := true; webSpa := true; webSsr := true; openapiGenerator := true |}.

(** The manifests that the renaming reads, in the order in which it reads
    them: the root one, then the rows of the two tables whose condition
    holds. *)
Definition selected (l : list (string * string * bool)) : list string :=
  map (fun row => fst (fst row)) (filter (fun row => snd row) l).

Definition selectedManifests (availableApps : AvailableApps) : list string :=
  "package.json"%string
  :: selected [ ("apps/api/package.json", "api", api availableApps);
                ("apps/web-spa/package.json", "web-spa",
                 webSpa availableApps);
                ("apps/web-ssr/package.json", "web-ssr",
                 webSsr availableApps);
                ("apps/documentation/package.json", "documentation", true)
              ]%string
  ++ selected [ ("packages/ui/package.json", "ui", true);
                ("packages/openapi-generator/package.json",
                 "openapi-generator", openapiGenerator availableApps)
              ]%string.

(** The error that the update of the manifest at [path] throws, if any:
    a syntax error for text that is not JSON, a type error for JSON that is
    not an object, the error of the file system for a file that cannot be
    read or written. *)
Definition manifestError (path : string) (state : ManifestState)
  : option Exn :=
  match state with
  | NoManifest | Manifest => None
  | Malformed => Some (ManifestError path)
  | NotObject => Some (TypeError path)
  | Inaccessible => Some (FsError path)
  end.

(** The error of the first manifest of [paths] that cannot be updated. *)
Fixpoint firstFailure (H : Host) (paths : list string) : option Exn :=
  match paths with
  | [] => None
  | path :: rest =>
      match manifestError path (manifest H path) with
      | Some error => Some error
      | None => firstFailure H rest
      end
  end.


(** A user who accepts every default and every confirmation, on a machine
    without applications where the Docker command cannot be launched. *)
Definition brokenDockerHost : Host :=
  {| answer := fun _ initial => Some initial;
     accept := fun _ => Some true;
     exec := fun _ args =>
               if includes "docker:up" args then SpawnError
               else Exited (Some 0%Z);
     probe := fun _ => SpawnThrew;
     appsDir := Absent;
     packagesDir := Absent;
     manifest := fun _ => Manifest;
     copies := fun _ _ => true |}.

(** The copy of the pair [ft] (template, target) is attempted, because the
    target is absent and the template present, and it fails. *)
Definition refused (H : Host) (fs : Files) (ft : string * string) : bool :=
  negb (existsSync fs (snd ft)) && existsSync fs (fst ft)
  && negb (copies H (fst ft) (snd ft)).

(** A machine like [h] on which the copy to [target] fails. *)
Definition withReadOnly (target : string) (h : Host) : Host :=
  {| answer := answer h; accept := accept h; exec := exec h;
     probe := probe h; appsDir := appsDir h; packagesDir := packagesDir h;
     manifest := manifest h;
     copies := fun _ to => negb (String.eqb to target) |}.

(** The computation [m], started on the files [fs], returns a value whose
    files are the ones that the copies and writes of its trace leave. *)
Definition lands {A} (fs : Files) (m : M A) (file : A -> Files) : Prop :=
  forall a, result m = Ok a -> written fs (events m) = file a.

(** No event of [m] copies or writes a key-value file. *)
Definition quiet {A} (m : M A) : Prop :=
  emitsOnly (fun e => envWrite e = false) m.

(** A fresh clone with the backend on a machine where the second copy, the
    one of the backend's template, fails. *)
Definition readOnlyBackendHost : Host :=
  withReadOnly "apps/api/.env" failedMigrationHost.

(** * Properties *)

(** ** Strings and objects *)

Lemma str_eqb_eq (a b : jsstring) : str_eqb a b = true <-> a = b.
Proof.
  revert b; induction a as [|x a IH]; intros [|y b]; simpl; split;
    try discriminate; try reflexivity.
  - rewrite andb_true_iff, N.eqb_eq, IH. intros [-> ->]; reflexivity.
  - intros E; injection E as -> ->.
    rewrite N.eqb_refl. simpl. apply IH. reflexivity.
Qed.

Lemma str_eqb_refl (a : jsstring) : str_eqb a a = true.
Proof. apply str_eqb_eq. reflexivity. Qed.

Lemma mem_In (k : jsstring) (l : list jsstring) : mem k l = true <-> In k l.
Proof.
  unfold mem. rewrite existsb_exists. split.
  - intros (x & Hin & E). apply str_eqb_eq in E. subst. exact Hin.
  - intros Hin. exists k. split; [exact Hin | apply str_eqb_refl].
Qed.

Lemma writeFile_same (fs : Files) (p : string) (c : jsstring) :
  writeFile fs p c p = Some c.
Proof. unfold writeFile. rewrite String.eqb_refl. reflexivity. Qed.

Lemma writeFile_other (fs : Files) (p q : string) (c : jsstring) :
  q <> p -> writeFile fs p c q = fs q.
Proof.
  intros Hne. unfold writeFile.
  destruct (String.eqb q p) eqn:E; [|reflexivity].
  apply String.eqb_eq in E. contradiction.
Qed.

(** ** The template differ *)




(** The callers never hand an absent target to the differ: they test
    [existsSync] first, and the database and mail stages then take every key
    of the template, inherited names included. *)
Lemma missingOrAll_absent_target (fs : Files) (examplePath envPath : string) :
  fs envPath = None ->
  missingOrAll fs examplePath envPath = keys (parseEnvFile fs examplePath).
Proof.
  intros Habs. unfold missingOrAll, existsSync. rewrite Habs. reflexivity.
Qed.




(** ** The merged write-back *)

(** C6.  Writing [{B: "2"}] into a file with the lines [# comment], [A=1],
    [B=old] writes back exactly [# comment], [A=1], [B=2]: the comment and
    the line of [A] are untouched, the line of [B] is replaced where it
    stands, and nothing is appended. *)
Theorem updateEnvFile_replaces_in_place (fs : Files) (path : string) :
  let before := writeFile fs path (text [ "# comment"; "A=1"; "B=old" ]%string) in
  let after := text [ "# comment"; "A=1"; "B=2" ]%string in
  updateEnvFile before path (literal [ (js "B", js "2") ]) false
  = ([ Wrote path after ], Ok (writeFile before path after)).
Proof.
  intros before after. unfold updateEnvFile, parseEnvFile.
  subst before. rewrite writeFile_same. reflexivity.
Qed.

Lemma updateStep_flag (onlyMissing : bool) (existingVars : Obj)
  (l : list (jsstring * jsstring)) (content : jsstring) (updated : bool) :
  snd (fold_left (updateStep onlyMissing existingVars) l (content, updated))
  = updated
    || existsb (fun kv => negb (skipped onlyMissing existingVars (fst kv))) l.
Proof.
  revert content updated.
  induction l as [|kv l IH]; intros content updated; cbn [fold_left existsb].
  - rewrite orb_false_r. reflexivity.
  - unfold updateStep at 2.
    destruct (skipped onlyMissing existingVars (fst kv)); cbn [negb fst snd].
    + rewrite IH. reflexivity.
    + rewrite IH. cbn [orb]. rewrite orb_true_r. reflexivity.
Qed.

Lemma updateEnvFile_unfold (fs : Files) (path : string) (content : jsstring)
  (replacements : Obj) (onlyMissing : bool) :
  fs path = Some content ->
  updateEnvFile fs path replacements onlyMissing
  = if applies onlyMissing (parseEnvFile fs path) replacements
    then (let c := merged onlyMissing (parseEnvFile fs path) replacements content
          in ([ Wrote path c ], Ok (writeFile fs path c)))
    else ([], Ok fs).
Proof.
  intros Hfile. unfold updateEnvFile. rewrite Hfile.
  unfold applies, merged.
  pose proof (updateStep_flag onlyMissing (parseEnvFile fs path)
                (entries replacements) content false) as Hflag.
  destruct (fold_left (updateStep onlyMissing (parseEnvFile fs path))
              (entries replacements) (content, false)) as [c updated].
  cbn [snd orb fst] in *. rewrite <- Hflag.
  destruct updated; reflexivity.
Qed.




(** Without [onlyMissing] every key is applied, so any non-empty update
    rewrites the file. *)
Lemma applies_overwrite (existingVars : Obj) (kv : jsstring * jsstring)
  (rest : Obj) :
  applies false existingVars (kv :: rest) = true.
Proof. reflexivity. Qed.

(** ** The derived trusted origins *)

Lemma originOf_resolved (p : Ports.t) (s : Subproject) :
  originOf (match s with
            | Backend => Ports.api p
            | FrontendSpa => Ports.webSpa p
            | FrontendSsr => Ports.webSsr p
            end)
  = match resolvedPort p s with
    | Some n => [ js "http://localhost:" ++ numToString n ]
    | None => []
    end.
Proof.
  unfold resolvedPort, originOf, localUrl.
  destruct s;
    match goal with
    | |- context [match ?f p with _ => _ end] => destruct (f p) as [[|[| |]]|]
    end; reflexivity.
Qed.

(** Only a detected application gets a port, so only detected subprojects
    contribute an origin. *)
Lemma portNeeds_detected (fs : Files) (apps : AvailableApps) :
  (api apps = false -> Ports.api (fst (portNeeds fs apps)) = None)
  /\ Ports.webSpa (fst (portNeeds fs apps)) = None
  /\ Ports.webSsr (fst (portNeeds fs apps)) = None.
Proof.
  unfold portNeeds.
  destruct (api apps), (webSpa apps), (webSsr apps);
    repeat match goal with
           | |- context [if mem ?a ?b then _ else _] => destruct (mem a b)
           | |- context [match (if ?c then _ else _) with _ => _ end] =>
               destruct c
           | |- context [match getMissingVariables ?a ?b ?c with _ => _ end] =>
               destruct (getMissingVariables a b c)
           end;
    cbn; repeat split; intros; try reflexivity; try discriminate.
Qed.

Lemma promptPortsConfig_detected (H : Host) (fs : Files) (apps : AvailableApps)
  (p : Ports.t) :
  snd (promptPortsConfig H fs apps) = Ok p ->
  (api apps = false -> Ports.api p = None)
  /\ (webSpa apps = false -> Ports.webSpa p = None)
  /\ (webSsr apps = false -> Ports.webSsr p = None).
Proof.
  unfold promptPortsConfig.
  pose proof (portNeeds_detected fs apps) as (Ha & Hb & Hc).
  destruct (portNeeds fs apps) as [ports needs]. cbn [fst] in *.
  destruct needs as [|need needs].
  - cbn. intros E. injection E as <-. auto.
  - unfold prompt.
    destruct (api apps), (webSpa apps), (webSsr apps); cbn [andb];
      repeat match goal with
             | |- context [if includes ?a ?b then _ else _] =>
                 destruct (includes a b)
             | |- context [answer H ?a ?b] => destruct (answer H a b)
             end;
      cbn; intros E; try discriminate E; injection E as <-; cbn;
      repeat split; intros; try discriminate; auto.
Qed.

(** The write-back stores the derived value under [TRUSTED_ORIGINS] of the
    backend. *)
Lemma apiUpdates_trustedOrigins (config : EnvConfig) (apiPort : number) :
  own (js "TRUSTED_ORIGINS") (apiUpdates config apiPort)
  = Some (trustedOrigins (ports config)).
Proof.
  unfold apiUpdates, whenPort.
  destruct (Ports.webSpa (ports config)) as [n|]; [destruct (numTruthy n)|];
    (destruct (Ports.webSsr (ports config)) as [n'|];
     [destruct (numTruthy n')|]);
    reflexivity.
Qed.

(** C7.  The trusted origins that the script derives, and stores for the
    backend, are the local URLs of the subprojects that have a resolved port,
    in the order backend, single-page frontend, server-rendered frontend,
    joined with commas; for the ports 3000 of the backend and 5173 of the
    single-page frontend alone the value is
    [http://localhost:3000,http://localhost:5173]. *)
Theorem trustedOrigins_order :
  (forall p, trustedOrigins p = deriveTrustedOrigins p)
  /\ (forall config apiPort,
        own (js "TRUSTED_ORIGINS") (apiUpdates config apiPort)
        = Some (deriveTrustedOrigins (ports config)))
  /\ trustedOrigins {| Ports.api := Some (Int 3000);
                       Ports.webSpa := Some (Int 5173);
                       Ports.webSsr := None |}
     = js "http://localhost:3000,http://localhost:5173".
Proof.
  assert (Hspec : forall p, trustedOrigins p = deriveTrustedOrigins p).
  { intros p. unfold trustedOrigins, deriveTrustedOrigins, origins.
    cbn [flat_map]. rewrite app_nil_r.
    pose proof (originOf_resolved p Backend) as Ha.
    pose proof (originOf_resolved p FrontendSpa) as Hb.
    pose proof (originOf_resolved p FrontendSsr) as Hc.
    cbv beta iota in Ha, Hb, Hc.
    rewrite Ha, Hb, Hc. reflexivity. }
  split; [exact Hspec|]. split; [|reflexivity].
  intros config apiPort. rewrite apiUpdates_trustedOrigins, Hspec. reflexivity.
Qed.

(** ** Computations *)

Lemma events_bind {A B} (m : M A) (f : A -> M B) :
  events (bind m f)
  = events m ++ match result m with
                | Ok a => events (f a)
                | Throw _ => []
                end.
Proof.
  destruct m as [t [a|e]]; cbn [bind events result fst snd].
  - destruct (f a) as [t' r]. reflexivity.
  - rewrite app_nil_r. reflexivity.
Qed.

Lemma result_bind {A B} (m : M A) (f : A -> M B) :
  result (bind m f)
  = match result m with
    | Ok a => result (f a)
    | Throw e => Throw e
    end.
Proof.
  destruct m as [t [a|e]]; cbn [bind events result fst snd].
  - destruct (f a) as [t' r]. reflexivity.
  - reflexivity.
Qed.

Lemma events_catch {A} (m : M A) (h : Exn -> M A) :
  events (catch m h)
  = events m ++ match result m with
                | Ok _ => []
                | Throw e => events (h e)
                end.
Proof.
  destruct m as [t [a|e]]; cbn [catch events result fst snd].
  - rewrite app_nil_r. reflexivity.
  - destruct (h e) as [t' r]. reflexivity.
Qed.

Lemma result_catch {A} (m : M A) (h : Exn -> M A) :
  result (catch m h)
  = match result m with
    | Ok a => Ok a
    | Throw e => result (h e)
    end.
Proof.
  destruct m as [t [a|e]]; cbn [catch events result fst snd].
  - reflexivity.
  - destruct (h e) as [t' r]. reflexivity.
Qed.

Lemma probes_app (t t' : list Event) : probes (t ++ t') = probes t ++ probes t'.
Proof. unfold probes. apply flat_map_app. Qed.

Lemma asked_app (t t' : list Event) : asked (t ++ t') = asked t ++ asked t'.
Proof. unfold asked. apply flat_map_app. Qed.

(** ** The readiness waiter *)

Lemma isReady_false (o : ProbeOutcome) :
  o <> ProbeClosed (Some 0%Z) -> isReady o = false.
Proof.
  intros Hne. destruct o as [| |[[|c|c]|]]; try reflexivity.
  exfalso. apply Hne. reflexivity.
Qed.

Lemma waitLoop_exhausts (H : Host) (maxRetries delayMs remaining i : nat) :
  (forall j, (i <= j < i + remaining)%nat -> isReady (probe H j) = false) ->
  result (waitLoop H maxRetries delayMs remaining i) = Ok false
  /\ probes (events (waitLoop H maxRetries delayMs remaining i))
     = seq i remaining.
Proof.
  revert i. induction remaining as [|remaining IH]; intros i Hnot.
  - split; reflexivity.
  - cbn [waitLoop].
    rewrite (Hnot i) by lia.
    destruct (IH (S i)) as [IHr IHp]; [intros j Hj; apply Hnot; lia|].
    split.
    + repeat (rewrite result_bind; cbn [emit result snd]). exact IHr.
    + repeat (rewrite events_bind; cbn [emit events result fst snd]).
      cbn [app probes flat_map seq].
      change (flat_map _ ?t) with (probes t). rewrite IHp. reflexivity.
Qed.

(** The waiter always returns: no outcome of the probe makes it throw. *)
Lemma waitLoop_returns (H : Host) (maxRetries delayMs remaining i : nat) :
  exists ready, result (waitLoop H maxRetries delayMs remaining i) = Ok ready.
Proof.
  revert i. induction remaining as [|remaining IH]; intros i.
  - exists false. reflexivity.
  - cbn [waitLoop]. rewrite result_bind. cbn [emit result snd].
    destruct (isReady (probe H i)).
    + exists true. reflexivity.
    + destruct (IH (S i)) as [ready Hr]. exists ready.
      repeat (rewrite result_bind; cbn [emit result snd]). exact Hr.
Qed.

(** It returns [true] as soon as one of the attempts it can make finds the
    database ready. *)
Lemma waitLoop_ready (H : Host) (maxRetries delayMs remaining i k : nat) :
  (k < remaining)%nat -> isReady (probe H (i + k)) = true ->
  result (waitLoop H maxRetries delayMs remaining i) = Ok true.
Proof.
  revert i k. induction remaining as [|remaining IH]; intros i k Hk Hready;
    [lia|].
  cbn [waitLoop]. rewrite result_bind. cbn [emit result snd].
  destruct (isReady (probe H i)) eqn:Hi; [reflexivity|].
  repeat (rewrite result_bind; cbn [emit result snd]).
  destruct k as [|k]; [rewrite Nat.add_0_r in Hready; congruence|].
  apply (IH (S i) k); [lia|].
  replace (S i + k)%nat with (i + S k)%nat by lia. exact Hready.
Qed.

Lemma waitForDatabase_result (H : Host) (maxRetries delayMs : nat) :
  result (waitForDatabase H maxRetries delayMs)
  = result (waitLoop H maxRetries delayMs maxRetries 0).
Proof. unfold waitForDatabase. rewrite result_bind. reflexivity. Qed.

(** C8.  When none of the attempts reports the database ready (an attempt
    whose probe cannot be launched counts among them), the waiter makes
    exactly [maxRetries] attempts, numbered from 0, and returns [false]
    without throwing. *)
Theorem waitForDatabase_exhausts (H : Host) (maxRetries delayMs : nat) :
  (1 <= maxRetries)%nat ->
  (forall i, (i < maxRetries)%nat -> probe H i <> ProbeClosed (Some 0%Z)) ->
  result (waitForDatabase H maxRetries delayMs) = Ok false
  /\ probes (events (waitForDatabase H maxRetries delayMs)) = seq 0 maxRetries
  /\ List.length (probes (events (waitForDatabase H maxRetries delayMs)))
     = maxRetries.
Proof.
  intros _ Hnot.
  destruct (waitLoop_exhausts H maxRetries delayMs maxRetries 0) as [Hr Hp].
  { intros j Hj. apply isReady_false. apply Hnot. lia. }
  assert (Hprobes : probes (events (waitForDatabase H maxRetries delayMs))
                    = seq 0 maxRetries).
  { unfold waitForDatabase. rewrite events_bind. cbn [say emit events result fst snd].
    cbn [app probes flat_map]. exact Hp. }
  rewrite waitForDatabase_result, Hprobes, length_seq. auto.
Qed.

Lemma waitForDatabase_exhausts_witness :
  (forall i, (i < 3)%nat -> probe noDockerHost i <> ProbeClosed (Some 0%Z))
  /\ result (waitForDatabase noDockerHost 3 10) = Ok false
  /\ probes (events (waitForDatabase noDockerHost 3 10)) = [ 0; 1; 2 ]%nat
  /\ List.length (probes (events (waitForDatabase noDockerHost 3 10))) = 3%nat.
Proof.
  assert (Hnever : forall i, (i < 3)%nat ->
                             probe noDockerHost i <> ProbeClosed (Some 0%Z))
    by (intros i _; discriminate).
  split; [exact Hnever|].
  apply (waitForDatabase_exhausts noDockerHost 3 10); [lia | exact Hnever].
Defined.

(** ** The application detector *)

Lemma directoriesOf_listable (dir : string) (items : list (string * StatResult)) :
  (forall item, ~ In (item, StatFails) items) ->
  directoriesOf dir items = ([], Ok (directoryNames items)).
Proof.
  induction items as [|[item st] items IH]; intros Hstat; [reflexivity|].
  cbn [directoriesOf directoryNames flat_map fst snd].
  assert (IH' : directoriesOf dir items = ([], Ok (directoryNames items))).
  { apply IH. intros it Hin. apply (Hstat it). right. exact Hin. }
  destruct st.
  - rewrite IH'. reflexivity.
  - rewrite IH'. reflexivity.
  - exfalso. apply (Hstat item). left. reflexivity.
Qed.

(** The first item that [statSync] cannot open makes the listing throw. *)
Lemma directoriesOf_throws (dir : string) (items : list (string * StatResult)) :
  (exists item, In (item, StatFails) items) ->
  exists e, result (directoriesOf dir items) = Throw e.
Proof.
  induction items as [|[item st] items IH]; intros [it Hin]; [destruct Hin|].
  cbn [directoriesOf]. destruct st.
  - destruct Hin as [E|Hin]; [discriminate|].
    destruct IH as [e He]; [exists it; exact Hin|].
    exists e. rewrite result_bind, He. reflexivity.
  - destruct Hin as [E|Hin]; [discriminate|].
    apply IH. exists it. exact Hin.
  - eexists. reflexivity.
Qed.

(** C4, as the code has it.  When each of the two root directories is
    either absent or can be listed with every item open to [statSync], the
    detection returns a value without any effect; the flags of an absent
    root are all false. *)
Theorem detectAvailableApps_listable (H : Host) :
  listable (appsDir H) -> listable (packagesDir H) ->
  exists apps,
    detectAvailableApps H = ([], Ok apps)
    /\ (appsDir H = Absent ->
        api apps = false /\ webSpa apps = false /\ webSsr apps = false)
    /\ (packagesDir H = Absent -> openapiGenerator apps = false).
Proof.
  intros Happs Hpackages. unfold detectAvailableApps.
  destruct (appsDir H) as [| |appItems]; [|destruct Happs|];
    destruct (packagesDir H) as [| |packageItems];
    try destruct Hpackages;
    cbn [dirExists readDirectories listable] in *;
    repeat match goal with
           | Hl : forall item, ~ In (item, StatFails) ?items |- _ =>
               rewrite (directoriesOf_listable _ items Hl); clear Hl
           end;
    cbn [bind ret app];
    eexists; (split; [reflexivity|]); cbn [api webSpa webSsr openapiGenerator];
    split; intros E; try discriminate E; auto.
Qed.

Lemma detectAvailableApps_listable_witness :
  exists apps,
    detectAvailableApps backendOnlyHost = ([], Ok apps)
    /\ (appsDir backendOnlyHost = Absent ->
        api apps = false /\ webSpa apps = false /\ webSsr apps = false)
    /\ (packagesDir backendOnlyHost = Absent -> openapiGenerator apps = false).
Proof.
  apply (detectAvailableApps_listable backendOnlyHost).
  - simpl. intros item [E|[E|[]]]; discriminate.
  - simpl. exact I.
Defined.

(** The flags of a listed root tell which of the expected names are
    directories in it. *)
Lemma detectAvailableApps_flags (H : Host)
  (appItems packageItems : list (string * StatResult)) :
  appsDir H = Listing appItems -> packagesDir H = Listing packageItems ->
  listable (appsDir H) -> listable (packagesDir H) ->
  detectAvailableApps H
  = ([], Ok {| api := includes "api" (directoryNames appItems);
               webSpa := includes "web-spa" (directoryNames appItems);
               webSsr := includes "web-ssr" (directoryNames appItems);
               openapiGenerator :=
                 includes "openapi-generator" (directoryNames packageItems) |}).
Proof.
  intros Ea Ep Ha Hp. unfold detectAvailableApps.
  rewrite Ea, Ep in *. cbn [dirExists readDirectories listable] in *.
  rewrite (directoriesOf_listable _ _ Ha), (directoriesOf_listable _ _ Hp).
  reflexivity.
Qed.

(** C4, as stated, fails: an [apps] path that exists and cannot be listed
    makes the detection throw, and the run ends in the fatal handler with
    exit code 1. *)
Lemma detectAvailableApps_throws_on_unreadable_root :
  detectAvailableApps unreadableAppsHost = ([], Throw (FsError "apps"))
  /\ exitCode (main unreadableAppsHost noFiles) = 1%Z.
Proof. split; reflexivity. Qed.

Lemma detectAvailableApps_throws_on_dangling_link :
  detectAvailableApps danglingLinkHost = ([], Throw (FsError "packages/stale")).
Proof. reflexivity. Qed.

(** ** The write-back stages never throw *)

Lemma updateEnvFile_returns (fs : Files) (path : string) (replacements : Obj)
  (onlyMissing : bool) :
  exists fs', result (updateEnvFile fs path replacements onlyMissing) = Ok fs'.
Proof.
  unfold updateEnvFile. destruct (fs path) as [content|].
  - destruct (fold_left _ _ _) as [c [|]]; eexists; reflexivity.
  - eexists. reflexivity.
Qed.

Lemma updateAllEnvFiles_returns (fs : Files) (config : EnvConfig)
  (apps : AvailableApps) :
  exists fs', result (updateAllEnvFiles fs config apps) = Ok fs'.
Proof.
  assert (Hwhen : forall fs available port path f,
             exists fs', result (updateWhen fs available port path f) = Ok fs').
  { intros fs0 available port path f. unfold updateWhen.
    destruct port as [n|]; [destruct (available && numTruthy n)%bool|];
      try (eexists; reflexivity).
    apply updateEnvFile_returns. }
  unfold updateAllEnvFiles. rewrite result_bind. cbn [say emit result snd].
  rewrite result_bind.
  assert (Hroot : exists fs1,
             result (match keys (rootUpdates config) with
                     | [] => ret fs
                     | _ :: _ => updateEnvFile fs ".env" (rootUpdates config)
                                               false
                     end) = Ok fs1).
  { destruct (keys (rootUpdates config));
      [eexists; reflexivity|apply updateEnvFile_returns]. }
  destruct Hroot as [fs1 ->].
  repeat (rewrite result_bind;
          match goal with
          | |- context [result (updateWhen ?a ?b ?c ?d ?e)] =>
              let fs' := fresh "fs" in
              let E := fresh "E" in
              destruct (Hwhen a b c d e) as [fs' E]; rewrite E
          end).
  eexists. rewrite result_bind. reflexivity.
Qed.

(** ** The optional steps *)

Lemma endsWith_refl (l : list Event) : endsWith l l.
Proof. exists []. reflexivity. Qed.

Lemma endsWith_cons (tail l : list Event) (e : Event) :
  endsWith tail l -> endsWith tail (e :: l).
Proof. intros [before ->]. exists (e :: before). reflexivity. Qed.

Lemma endsWith_app (tail l l' : list Event) :
  endsWith tail l -> endsWith tail (l' ++ l).
Proof.
  intros [before ->]. exists (l' ++ before). rewrite app_assoc. reflexivity.
Qed.

Ltac ends_with :=
  repeat first [ apply endsWith_refl | apply endsWith_cons
               | apply endsWith_app ].

Lemma optionalSteps_failed_migration (H : Host) (apps : AvailableApps) :
  api apps = true ->
  accept H "Start Docker services (database, maildev)?" = Some true ->
  exec H "pnpm" [ "docker:up" ]%string = Exited (Some 0%Z) ->
  (exists k, (k < 30)%nat /\ probe H k = ProbeClosed (Some 0%Z)) ->
  accept H "Run database migrations?" = Some true ->
  exec H "pnpm" [ "--filter=api"; "db:migrate:up" ]%string
  <> Exited (Some 0%Z) ->
  result (optionalSteps H apps) = Ok tt
  /\ exists error,
       endsWith (afterFailedMigration error) (events (optionalSteps H apps)).
Proof.
  intros Hapi Hdocker Hup [k [Hk Hready]] Hmig Hfail.
  assert (Hw : result (waitForDatabase H 30 1000) = Ok true).
  { rewrite waitForDatabase_result.
    apply (waitLoop_ready H 30 1000 30 0 k Hk).
    cbn [Nat.add]. rewrite Hready. reflexivity. }
  unfold optionalSteps, afterDockerUp, runMigrations, confirm, runCommand.
  rewrite Hdocker, Hup, Hmig, Hapi.
  destruct (waitForDatabase H 30 1000) as [tw rw].
  cbn [result snd] in Hw. subst rw.
  destruct (exec H "pnpm" [ "--filter=api"; "db:migrate:up" ]%string)
    as [[[|c|c]|]|] eqn:E; [congruence| | | |];
    (split; [reflexivity|]); eexists; cbn -[js];
    rewrite <- ?app_assoc; cbn -[js]; ends_with.
Qed.

(** A run exits with code 0 exactly when neither part of [main] throws. *)
Lemma main_exitCode (H : Host) (fs : Files) :
  exitCode (main H fs) = 0%Z
  <-> exists apps fs',
        result (configure H fs) = Ok (apps, fs')
        /\ result (optionalSteps H apps) = Ok tt.
Proof.
  unfold main.
  destruct (configure H fs) as [t [[apps fs']|e]]; cbn [result snd].
  - destruct (optionalSteps H apps) as [t' [[]|e]] eqn:E; cbn [exitCode].
    + split; [|reflexivity]. intros _. exists apps, fs'.
      rewrite E. split; reflexivity.
    + split; [discriminate|].
      intros (apps' & fs'' & Hc & Ho). injection Hc as <- <-.
      rewrite E in Ho. discriminate Ho.
  - cbn [exitCode]. split; [discriminate|]. intros (? & ? & Hc & _).
    discriminate Hc.
Qed.

(** C9.  In a run that gets as far as the migration step with the user
    accepting it, a migration command that does not exit with status 0 is
    caught: the failure and the manual command are printed, the run goes on
    to its last line and exits with code 0, the files being those of the
    write-back. *)
Theorem migration_failure_is_not_fatal (H : Host) (fs fs' : Files)
  (apps : AvailableApps) :
  result (configure H fs) = Ok (apps, fs') ->
  api apps = true ->
  accept H "Start Docker services (database, maildev)?" = Some true ->
  exec H "pnpm" [ "docker:up" ]%string = Exited (Some 0%Z) ->
  (exists k, (k < 30)%nat /\ probe H k = ProbeClosed (Some 0%Z)) ->
  accept H "Run database migrations?" = Some true ->
  exec H "pnpm" [ "--filter=api"; "db:migrate:up" ]%string
  <> Exited (Some 0%Z) ->
  exitCode (main H fs) = 0%Z
  /\ files (main H fs) = fs'
  /\ exists error, endsWith (afterFailedMigration error) (trace (main H fs)).
Proof.
  intros Hconf Hapi Hdocker Hup Hready Hmig Hfail.
  destruct (optionalSteps_failed_migration H apps Hapi Hdocker Hup Hready
              Hmig Hfail) as [Hres [error Hends]].
  unfold main.
  destruct (configure H fs) as [t r]. cbn [result snd] in Hconf. subst r.
  destruct (optionalSteps H apps) as [t' r'].
  cbn [result events fst snd] in Hres, Hends. subst r'.
  cbn [exitCode files trace]. repeat split.
  exists error. apply endsWith_cons, endsWith_app. exact Hends.
Qed.

Lemma migration_failure_is_not_fatal_witness :
  exec failedMigrationHost "pnpm" [ "--filter=api"; "db:migrate:up" ]%string
  = Exited (Some 1%Z)
  /\ exitCode (main failedMigrationHost freshBackendFiles) = 0%Z
  /\ exists error,
       endsWith (afterFailedMigration error)
                (trace (main failedMigrationHost freshBackendFiles)).
Proof.
  split; [reflexivity|].
  destruct (migration_failure_is_not_fatal failedMigrationHost
              freshBackendFiles
              (files (main failedMigrationHost freshBackendFiles))
              {| api := true; webSpa := false; webSsr := false;
                 openapiGenerator := false |})
    as (Hcode & _ & Hends).
  - vm_compute. reflexivity.
  - reflexivity.
  - reflexivity.
  - reflexivity.
  - exists 2%nat. split; [lia | reflexivity].
  - reflexivity.
  - vm_compute. discriminate.
  - split; [exact Hcode | exact Hends].
Defined.

(** ** Which questions a run asks *)

Lemma asksOnly_weaken {A} (P Q : string -> Prop) (m : M A) :
  (forall message, P message -> Q message) -> asksOnly P m -> asksOnly Q m.
Proof. intros HPQ Hm message Hin. apply HPQ, Hm, Hin. Qed.

Lemma asksOnly_ret {A} (P : string -> Prop) (a : A) : asksOnly P (ret a).
Proof. intros message []. Qed.

Lemma asksOnly_throw {A} (P : string -> Prop) (e : Exn) :
  asksOnly P (@throw A e).
Proof. intros message []. Qed.

Lemma asksOnly_emit (P : string -> Prop) (e : Event) :
  asked [ e ] = [] -> asksOnly P (emit e).
Proof. intros He message Hin. cbn [emit events fst] in Hin. rewrite He in Hin. destruct Hin. Qed.

Lemma asksOnly_say (P : string -> Prop) (line : string) : asksOnly P (say line).
Proof. apply asksOnly_emit. reflexivity. Qed.

Lemma asksOnly_bind {A B} (P : string -> Prop) (m : M A) (f : A -> M B) :
  asksOnly P m -> (forall a, asksOnly P (f a)) -> asksOnly P (bind m f).
Proof.
  intros Hm Hf message Hin. rewrite events_bind, asked_app in Hin.
  apply in_app_or in Hin. destruct Hin as [Hin|Hin]; [apply Hm, Hin|].
  destruct (result m) as [a|e]; [apply (Hf a), Hin|destruct Hin].
Qed.

Lemma asksOnly_catch {A} (P : string -> Prop) (m : M A) (h : Exn -> M A) :
  asksOnly P m -> (forall e, asksOnly P (h e)) -> asksOnly P (catch m h).
Proof.
  intros Hm Hh message Hin. rewrite events_catch, asked_app in Hin.
  apply in_app_or in Hin. destruct Hin as [Hin|Hin]; [apply Hm, Hin|].
  destruct (result m) as [a|e]; [destruct Hin|apply (Hh e), Hin].
Qed.

Lemma asksOnly_prompt (H : Host) (P : string -> Prop) (message : string)
  (initial : jsstring) :
  P message -> asksOnly P (prompt H message initial).
Proof.
  intros HP m Hin. unfold prompt in Hin.
  rewrite events_bind, asked_app in Hin. cbn [emit events result fst snd] in Hin.
  apply in_app_or in Hin. destruct Hin as [[<-|[]]|Hin]; [exact HP|].
  destruct (answer H message initial); destruct Hin.
Qed.

(** One step of the traversal of a computation. *)
Ltac asks_step :=
  match goal with
  | |- asksOnly _ (bind _ _) => apply asksOnly_bind; [|intros]
  | |- asksOnly _ (catch _ _) => apply asksOnly_catch; [|intros]
  | |- asksOnly _ (ret _) => apply asksOnly_ret
  | |- asksOnly _ (throw _) => apply asksOnly_throw
  | |- asksOnly _ (say _) => apply asksOnly_say
  | |- asksOnly _ (emit _) => apply asksOnly_emit; reflexivity
  | |- asksOnly _ (if ?c then _ else _) => destruct c eqn:?
  | |- asksOnly _ (match ?x with _ => _ end) => destruct x eqn:?
  end.

Ltac asks := repeat asks_step.

Lemma silent_asksOnly {A} (P : string -> Prop) (m : M A) :
  silent m -> asksOnly P m.
Proof. apply asksOnly_weaken. intros message []. Qed.

Lemma confirm_silent (H : Host) (message : string) : silent (confirm H message).
Proof. unfold silent, confirm. asks. Qed.

Lemma runCommand_silent (H : Host) (command : string) (args : list string) :
  silent (runCommand H command args).
Proof. unfold silent, runCommand. asks. Qed.

Lemma waitLoop_silent (H : Host) (maxRetries delayMs remaining i : nat) :
  silent (waitLoop H maxRetries delayMs remaining i).
Proof.
  revert i. induction remaining as [|remaining IH]; intros i; unfold silent;
    cbn [waitLoop]; asks. apply IH.
Qed.

Lemma waitForDatabase_silent (H : Host) (maxRetries delayMs : nat) :
  silent (waitForDatabase H maxRetries delayMs).
Proof. unfold silent, waitForDatabase. asks. apply waitLoop_silent. Qed.

Lemma directoriesOf_silent (dir : string) (items : list (string * StatResult)) :
  silent (directoriesOf dir items).
Proof.
  induction items as [|[item st] items IH]; unfold silent;
    cbn [directoriesOf]; asks; apply IH.
Qed.

Lemma detectAvailableApps_silent (H : Host) : silent (detectAvailableApps H).
Proof.
  unfold silent, detectAvailableApps, readDirectories.
  asks; apply directoriesOf_silent.
Qed.

Lemma updateManifests_silent (H : Host) (newPrefix : jsstring)
  (l : list (string * string * bool)) :
  silent (updateManifests H newPrefix l).
Proof.
  induction l as [|[[path name] condition] l IH]; unfold silent;
    cbn [updateManifests]; [asks|].
  unfold updateManifest. asks. apply IH.
Qed.

Lemma renameProjects_silent (H : Host) (projectName : jsstring)
  (apps : AvailableApps) :
  silent (renameProjects H projectName apps).
Proof.
  unfold silent, renameProjects. asks;
    first [apply updateManifests_silent | apply runCommand_silent].
Qed.

Lemma updateEnvFile_silent (fs : Files) (path : string) (replacements : Obj)
  (onlyMissing : bool) :
  silent (updateEnvFile fs path replacements onlyMissing).
Proof.
  unfold silent, updateEnvFile.
  destruct (fs path); [|asks].
  destruct (fold_left _ _ _) as [content updated]. asks.
Qed.

Lemma copyLoop_silent (H : Host) (fs : Files) (infos : list EnvFileInfo) :
  silent (copyLoop H fs infos).
Proof.
  revert fs. induction infos as [|info infos IH]; intros fs; unfold silent;
    cbn [copyLoop]; [asks|].
  apply asksOnly_bind; [unfold copyEnvFile; asks|intros fs'; apply IH].
Qed.

Lemma copyEnvFiles_silent (H : Host) (fs : Files) (infos : list EnvFileInfo) :
  silent (copyEnvFiles H fs infos).
Proof. unfold silent, copyEnvFiles. asks. apply copyLoop_silent. Qed.

Lemma updateAllEnvFiles_silent (fs : Files) (config : EnvConfig)
  (apps : AvailableApps) :
  silent (updateAllEnvFiles fs config apps).
Proof.
  unfold silent, updateAllEnvFiles, updateWhen.
  asks; apply updateEnvFile_silent.
Qed.

Lemma optionalSteps_silent (H : Host) (apps : AvailableApps) :
  silent (optionalSteps H apps).
Proof.
  unfold silent, optionalSteps, afterDockerUp, runMigrations, dockerFailed.
  asks;
    first [ apply confirm_silent | apply runCommand_silent
          | apply waitForDatabase_silent ].
Qed.

(** A key that the target file holds with a non-empty value is not among
    the missing ones. *)
Lemma holds_not_missing (fs : Files) (examplePath envPath : string)
  (key : jsstring) :
  holds fs envPath key = true ->
  mem key (missingOrAll fs examplePath envPath) = false.
Proof.
  unfold holds, missingOrAll, existsSync. intros Hholds.
  destruct (fs envPath) as [content|] eqn:Efile.
  - destruct (mem key (getMissingVariables fs examplePath envPath)) eqn:E;
      [|reflexivity].
    apply mem_In in E. unfold getMissingVariables in E.
    apply filter_In in E. destruct E as [_ E].
    unfold isMissing, has, get in E.
    destruct (own key (parseEnvFile fs envPath)) as [[|c v]|];
      discriminate.
  - unfold parseEnvFile in Hholds. rewrite Efile in Hholds. discriminate.
Qed.

Lemma promptIfMissing_asks (H : Host) (missing : list jsstring)
  (existingVars exampleVars : Obj) (key message : string) (fallback : jsstring) :
  asksOnly (fun m => m = message /\ mem (js key) missing = true)
           (promptIfMissing H missing existingVars exampleVars key message
                            fallback).
Proof.
  unfold promptIfMissing. destruct (mem (js key) missing) eqn:E.
  - apply asksOnly_prompt. split; reflexivity.
  - apply asksOnly_ret.
Qed.

Ltac in_table := cbn [In keyQuestions]; repeat first [ left; reflexivity | right ].

Ltac asks_if_missing :=
  eapply asksOnly_weaken; [|apply promptIfMissing_asks];
  let m := fresh "m" in
  let Hm := fresh "Hm" in
  intros m [-> Hm]; try left;
  eexists _, _, _; split; [|exact Hm]; in_table.

Lemma promptDatabaseConfig_asks (H : Host) (fs : Files) :
  asksOnly (asksForMissing fs) (promptDatabaseConfig H fs).
Proof.
  unfold promptDatabaseConfig.
  destruct (negb _); asks; asks_if_missing.
Qed.

Lemma promptSmtpConfig_asks (H : Host) (fs : Files) :
  asksOnly (asksForMissing fs) (promptSmtpConfig H fs).
Proof.
  unfold promptSmtpConfig.
  destruct (negb _); asks; asks_if_missing.
Qed.

(** The API is listed as needing a port only when [API_PORT] is missing
    from its target file. *)
Lemma portNeeds_API (fs : Files) (apps : AvailableApps) :
  includes "API" (snd (portNeeds fs apps)) = true ->
  mem (js "API_PORT")
      (missingOrAll fs "apps/api/.env.example" "apps/api/.env") = true.
Proof.
  unfold portNeeds.
  destruct (mem (js "API_PORT")
              (missingOrAll fs "apps/api/.env.example" "apps/api/.env"));
    [reflexivity|].
  destruct (api apps), (webSpa apps), (webSsr apps);
    repeat match goal with
           | |- context [match (if ?c then _ else _) with _ => _ end] =>
               destruct c
           | |- context [match getMissingVariables ?a ?b ?c with _ => _ end] =>
               destruct (getMissingVariables a b c)
           end;
    cbn; intros E; discriminate E.
Qed.

Lemma promptPortsConfig_asks (H : Host) (fs : Files) (apps : AvailableApps) :
  asksOnly (fun m => asksForMissing fs m
                     \/ m = "Web SPA port"%string \/ m = "Web SSR port"%string)
           (promptPortsConfig H fs apps).
Proof.
  unfold promptPortsConfig.
  destruct (portNeeds fs apps) as [ports needs] eqn:Eneeds.
  destruct needs as [|need needs]; asks;
    try (apply asksOnly_prompt; auto; fail).
  apply asksOnly_prompt. left.
  exists "API_PORT"%string, "apps/api/.env.example"%string,
    "apps/api/.env"%string.
  split; [in_table|].
  apply (portNeeds_API fs apps). rewrite Eneeds. cbn [snd].
  match goal with
  | E : (_ && _)%bool = true |- _ => apply andb_true_iff in E; apply E
  end.
Qed.

Lemma configure_asks (H : Host) (fs : Files) :
  asksOnly (fun m => m = "Project name"%string \/ asksForMissing fs m
                     \/ m = "Web SPA port"%string \/ m = "Web SSR port"%string)
           (configure H fs).
Proof.
  unfold configure, sayWhen. asks;
    first [ apply silent_asksOnly;
            first [ apply detectAvailableApps_silent
                  | apply renameProjects_silent
                  | apply copyEnvFiles_silent
                  | apply updateAllEnvFiles_silent ]
          | apply asksOnly_prompt; left; reflexivity
          | eapply asksOnly_weaken;
            [|first [ apply promptDatabaseConfig_asks
                    | apply promptSmtpConfig_asks ]];
            intros; right; left; assumption
          | eapply asksOnly_weaken; [|apply promptPortsConfig_asks];
            intros m [Hm|Hm]; right; [left|right]; assumption ].
Qed.

(** The questions of a whole run. *)
Lemma main_asks (H : Host) (fs : Files) (message : string) :
  In message (asked (trace (main H fs))) ->
  message = "Project name"%string \/ asksForMissing fs message
  \/ message = "Web SPA port"%string \/ message = "Web SSR port"%string.
Proof.
  intros Hin.
  assert (Hsplit : In message (asked (events (configure H fs)))
                   \/ exists apps,
                        In message (asked (events (optionalSteps H apps)))).
  { unfold main in Hin.
    destruct (configure H fs) as [t [[apps fs']|e]]; cbn [events fst].
    - destruct (optionalSteps H apps) as [t' [u|e]] eqn:Eo;
        cbn [trace] in Hin;
        change (?x :: ?l) with ([x] ++ l) in Hin;
        rewrite ?asked_app in Hin; cbn [asked flat_map app] in Hin;
        repeat (apply in_app_or in Hin; destruct Hin as [Hin|Hin]);
        try (left; exact Hin); try (destruct Hin; fail);
        right; exists apps; rewrite Eo; exact Hin.
    - cbn [trace] in Hin.
      change (?x :: ?l) with ([x] ++ l) in Hin.
      rewrite ?asked_app in Hin. cbn [asked flat_map app] in Hin.
      apply in_app_or in Hin. destruct Hin as [Hin|Hin];
        [left; exact Hin|destruct Hin]. }
  destruct Hsplit as [Hc|[apps Ho]].
  - apply (configure_asks H fs message Hc).
  - destruct (optionalSteps_silent H apps message Ho).
Qed.

Lemma keyQuestions_functional (message key key' path path' : string) :
  In (message, key, path) keyQuestions ->
  In (message, key', path') keyQuestions ->
  key = key' /\ path = path'.
Proof.
  cbn [In keyQuestions]. intros H1 H2.
  repeat match goal with
         | H : _ \/ _ |- _ => destruct H as [H|H]
         | H : False |- _ => destruct H
         end;
    inversion H1; subst; inversion H2; subst; split; reflexivity.
Qed.

(** C1, as the code has it.  For each key that a question of the run
    stands for (the five database keys and the two SMTP keys in the root
    target file, [API_PORT] in the target file of the backend): when that
    target file holds the key with a non-empty value at the start of the
    run, the run never asks the question of the key. *)
Theorem set_key_is_not_asked (H : Host) (fs : Files)
  (message key path : string) :
  In (message, key, path) keyQuestions ->
  holds fs path (js key) = true ->
  ~ In message (asked (trace (main H fs))).
Proof.
  intros Hq Hholds Hin. apply main_asks in Hin.
  destruct Hin as [E|[(key' & examplePath & path' & Hq' & Hmissing)|[E|E]]].
  - subst message. cbn [In keyQuestions] in Hq.
    repeat destruct Hq as [Hq|Hq]; try discriminate Hq. destruct Hq.
  - destruct (keyQuestions_functional _ _ _ _ _ Hq Hq') as [<- <-].
    rewrite (holds_not_missing fs examplePath path (js key) Hholds) in Hmissing.
    discriminate Hmissing.
  - subst message. cbn [In keyQuestions] in Hq.
    repeat destruct Hq as [Hq|Hq]; try discriminate Hq. destruct Hq.
  - subst message. cbn [In keyQuestions] in Hq.
    repeat destruct Hq as [Hq|Hq]; try discriminate Hq. destruct Hq.
Qed.

Lemma set_key_is_not_asked_witness :
  In ("Database user", "DATABASE_USER", ".env")%string keyQuestions
  /\ holds configuredRootFiles ".env" (js "DATABASE_USER") = true
  /\ ~ In "Database user"%string
          (asked (trace (main quietHost configuredRootFiles))).
Proof.
  assert (Hq : In ("Database user", "DATABASE_USER", ".env")%string
                  keyQuestions) by (simpl; auto).
  assert (Hh : holds configuredRootFiles ".env" (js "DATABASE_USER") = true)
    by reflexivity.
  exact (conj Hq (conj Hh (set_key_is_not_asked quietHost configuredRootFiles
                             _ _ _ Hq Hh))).
Defined.

(** C1, as stated, fails.  The backend's target file holds [DATABASE_USER]
    and the frontend's target file holds [VITE_PORT], both with non-empty
    values, and the run still asks for the database user (the root target
    file decides that question) and for the frontend's port (any missing key
    of the frontend's template brings that question up). *)
Lemma set_key_is_asked_again :
  holds partlyConfiguredFiles "apps/api/.env" (js "DATABASE_USER") = true
  /\ holds partlyConfiguredFiles "apps/web-spa/.env" (js "VITE_PORT") = true
  /\ asked (trace (main backendAndSpaHost partlyConfiguredFiles))
     = [ "Project name"; "Database user"; "Web SPA port" ]%string.
Proof. repeat split; vm_compute; reflexivity. Qed.

(** ** Two runs in succession *)

(** C3.  On a fresh clone whose templates name the database host, the user
    types [db.internal] for the host in the first run.  The second run asks
    nothing but the project name, reads the host from the root target file,
    which the first run left at the template's value, and overwrites the host
    in the backend's target file. *)
Theorem second_run_overwrites_database_host :
  exitCode firstRun = 0%Z /\ exitCode secondRun = 0%Z
  /\ asked (trace firstRun)
     = [ "Project name"; "Database host"; "API port" ]%string
  /\ asked (trace secondRun) = [ "Project name" ]%string
  /\ files firstRun "apps/api/.env"%string
     = Some (text [ "API_PORT=3000"; "DATABASE_HOST=db.internal";
                    "DATABASE_USER=postgres"; "DATABASE_PASSWORD=postgres";
                    "DATABASE_NAME=lonestone_test"; "DATABASE_PORT=5111";
                    "TRUSTED_ORIGINS=http://localhost:3000" ]%string)
  /\ files secondRun "apps/api/.env"%string
     = Some (text [ "API_PORT=3000"; "DATABASE_HOST=localhost";
                    "DATABASE_USER=postgres"; "DATABASE_PASSWORD=postgres";
                    "DATABASE_NAME=lonestone_test"; "DATABASE_PORT=5111";
                    "TRUSTED_ORIGINS=http://localhost:3000" ]%string).
Proof. repeat split; vm_compute; reflexivity. Qed.

(** A second way in which two runs differ: the question of the frontend's
    port comes up in the second run only, once the target file exists and a
    template value is empty, and its answer changes the trusted origins. *)
Lemma second_run_asks_frontend_port :
  asked (trace firstDefaultRun) = [ "Project name"; "API port" ]%string
  /\ asked (trace secondDefaultRun)
     = [ "Project name"; "Web SPA port" ]%string
  /\ files firstDefaultRun "apps/api/.env"%string
     <> files secondDefaultRun "apps/api/.env"%string.
Proof. repeat split; vm_compute; try reflexivity; discriminate. Qed.

(** * Further properties of the script *)

(** ** The readiness waiter: pauses and early success *)

Lemma sleeps_app (t t' : list Event) : sleeps (t ++ t') = sleeps t ++ sleeps t'.
Proof. unfold sleeps. apply flat_map_app. Qed.

Lemma waitLoop_ready_at (H : Host) (maxRetries delayMs remaining i k : nat) :
  (k < remaining)%nat ->
  isReady (probe H (i + k)) = true ->
  (forall j, (i <= j < i + k)%nat -> isReady (probe H j) = false) ->
  result (waitLoop H maxRetries delayMs remaining i) = Ok true
  /\ probes (events (waitLoop H maxRetries delayMs remaining i)) = seq i (S k)
  /\ sleeps (events (waitLoop H maxRetries delayMs remaining i))
     = repeat delayMs k.
Proof.
  revert i k. induction remaining as [|remaining IH]; intros i k Hk Hready Hnot;
    [lia|].
  cbn [waitLoop]. destruct k as [|k].
  - rewrite Nat.add_0_r in Hready. rewrite Hready.
    repeat split.
  - rewrite (Hnot i) by lia.
    destruct (IH (S i) k) as (Hr & Hp & Hs).
    + lia.
    + replace (S i + k)%nat with (i + S k)%nat by lia. exact Hready.
    + intros j Hj. apply Hnot. lia.
    + repeat split.
      * repeat (rewrite result_bind; cbn [emit result snd]). exact Hr.
      * repeat (rewrite events_bind; cbn [emit events result fst snd]).
        cbn [app probes flat_map].
        change (flat_map _ ?t) with (probes t). rewrite Hp. reflexivity.
      * repeat (rewrite events_bind; cbn [emit events result fst snd]).
        cbn [app sleeps flat_map].
        change (flat_map _ ?t) with (sleeps t). rewrite Hs. reflexivity.
Qed.

Lemma waitForDatabase_events (H : Host) (maxRetries delayMs : nat) :
  events (waitForDatabase H maxRetries delayMs)
  = Print (js "Waiting for database to be ready...")
    :: events (waitLoop H maxRetries delayMs maxRetries 0).
Proof. unfold waitForDatabase. rewrite events_bind. reflexivity. Qed.

(** X1.  When the attempt number [k] (counted from 0, below [maxRetries]) is
    the first that finds the database ready, the waiter returns [true] after
    exactly [k + 1] attempts and [k] pauses of [delayMs]: it does not pause
    after the successful attempt and makes no further attempt. *)
Theorem waitForDatabase_first_success (H : Host) (maxRetries delayMs k : nat) :
  (k < maxRetries)%nat ->
  probe H k = ProbeClosed (Some 0%Z) ->
  (forall j, (j < k)%nat -> probe H j <> ProbeClosed (Some 0%Z)) ->
  result (waitForDatabase H maxRetries delayMs) = Ok true
  /\ probes (events (waitForDatabase H maxRetries delayMs)) = seq 0 (S k)
  /\ sleeps (events (waitForDatabase H maxRetries delayMs)) = repeat delayMs k.
Proof.
  intros Hk Hready Hnot.
  destruct (waitLoop_ready_at H maxRetries delayMs maxRetries 0 k Hk)
    as (Hr & Hp & Hs).
  - cbn [Nat.add]. rewrite Hready. reflexivity.
  - intros j Hj. apply isReady_false, Hnot. lia.
  - rewrite waitForDatabase_result, waitForDatabase_events.
    cbn [probes sleeps flat_map app].
    change (flat_map _ ?t = seq 0 (S k)) with (probes t = seq 0 (S k)).
    change (flat_map _ ?t = repeat delayMs k) with (sleeps t = repeat delayMs k).
    auto.
Qed.

Lemma waitForDatabase_first_success_witness :
  (2 < 30)%nat
  /\ probe failedMigrationHost 2 = ProbeClosed (Some 0%Z)
  /\ result (waitForDatabase failedMigrationHost 30 1000) = Ok true
  /\ probes (events (waitForDatabase failedMigrationHost 30 1000))
     = [ 0; 1; 2 ]%nat
  /\ sleeps (events (waitForDatabase failedMigrationHost 30 1000))
     = [ 1000; 1000 ]%nat.
Proof.
  split; [lia|]. split; [reflexivity|].
  apply (waitForDatabase_first_success failedMigrationHost 30 1000 2).
  - lia.
  - reflexivity.
  - intros j Hj. destruct j as [|[|j]]; [discriminate|discriminate|lia].
Defined.

Lemma waitLoop_sleeps (H : Host) (maxRetries delayMs remaining i : nat) :
  (forall j, (i <= j < i + remaining)%nat -> isReady (probe H j) = false) ->
  sleeps (events (waitLoop H maxRetries delayMs remaining i))
  = repeat delayMs remaining.
Proof.
  revert i. induction remaining as [|remaining IH]; intros i Hnot.
  - reflexivity.
  - cbn [waitLoop]. rewrite (Hnot i) by lia.
    repeat (rewrite events_bind; cbn [emit events result fst snd]).
    cbn [app sleeps flat_map repeat].
    change (flat_map _ ?t) with (sleeps t).
    rewrite IH; [reflexivity|]. intros j Hj. apply Hnot. lia.
Qed.

(** X2.  When no attempt finds the database ready, the waiter pauses after
    every attempt, the last one included: [maxRetries] pauses of [delayMs]
    each, that is [maxRetries * delayMs] milliseconds in all, before it
    reports the failure. *)
Theorem waitForDatabase_pauses (H : Host) (maxRetries delayMs : nat) :
  (forall i, (i < maxRetries)%nat -> probe H i <> ProbeClosed (Some 0%Z)) ->
  sleeps (events (waitForDatabase H maxRetries delayMs))
  = repeat delayMs maxRetries
  /\ list_sum (sleeps (events (waitForDatabase H maxRetries delayMs)))
     = (maxRetries * delayMs)%nat.
Proof.
  intros Hnot.
  assert (Hs : sleeps (events (waitForDatabase H maxRetries delayMs))
               = repeat delayMs maxRetries).
  { rewrite waitForDatabase_events. cbn [sleeps flat_map app].
    change (flat_map _ ?t) with (sleeps t).
    apply waitLoop_sleeps. intros j Hj. apply isReady_false, Hnot. lia. }
  split; [exact Hs|]. rewrite Hs.
  clear. induction maxRetries as [|n IH]; [reflexivity|].
  change (list_sum (repeat delayMs (S n)))
    with (delayMs + list_sum (repeat delayMs n))%nat.
  rewrite IH. lia.
Qed.

Lemma waitForDatabase_pauses_witness :
  (forall i, (i < 3)%nat -> probe noDockerHost i <> ProbeClosed (Some 0%Z))
  /\ sleeps (events (waitForDatabase noDockerHost 3 10)) = [ 10; 10; 10 ]%nat
  /\ list_sum (sleeps (events (waitForDatabase noDockerHost 3 10))) = 30%nat.
Proof.
  assert (Hnever : forall i, (i < 3)%nat ->
                             probe noDockerHost i <> ProbeClosed (Some 0%Z))
    by (intros i _; discriminate).
  split; [exact Hnever|].
  apply (waitForDatabase_pauses noDockerHost 3 10 Hnever).
Defined.

(** ** Characters and trimming *)

Ltac bool_lia :=
  repeat match goal with
         | H : _ = true |- _ =>
             first [ rewrite orb_true_iff in H | rewrite andb_true_iff in H
                   | rewrite N.leb_le in H | rewrite N.eqb_eq in H
                   | rewrite negb_true_iff in H ]
         | H : _ = false |- _ =>
             first [ rewrite orb_false_iff in H | rewrite andb_false_iff in H
                   | rewrite N.leb_gt in H | rewrite N.eqb_neq in H
                   | rewrite negb_false_iff in H ]
         | H : _ /\ _ |- _ => destruct H
         | H : _ \/ _ |- _ => destruct H
         end;
  try lia.

Lemma wordChar_not_trimmed (c : N) : isWordChar c = true -> isTrimmed c = false.
Proof.
  intros Hw. destruct (isTrimmed c) eqn:Ht; [|reflexivity].
  unfold isWordChar, isTrimmed, isWhiteSpace, isLineTerminator in *.
  exfalso. bool_lia.
Qed.

Lemma wordChar_not_special (c : N) :
  isWordChar c = true ->
  isLineTerminator c = false /\ (c =? EQUALS) = false
  /\ (c =? DOLLAR) = false /\ (c =? HASH) = false.
Proof.
  intros Hw. unfold isWordChar, isLineTerminator, EQUALS, DOLLAR, HASH in *.
  repeat split; apply not_true_is_false; intros Hc; bool_lia.
Qed.

Lemma trimStart_split (s : jsstring) :
  exists p, s = p ++ trimStart s /\ forallb isTrimmed p = true.
Proof.
  induction s as [|c s IH]; [exists []; split; reflexivity|].
  cbn [trimStart]. destruct (isTrimmed c) eqn:E.
  - destruct IH as (p & Hs & Hp). exists (c :: p). split.
    + cbn [app]. rewrite <- Hs. reflexivity.
    + cbn [forallb]. rewrite E, Hp. reflexivity.
  - exists []. split; reflexivity.
Qed.

Lemma trimStart_head (s r : jsstring) (c : N) :
  trimStart s = c :: r -> isTrimmed c = false.
Proof.
  induction s as [|x s IH]; cbn [trimStart]; [discriminate|].
  destruct (isTrimmed x) eqn:E; [exact IH|].
  intros Hs. injection Hs as <- _. exact E.
Qed.

Lemma trimStart_untrimmed (s : jsstring) (c : N) :
  isTrimmed c = false -> trimStart (c :: s) = c :: s.
Proof. intros E. cbn [trimStart]. rewrite E. reflexivity. Qed.

Lemma trimEnd_split (s : jsstring) :
  exists q, s = trimEnd s ++ q /\ forallb isTrimmed q = true.
Proof.
  unfold trimEnd. destruct (trimStart_split (rev s)) as (p & Hs & Hp).
  exists (rev p). split.
  - rewrite <- rev_app_distr, <- Hs, rev_involutive. reflexivity.
  - rewrite forallb_forall in *. intros x Hx. apply Hp, in_rev, Hx.
Qed.

Lemma trimEnd_last (a : jsstring) (c : N) :
  isTrimmed c = false -> trimEnd (a ++ [c]) = a ++ [c].
Proof.
  intros E. unfold trimEnd. rewrite rev_app_distr. cbn [rev app].
  rewrite trimStart_untrimmed by exact E.
  change (c :: rev a) with ([c] ++ rev a).
  rewrite rev_app_distr, rev_involutive. reflexivity.
Qed.

Lemma trimEnd_app (a b : jsstring) :
  b <> [] -> trimEnd b = b -> trimEnd (a ++ b) = a ++ b.
Proof.
  intros Hne Hb.
  destruct (exists_last Hne) as (b0 & c & ->).
  assert (Hc : isTrimmed c = false).
  { unfold trimEnd in Hb. rewrite rev_app_distr in Hb. cbn [rev app] in Hb.
    destruct (isTrimmed c) eqn:E; [|reflexivity].
    exfalso. cbn [trimStart] in Hb. rewrite E in Hb.
    apply (f_equal (@List.length N)) in Hb.
    rewrite length_rev, length_app in Hb. cbn [List.length] in Hb.
    destruct (trimStart_split (rev b0)) as (p & Hs & _).
    apply (f_equal (@List.length N)) in Hs.
    rewrite length_rev, length_app in Hs. lia. }
  rewrite app_assoc. apply trimEnd_last. exact Hc.
Qed.

Lemma trim_fixed (s : jsstring) :
  trim s = s -> trimStart s = s /\ trimEnd s = s.
Proof.
  intros Ht. unfold trim in Ht.
  destruct (trimStart_split s) as (p & Hs & _).
  destruct (trimEnd_split (trimStart s)) as (q & Hq & _).
  assert (Hp : p = []).
  { apply (f_equal (@List.length N)) in Hs, Hq.
    rewrite length_app in Hs, Hq. rewrite Ht in Hq.
    destruct p; [reflexivity|]. cbn [List.length] in Hs. lia. }
  subst p. cbn [app] in Hs. rewrite <- Hs in Ht. split; [symmetry|]; assumption.
Qed.

Lemma plainKey_cons (k : jsstring) :
  plainKey k = true ->
  exists c r, k = c :: r /\ isWordChar c = true /\ forallb isWordChar k = true.
Proof.
  destruct k as [|c r]; [discriminate|]. intros Hk. exists c, r.
  cbn [plainKey] in Hk. repeat split; [|exact Hk].
  cbn [forallb] in Hk. apply andb_true_iff in Hk. apply Hk.
Qed.

Lemma plainKey_trim (k : jsstring) : plainKey k = true -> trim k = k.
Proof.
  intros Hk. destruct (plainKey_cons k Hk) as (c & r & -> & Hc & Hall).
  unfold trim. rewrite trimStart_untrimmed by (apply wordChar_not_trimmed, Hc).
  assert (Hne : c :: r <> []) by discriminate.
  destruct (exists_last Hne) as (a & z & E). rewrite E.
  apply trimEnd_last. apply wordChar_not_trimmed.
  rewrite forallb_forall in Hall. apply Hall. rewrite E.
  apply in_or_app. right. left. reflexivity.
Qed.

(** ** Assignments to an object *)

Lemma str_eqb_neq (a b : jsstring) : a <> b -> str_eqb a b = false.
Proof.
  intros Hne. destruct (str_eqb a b) eqn:E; [|reflexivity].
  apply str_eqb_eq in E. contradiction.
Qed.

Lemma str_eqb_sym (a b : jsstring) : str_eqb a b = str_eqb b a.
Proof.
  destruct (str_eqb a b) eqn:E.
  - apply str_eqb_eq in E. subst. symmetry. apply str_eqb_refl.
  - destruct (str_eqb b a) eqn:E'; [|reflexivity].
    apply str_eqb_eq in E'. subst. rewrite str_eqb_refl in E. discriminate.
Qed.

Lemma own_None_keys (k : jsstring) (o : Obj) :
  own k o = None <-> ~ In k (keys o).
Proof.
  induction o as [|[k' v'] o IH]; cbn [own keys map fst In].
  - split; [intros _ []|reflexivity].
  - destruct (str_eqb k k') eqn:E.
    + apply str_eqb_eq in E. subst. split; [discriminate|].
      intros Hn. exfalso. apply Hn. left. reflexivity.
    + rewrite IH. unfold keys. split.
      * intros Hn [->|Hin]; [rewrite str_eqb_refl in E; discriminate|].
        apply Hn, Hin.
      * intros Hn Hin. apply Hn. right. exact Hin.
Qed.

Lemma keys_replaceOwn (k v : jsstring) (o : Obj) :
  keys (replaceOwn k v o) = keys o.
Proof.
  induction o as [|[k' v'] o IH]; [reflexivity|].
  cbn [replaceOwn]. destruct (str_eqb k k'); [reflexivity|].
  unfold keys in *. cbn [map fst]. rewrite IH. reflexivity.
Qed.

Lemma own_replaceOwn_same (k v : jsstring) (o : Obj) (w : jsstring) :
  own k o = Some w -> own k (replaceOwn k v o) = Some v.
Proof.
  induction o as [|[k' v'] o IH]; cbn [own replaceOwn]; [discriminate|].
  destruct (str_eqb k k') eqn:E; cbn [own]; rewrite E; [reflexivity|exact IH].
Qed.

Lemma own_replaceOwn_other (k k' v : jsstring) (o : Obj) :
  k' <> k -> own k' (replaceOwn k v o) = own k' o.
Proof.
  intros Hne. induction o as [|[k0 v0] o IH]; [reflexivity|].
  cbn [replaceOwn own]. destruct (str_eqb k k0) eqn:E; cbn [own].
  - apply str_eqb_eq in E. subst k0. rewrite (str_eqb_neq _ _ Hne).
    reflexivity.
  - destruct (str_eqb k' k0); [reflexivity|exact IH].
Qed.

Lemma keys_insertIndex (n : N) (k v : jsstring) (o : Obj) :
  exists a b, keys o = a ++ b /\ keys (insertIndex n k v o) = a ++ k :: b.
Proof.
  induction o as [|[k' v'] o IH].
  - exists [], []. split; reflexivity.
  - cbn [insertIndex]. destruct (arrayIndex k') as [m|].
    + destruct (m <? n).
      * destruct IH as (a & b & Ho & Hi). exists (k' :: a), b.
        unfold keys in *. cbn [map fst app]. rewrite Ho, Hi.
        split; reflexivity.
      * exists [], (keys ((k', v') :: o)). split; reflexivity.
    + exists [], (keys ((k', v') :: o)). split; reflexivity.
Qed.

Lemma own_insertIndex_same (n : N) (k v : jsstring) (o : Obj) :
  own k o = None -> own k (insertIndex n k v o) = Some v.
Proof.
  induction o as [|[k' v'] o IH]; cbn [own insertIndex].
  - rewrite str_eqb_refl. reflexivity.
  - destruct (str_eqb k k') eqn:E; [discriminate|]. intros Hn.
    destruct (arrayIndex k') as [m|]; [destruct (m <? n)|];
      cbn [own]; rewrite ?str_eqb_refl, ?E; auto.
Qed.

Lemma own_insertIndex_other (n : N) (k k' v : jsstring) (o : Obj) :
  k' <> k -> own k' (insertIndex n k v o) = own k' o.
Proof.
  intros Hne. induction o as [|[k0 v0] o IH]; cbn [own insertIndex].
  - rewrite (str_eqb_neq _ _ Hne). reflexivity.
  - destruct (arrayIndex k0) as [m|]; [destruct (m <? n)|];
      cbn [own]; rewrite ?(str_eqb_neq _ _ Hne), ?IH; reflexivity.
Qed.

Lemma own_app (k : jsstring) (o o' : Obj) :
  own k (o ++ o') = match own k o with Some v => Some v | None => own k o' end.
Proof.
  induction o as [|[k0 v0] o IH]; [reflexivity|].
  cbn [app own]. destruct (str_eqb k k0); [reflexivity|exact IH].
Qed.

(** Reading back the key just assigned gives the assigned value. *)
Lemma own_set_same (k v : jsstring) (o : Obj) :
  k <> js "__proto__" -> own k (set k v o) = Some v.
Proof.
  intros Hk. unfold set. rewrite (str_eqb_neq _ _ Hk).
  destruct (own k o) as [w|] eqn:E.
  - apply (own_replaceOwn_same k v o w E).
  - destruct (arrayIndex k) as [n|].
    + apply own_insertIndex_same, E.
    + rewrite own_app, E. cbn [own]. rewrite str_eqb_refl. reflexivity.
Qed.

(** The other keys keep their values. *)
Lemma own_set_other (k k' v : jsstring) (o : Obj) :
  k' <> k -> own k' (set k v o) = own k' o.
Proof.
  intros Hne. unfold set. destruct (str_eqb k (js "__proto__")); [reflexivity|].
  destruct (own k o) as [w|].
  - apply own_replaceOwn_other, Hne.
  - destruct (arrayIndex k) as [n|].
    + apply own_insertIndex_other, Hne.
    + rewrite own_app. cbn [own]. rewrite (str_eqb_neq _ _ Hne).
      destruct (own k' o); reflexivity.
Qed.

Lemma NoDup_insert {A} (a b : list A) (k : A) :
  NoDup (a ++ b) -> ~ In k (a ++ b) -> NoDup (a ++ k :: b).
Proof.
  induction a as [|x a IH]; cbn [app]; intros Hnd Hk.
  - constructor; assumption.
  - inversion Hnd as [|? ? Hx Hnd']; subst. constructor.
    + intros Hin. apply in_app_or in Hin.
      destruct Hin as [Hin|[->|Hin]].
      * apply Hx, in_or_app. left. exact Hin.
      * apply Hk. left. reflexivity.
      * apply Hx, in_or_app. right. exact Hin.
    + apply IH; [exact Hnd'|]. intros Hin. apply Hk. right. exact Hin.
Qed.

(** An assignment keeps the keys distinct, and adds at most its own key. *)
Lemma set_keys (k v : jsstring) (o : Obj) :
  NoDup (keys o) ->
  NoDup (keys (set k v o))
  /\ forall x, In x (keys (set k v o)) ->
               In x (keys o) \/ (x = k /\ k <> js "__proto__").
Proof.
  intros Hnd. unfold set. destruct (str_eqb k (js "__proto__")) eqn:Ep.
  - split; [exact Hnd|]. intros x Hx. left. exact Hx.
  - assert (Hk : k <> js "__proto__").
    { intros ->. rewrite str_eqb_refl in Ep. discriminate. }
    destruct (own k o) as [w|] eqn:E.
    + rewrite keys_replaceOwn. split; [exact Hnd|]. intros x Hx. left. exact Hx.
    + apply own_None_keys in E.
      destruct (arrayIndex k) as [n|].
      * destruct (keys_insertIndex n k v o) as (a & b & Ho & Hi).
        rewrite Hi. rewrite Ho in Hnd, E. split.
        -- apply NoDup_insert; assumption.
        -- intros x Hx. rewrite Ho. apply in_app_or in Hx.
           destruct Hx as [Hx|[<-|Hx]];
             [left; apply in_or_app; left; exact Hx | right; split; auto
             | left; apply in_or_app; right; exact Hx].
      * unfold keys. rewrite map_app. cbn [map fst]. split.
        -- apply NoDup_app; [exact Hnd | repeat constructor; intros [] |].
           intros x Hx [<-|[]]. apply E, Hx.
        -- intros x Hx. apply in_app_or in Hx.
           destruct Hx as [Hx|[<-|[]]]; [left; exact Hx|right; split; auto].
Qed.

(** ** The parser *)

Lemma span_split (f : N -> bool) (s a b : jsstring) :
  span f s = (a, b) ->
  s = a ++ b /\ forallb f a = true
  /\ match b with [] => True | c :: _ => f c = false end.
Proof.
  revert a b. induction s as [|c s IH]; intros a b; cbn [span].
  - intros E. injection E as <- <-. repeat split.
  - destruct (f c) eqn:Ec.
    + destruct (span f s) as [a' b'] eqn:Es. intros E. injection E as <- <-.
      destruct (IH a' b' eq_refl) as (Hs & Ha & Hb).
      repeat split; [cbn [app]; rewrite <- Hs; reflexivity
                    | cbn [forallb]; rewrite Ec, Ha; reflexivity | exact Hb].
    + intros E. injection E as <- <-. repeat split. exact Ec.
Qed.

Lemma matchAssignment_split (s k v : jsstring) :
  matchAssignment s = Some (k, v) ->
  s = k ++ EQUALS :: v /\ k <> [] /\ ~ In EQUALS k /\ noLT v = true.
Proof.
  unfold matchAssignment.
  destruct (span (fun c => negb (c =? EQUALS)) s) as [a b] eqn:Es.
  destruct (span_split _ _ _ _ Es) as (Hs & Ha & Hb).
  destruct a as [|c a]; [discriminate|]. destruct b as [|e b]; [discriminate|].
  destruct (existsb isLineTerminator b) eqn:El; [discriminate|].
  intros E. injection E as <- <-.
  apply negb_false_iff, N.eqb_eq in Hb. subst e.
  repeat split; [exact Hs | discriminate | |].
  - intros Hin. rewrite forallb_forall in Ha. apply Ha in Hin.
    rewrite N.eqb_refl in Hin. discriminate.
  - unfold noLT. apply forallb_forall. intros x Hx.
    apply negb_true_iff. destruct (isLineTerminator x) eqn:Ex; [|reflexivity].
    assert (Hex : existsb isLineTerminator b = true)
      by (apply existsb_exists; exists x; auto).
    congruence.
Qed.

Lemma trimStart_nil (s : jsstring) :
  trimStart s = [] -> forallb isTrimmed s = true.
Proof.
  intros E. destruct (trimStart_split s) as (p & Hs & Hp).
  rewrite E, app_nil_r in Hs. subst. exact Hp.
Qed.

Lemma trim_incl (s : jsstring) (c : N) : In c (trim s) -> In c s.
Proof.
  intros Hin. unfold trim in Hin.
  destruct (trimStart_split s) as (p & Hs & _).
  destruct (trimEnd_split (trimStart s)) as (q & Hq & _).
  rewrite Hs, Hq. apply in_or_app. right. apply in_or_app. left. exact Hin.
Qed.

Lemma trim_head (s r : jsstring) (c : N) :
  trim s = c :: r -> isTrimmed c = false.
Proof.
  intros Ht. unfold trim in Ht.
  destruct (trimEnd_split (trimStart s)) as (q & Hq & _).
  rewrite Ht in Hq. cbn [app] in Hq. apply (trimStart_head s _ c Hq).
Qed.

Lemma trimEnd_idempotent (s : jsstring) : trimEnd (trimEnd s) = trimEnd s.
Proof.
  unfold trimEnd at 2 3.
  destruct (trimStart (rev s)) as [|c r] eqn:E; [reflexivity|].
  cbn [rev]. apply trimEnd_last. apply (trimStart_head _ _ _ E).
Qed.

Lemma trim_idempotent (s : jsstring) : trim (trim s) = trim s.
Proof.
  destruct (trim s) as [|c r] eqn:E; [reflexivity|].
  unfold trim at 1. rewrite trimStart_untrimmed by (apply (trim_head s r c E)).
  rewrite <- E. unfold trim. apply trimEnd_idempotent.
Qed.

Lemma noLT_trim (s : jsstring) : noLT s = true -> noLT (trim s) = true.
Proof.
  unfold noLT. rewrite !forallb_forall. intros Hs c Hc.
  apply Hs, trim_incl, Hc.
Qed.

(** The key of an assignment found on a trimmed line does not trim to
    nothing. *)
Lemma trim_key_nonempty (line k v : jsstring) :
  matchAssignment (trim line) = Some (k, v) -> trim k <> [].
Proof.
  intros Hm. destruct (matchAssignment_split _ _ _ Hm) as (Hs & Hk & _).
  destruct k as [|c k]; [contradiction|]. cbn [app] in Hs.
  pose proof (trim_head line _ c Hs) as Hc.
  unfold trim. rewrite trimStart_untrimmed by exact Hc.
  unfold trimEnd. intros E.
  apply (f_equal (@rev N)) in E. rewrite rev_involutive in E. cbn [rev] in E.
  apply trimStart_nil in E. rewrite forallb_forall in E.
  assert (Hin : In c (rev (c :: k))) by (apply in_rev; rewrite rev_involutive; left; reflexivity).
  apply E in Hin. congruence.
Qed.

Lemma parseLine_wellFormed (vars : Obj) (line : jsstring) :
  wellFormed vars -> wellFormed (parseLine vars line).
Proof.
  intros Hwf. unfold parseLine.
  destruct (trim line) as [|c0 r0] eqn:Et; [exact Hwf|].
  destruct (startsWith [HASH] (c0 :: r0)); [exact Hwf|].
  destruct (matchAssignment (c0 :: r0)) as [[k v]|] eqn:Hm; [|exact Hwf].
  rewrite <- Et in Hm.
  pose proof (trim_key_nonempty line k v Hm) as Hne.
  destruct (matchAssignment_split _ _ _ Hm) as (_ & _ & Heq & Hlt).
  destruct Hwf as [Hnd Hall].
  destruct (set_keys (trim k) (trim v) vars Hnd) as [Hnd' _].
  split; [exact Hnd'|].
  intros x w Hx.
  destruct (str_eqb x (trim k)) eqn:Ex.
  - apply str_eqb_eq in Ex. subst x.
    destruct (str_eqb (trim k) (js "__proto__")) eqn:Ep.
    + unfold set in Hx. rewrite Ep in Hx. apply (Hall _ _ Hx).
    + assert (Hp : trim k <> js "__proto__").
      { intros E. rewrite E, str_eqb_refl in Ep. discriminate. }
      rewrite (own_set_same _ _ _ Hp) in Hx. injection Hx as <-.
      repeat split.
      * exact Hne.
      * intros Hin. apply Heq, trim_incl, Hin.
      * apply trim_idempotent.
      * exact Hp.
      * apply trim_idempotent.
      * apply noLT_trim, Hlt.
  - assert (Hxk : x <> trim k).
    { intros ->. rewrite str_eqb_refl in Ex. discriminate. }
    rewrite (own_set_other _ _ _ _ Hxk) in Hx. apply (Hall _ _ Hx).
Qed.

Lemma fold_parseLine_wellFormed (lines : list jsstring) (vars : Obj) :
  wellFormed vars -> wellFormed (fold_left parseLine lines vars).
Proof.
  revert vars. induction lines as [|line lines IH]; intros vars Hwf;
    [exact Hwf|].
  cbn [fold_left]. apply IH, parseLine_wellFormed, Hwf.
Qed.

Lemma parseEnvFile_keys_distinct (fs : Files) (filePath : string) :
  NoDup (keys (parseEnvFile fs filePath)).
Proof.
  assert (Hempty : wellFormed []).
  { split; [constructor|]. intros k v Hk. discriminate Hk. }
  unfold parseEnvFile. destruct (fs filePath) as [content|].
  - unfold parseContent. apply (fold_parseLine_wellFormed _ _ Hempty).
  - constructor.
Qed.

(** X3.  Whatever the file holds, the map that the parser returns is well
    formed: its keys are distinct, none is empty, contains [=], has white
    space at either end or is [__proto__], and each value is trimmed and
    holds no line terminator.  An absent file gives the empty map. *)
Theorem parseEnvFile_wellFormed (fs : Files) (filePath : string) :
  wellFormed (parseEnvFile fs filePath)
  /\ (fs filePath = None -> parseEnvFile fs filePath = []).
Proof.
  assert (Hempty : wellFormed []).
  { split; [constructor|]. intros k v Hk. discriminate Hk. }
  unfold parseEnvFile. destruct (fs filePath) as [content|].
  - split; [|discriminate]. unfold parseContent.
    apply fold_parseLine_wellFormed, Hempty.
  - split; [exact Hempty|reflexivity].
Qed.

Lemma split_cons (sep : N) (s : jsstring) :
  exists l ls, split sep s = l :: ls.
Proof.
  induction s as [|c s IH]; cbn [split]; [eexists _, _; reflexivity|].
  destruct (c =? sep); [eexists _, _; reflexivity|].
  destruct IH as (l & ls & ->). eexists _, _. reflexivity.
Qed.

Lemma split_app_sep (sep : N) (a b : jsstring) :
  split sep (a ++ sep :: b) = split sep a ++ split sep b.
Proof.
  induction a as [|c a IH]; cbn [app split].
  - rewrite N.eqb_refl. reflexivity.
  - destruct (c =? sep); [rewrite IH; reflexivity|].
    rewrite IH. destruct (split_cons sep a) as (l & ls & ->). reflexivity.
Qed.

Lemma split_single (sep : N) (s : jsstring) :
  forallb (fun c => negb (c =? sep)) s = true -> split sep s = [s].
Proof.
  induction s as [|c s IH]; cbn [forallb split]; [reflexivity|].
  intros H. apply andb_true_iff in H. destruct H as [Hc Hs].
  apply negb_true_iff in Hc. rewrite Hc, (IH Hs). reflexivity.
Qed.

Lemma noLT_no_newline (s : jsstring) :
  noLT s = true -> forallb (fun c => negb (c =? NL)) s = true.
Proof.
  unfold noLT. rewrite !forallb_forall. intros Hs c Hc.
  specialize (Hs c Hc). apply negb_true_iff in Hs. apply negb_true_iff.
  unfold isLineTerminator, NL in *.
  apply not_true_is_false. intros E. apply N.eqb_eq in E. subst.
  discriminate Hs.
Qed.

(** A further line at the end of the text is parsed after all the others. *)
Lemma parseContent_append (content line : jsstring) :
  noLT line = true ->
  parseContent (content ++ NL :: line)
  = parseLine (parseContent content) line.
Proof.
  intros Hl. unfold parseContent.
  rewrite split_app_sep, fold_left_app.
  rewrite (split_single NL line (noLT_no_newline line Hl)). reflexivity.
Qed.

Lemma noLT_app (a b : jsstring) : noLT (a ++ b) = noLT a && noLT b.
Proof. unfold noLT. apply forallb_app. Qed.

Lemma plainKey_noLT (k : jsstring) : plainKey k = true -> noLT k = true.
Proof.
  intros Hk. destruct (plainKey_cons k Hk) as (c & r & _ & _ & Hall).
  unfold noLT. rewrite forallb_forall in *. intros x Hx.
  apply negb_true_iff. apply (wordChar_not_special x (Hall x Hx)).
Qed.

Lemma plainKey_noDollar (k : jsstring) : plainKey k = true -> noDollar k = true.
Proof.
  intros Hk. destruct (plainKey_cons k Hk) as (c & r & _ & _ & Hall).
  unfold noDollar. rewrite forallb_forall in *. intros x Hx.
  apply negb_true_iff. apply (wordChar_not_special x (Hall x Hx)).
Qed.

Lemma assignment_noLT (key value : jsstring) :
  plainKey key = true -> noLT value = true ->
  noLT (assignment key value) = true.
Proof.
  intros Hk Hv. unfold assignment. rewrite !noLT_app, (plainKey_noLT key Hk), Hv.
  reflexivity.
Qed.

(** The parser reads a line [KEY=value] written by the script as the
    assignment of the value to the key. *)
Lemma parseLine_assignment (vars : Obj) (key value : jsstring) :
  plainKey key = true -> noLT value = true -> trim value = value ->
  parseLine vars (assignment key value) = set key value vars.
Proof.
  intros Hk Hlt Hv.
  destruct (plainKey_cons key Hk) as (c & r & Ekey & Hc & Hall).
  destruct (trim_fixed value Hv) as [_ Hend].
  assert (Htrim : trim (assignment key value) = assignment key value).
  { unfold trim, assignment. rewrite Ekey. cbn [app].
    rewrite trimStart_untrimmed by (apply wordChar_not_trimmed, Hc).
    destruct value as [|v0 value'].
    - apply (trimEnd_last (c :: r) EQUALS). reflexivity.
    - apply (trimEnd_app (c :: r) (EQUALS :: v0 :: value'));
        [discriminate|].
      apply (trimEnd_app [EQUALS] (v0 :: value')); [discriminate|exact Hend]. }
  assert (Hspan : span (fun x => negb (x =? EQUALS)) (assignment key value)
                  = (key, EQUALS :: value)).
  { unfold assignment. clear -Hall. induction key as [|x key IH].
    - reflexivity.
    - cbn [forallb] in Hall. apply andb_true_iff in Hall.
      destruct Hall as [Hx Hall]. cbn [app span].
      destruct (wordChar_not_special x Hx) as (_ & Hxe & _).
      rewrite Hxe. cbn [negb]. cbn [app] in IH. rewrite (IH Hall).
      reflexivity. }
  unfold parseLine. rewrite Htrim.
  unfold matchAssignment. rewrite Hspan.
  unfold assignment at 1 2. rewrite Ekey. cbn [app startsWith].
  destruct (wordChar_not_special c Hc) as (_ & _ & _ & Hhash).
  unfold HASH in *. rewrite N.eqb_sym, Hhash. cbn [andb].
  assert (Hex : existsb isLineTerminator value = false).
  { apply not_true_is_false. intros E. apply existsb_exists in E.
    destruct E as (x & Hx & Ex). unfold noLT in Hlt.
    rewrite forallb_forall in Hlt. specialize (Hlt x Hx).
    rewrite Ex in Hlt. discriminate. }
  rewrite Hex, <- Ekey, (plainKey_trim key Hk), Hv. reflexivity.
Qed.

(** X4.  A key that has no line in the text is appended as a new last
    line [KEY=value] (the value is written as it is, dollar signs included),
    and the parser then reads the written value under that key while every
    other key reads as before. *)
Theorem applyReplacement_appended (content key value : jsstring) :
  plainKey key = true -> key <> js "__proto__" ->
  noLT value = true -> trim value = value ->
  findAssign (key ++ [EQUALS]) true content = None ->
  applyReplacement content key value = content ++ NL :: assignment key value
  /\ own key (parseContent (applyReplacement content key value)) = Some value
  /\ forall other, other <> key ->
       own other (parseContent (applyReplacement content key value))
       = own other (parseContent content).
Proof.
  intros Hk Hp Hlt Hv Hnone.
  assert (Happ : applyReplacement content key value
                 = content ++ NL :: assignment key value).
  { unfold applyReplacement. rewrite Hnone. reflexivity. }
  rewrite Happ.
  rewrite (parseContent_append content _ (assignment_noLT key value Hk Hlt)).
  rewrite (parseLine_assignment _ key value Hk Hlt Hv).
  split; [reflexivity|]. split.
  - apply own_set_same, Hp.
  - intros other Hne. apply own_set_other, Hne.
Qed.

Lemma applyReplacement_appended_witness :
  findAssign (js "C" ++ [EQUALS]) true (text [ "# note"; "A=1" ]%string) = None
  /\ applyReplacement (text [ "# note"; "A=1" ]%string) (js "C") (js "3")
     = text [ "# note"; "A=1"; "C=3" ]%string
  /\ own (js "C")
         (parseContent (applyReplacement (text [ "# note"; "A=1" ]%string)
                                         (js "C") (js "3")))
     = Some (js "3").
Proof.
  split; [reflexivity|].
  assert (Hkey : js "C" <> js "__proto__") by discriminate.
  destruct (applyReplacement_appended (text [ "# note"; "A=1" ]%string)
              (js "C") (js "3") eq_refl Hkey eq_refl eq_refl eq_refl)
    as (Ha & Ho & _).
  split; [exact Ha | exact Ho].
Defined.

(** ** Replacing a line in place *)

Lemma startsWith_app (p s t : jsstring) :
  startsWith p s = true -> startsWith p (s ++ t) = true.
Proof.
  revert s. induction p as [|x p IH]; intros s; [reflexivity|].
  destruct s as [|y s]; cbn [startsWith app]; [discriminate|].
  intros H. apply andb_true_iff in H. destruct H as [-> H].
  apply IH, H.
Qed.

Lemma startsWith_self (p t : jsstring) : startsWith p (p ++ t) = true.
Proof.
  induction p as [|x p IH]; [reflexivity|].
  cbn [app startsWith]. rewrite N.eqb_refl. exact IH.
Qed.

(** A pattern without line terminators cannot reach across one. *)
Lemma startsWith_cut (pat x y : jsstring) (c : N) :
  noLT pat = true -> isLineTerminator c = true ->
  startsWith pat (x ++ c :: y) = startsWith pat x.
Proof.
  intros Hpat Hc. revert x.
  induction pat as [|p pat IH]; intros x; [destruct x; reflexivity|].
  cbn [noLT forallb] in Hpat. apply andb_true_iff in Hpat.
  destruct Hpat as [Hp Hpat]. apply negb_true_iff in Hp.
  destruct x as [|x0 x]; cbn [app startsWith].
  - destruct (p =? c) eqn:E; [|reflexivity].
    apply N.eqb_eq in E. subst. congruence.
  - rewrite (IH Hpat). reflexivity.
Qed.

Lemma span_line (line rest : jsstring) :
  noLT line = true ->
  match rest with [] => True | c :: _ => isLineTerminator c = true end ->
  span (fun c => negb (isLineTerminator c)) (line ++ rest) = (line, rest).
Proof.
  intros Hl Hr. induction line as [|x line IH]; cbn [app].
  - destruct rest as [|c rest]; [reflexivity|]. cbn [span]. rewrite Hr.
    reflexivity.
  - cbn [noLT forallb] in Hl. apply andb_true_iff in Hl.
    destruct Hl as [Hx Hl]. cbn [span]. rewrite Hx.
    change (forallb _ line = true) with (noLT line = true) in Hl.
    rewrite (IH Hl). reflexivity.
Qed.

Lemma startsWith_line (pat s line rest : jsstring) :
  noLT pat = true -> startsWith pat s = true ->
  span (fun c => negb (isLineTerminator c)) s = (line, rest) ->
  startsWith pat line = true.
Proof.
  intros Hpat. revert s line rest.
  induction pat as [|p pat IH]; intros s line rest Hs Hspan; [reflexivity|].
  cbn [noLT forallb] in Hpat. apply andb_true_iff in Hpat.
  destruct Hpat as [Hp Hpat].
  destruct s as [|x s]; cbn [startsWith] in Hs; [discriminate|].
  apply andb_true_iff in Hs. destruct Hs as [Hx Hs].
  apply N.eqb_eq in Hx. subst x. cbn [span] in Hspan. rewrite Hp in Hspan.
  destruct (span (fun c => negb (isLineTerminator c)) s) as [l r] eqn:E.
  injection Hspan as <- <-. cbn [startsWith]. rewrite N.eqb_refl.
  apply (IH Hpat s l r Hs E).
Qed.

(** What a match of the key's expression is: a whole line of the text that
    begins with the pattern, preceded by the start of the text or by a line
    terminator, and followed by the end of the text or by a line terminator. *)
Lemma findAssign_split (pat : jsstring) (st : bool) (s b m a : jsstring) :
  noLT pat = true ->
  findAssign pat st s = Some (b, m, a) ->
  s = b ++ m ++ a
  /\ startsWith pat m = true /\ noLT m = true
  /\ match a with [] => True | c :: _ => isLineTerminator c = true end
  /\ (b = [] -> st = true)
  /\ (b <> [] -> exists b0 c, b = b0 ++ [c] /\ isLineTerminator c = true).
Proof.
  intros Hpat. revert st b. induction s as [|c s IH]; intros st b;
    cbn [findAssign]; [discriminate|].
  destruct (st && startsWith pat (c :: s))%bool eqn:Et.
  - destruct (span (fun c => negb (isLineTerminator c)) (c :: s))
      as [line rest] eqn:Es.
    intros E. injection E as <- <- <-.
    apply andb_true_iff in Et. destruct Et as [-> Hsw].
    destruct (span_split _ _ _ _ Es) as (Hs & Hl & Hr).
    repeat split.
    + exact Hs.
    + apply (startsWith_line pat (c :: s) line rest Hpat Hsw Es).
    + exact Hl.
    + destruct rest; [exact I|]. apply negb_false_iff, Hr.
    + intros Hne. contradiction.
  - destruct (findAssign pat (isLineTerminator c) s) as [[[b' m'] a']|] eqn:Ef;
      [|discriminate].
    intros E. injection E as <- <- <-.
    destruct (IH _ _ Ef) as (Hs & Hsw & Hl & Hr & Hb0 & Hb1).
    repeat split; try assumption.
    + cbn [app]. rewrite <- Hs. reflexivity.
    + discriminate.
    + intros _. destruct b' as [|x b'].
      * exists [], c. split; [reflexivity|]. apply Hb0. reflexivity.
      * destruct Hb1 as (b0 & z & Eb & Hz); [discriminate|].
        exists (c :: b0), z. rewrite Eb. split; [reflexivity|exact Hz].
Qed.

(** A replacement text without dollar signs is used as it is. *)
Lemma getSubstitution_noDollar (matched before after template : jsstring) :
  noDollar template = true ->
  getSubstitution matched before after template = template.
Proof.
  induction template as [|c r IH]; [reflexivity|].
  cbn [noDollar forallb]. intros H. apply andb_true_iff in H.
  destruct H as [Hc Hr]. apply negb_true_iff in Hc.
  cbn [getSubstitution]. rewrite Hc. f_equal. apply IH, Hr.
Qed.

Lemma noDollar_app (a b : jsstring) : noDollar (a ++ b) = noDollar a && noDollar b.
Proof. unfold noDollar. apply forallb_app. Qed.

Lemma assignment_noDollar (key value : jsstring) :
  plainKey key = true -> noDollar value = true ->
  noDollar (assignment key value) = true.
Proof.
  intros Hk Hv. unfold assignment.
  rewrite !noDollar_app, (plainKey_noDollar key Hk), Hv. reflexivity.
Qed.

Lemma pattern_noLT (key : jsstring) :
  plainKey key = true -> noLT (key ++ [EQUALS]) = true.
Proof. intros Hk. rewrite noLT_app, (plainKey_noLT key Hk). reflexivity. Qed.

(** X5.  When the text has a line for the key, the write-back replaces the
    first such line and nothing else: the text before it and the text after
    it are kept byte for byte, and for a value without dollar signs the new
    line is exactly [KEY=value]. *)
Theorem applyReplacement_in_place (content key value before matched after : jsstring) :
  plainKey key = true -> noDollar value = true ->
  findAssign (key ++ [EQUALS]) true content = Some (before, matched, after) ->
  content = before ++ matched ++ after
  /\ startsWith (key ++ [EQUALS]) matched = true
  /\ noLT matched = true
  /\ applyReplacement content key value
     = before ++ assignment key value ++ after.
Proof.
  intros Hk Hv Hfind.
  destruct (findAssign_split _ _ _ _ _ _ (pattern_noLT key Hk) Hfind)
    as (Hs & Hsw & Hl & _).
  repeat split; try assumption.
  unfold applyReplacement. rewrite Hfind.
  rewrite (getSubstitution_noDollar _ _ _ _ (assignment_noDollar key value Hk Hv)).
  reflexivity.
Qed.

Lemma applyReplacement_in_place_witness :
  findAssign (js "A" ++ [EQUALS]) true (text [ "# A=0"; "A=1"; "A=2" ]%string)
  = Some (js "# A=0" ++ [NL], js "A=1", NL :: js "A=2")
  /\ applyReplacement (text [ "# A=0"; "A=1"; "A=2" ]%string) (js "A") (js "7")
     = text [ "# A=0"; "A=7"; "A=2" ]%string.
Proof.
  split; [reflexivity|].
  exact (proj2 (proj2 (proj2
           (applyReplacement_in_place (text [ "# A=0"; "A=1"; "A=2" ]%string)
              (js "A") (js "7") (js "# A=0" ++ [NL]) (js "A=1")
              (NL :: js "A=2") eq_refl eq_refl eq_refl)))).
Defined.

(** ** Writing the same updates again *)

Lemma span_app (f : N -> bool) (s t l r : jsstring) :
  span f s = (l, r) ->
  match r, t with
  | [], c :: _ => f c = false
  | _, _ => True
  end ->
  span f (s ++ t) = (l, r ++ t).
Proof.
  revert l r. induction s as [|x s IH]; intros l r; cbn [span app].
  - intros E. injection E as <- <-. destruct t as [|c t]; [reflexivity|].
    intros Hc. cbn [span app]. rewrite Hc. reflexivity.
  - destruct (f x).
    + destruct (span f s) as [l' r'] eqn:Es. intros E. injection E as <- <-.
      intros Ht. rewrite (IH l' r' eq_refl Ht). reflexivity.
    + intros E. injection E as <- <-. reflexivity.
Qed.

Lemma findAssign_cons (pat : jsstring) (st : bool) (c : N) (s : jsstring) :
  (st && startsWith pat (c :: s))%bool = false ->
  findAssign pat st (c :: s)
  = prepend [c] (findAssign pat (isLineTerminator c) s).
Proof.
  intros Et. cbn [findAssign]. rewrite Et.
  destruct (findAssign pat (isLineTerminator c) s) as [[[b m] a]|]; reflexivity.
Qed.

Lemma prepend_prepend (x y : jsstring) r :
  prepend x (prepend y r) = prepend (x ++ y) r.
Proof. destruct r as [[[b m] a]|]; cbn [prepend]; [rewrite app_assoc|]; reflexivity. Qed.

(** Inside a line no match can start. *)
Lemma findAssign_inside (pat m a0 : jsstring) (c0 : N) :
  noLT m = true ->
  findAssign pat false (m ++ c0 :: a0)
  = prepend (m ++ [c0]) (findAssign pat (isLineTerminator c0) a0).
Proof.
  induction m as [|x m IH]; intros Hm; cbn [app].
  - apply findAssign_cons. reflexivity.
  - cbn [noLT forallb] in Hm. apply andb_true_iff in Hm.
    destruct Hm as [Hx Hm]. apply negb_true_iff in Hx.
    rewrite findAssign_cons by reflexivity.
    rewrite Hx, (IH Hm), prepend_prepend. reflexivity.
Qed.

Lemma findAssign_inside_end (pat m : jsstring) :
  noLT m = true -> findAssign pat false m = None.
Proof.
  induction m as [|x m IH]; intros Hm; [reflexivity|].
  cbn [noLT forallb] in Hm. apply andb_true_iff in Hm.
  destruct Hm as [Hx Hm]. apply negb_true_iff in Hx.
  rewrite findAssign_cons by reflexivity. rewrite Hx, (IH Hm). reflexivity.
Qed.

(** A line that does not begin with the pattern is passed over. *)
Lemma findAssign_skip_line (pat m a0 : jsstring) (c0 : N) (st : bool) :
  noLT pat = true -> noLT m = true -> startsWith pat m = false ->
  isLineTerminator c0 = true ->
  findAssign pat st (m ++ c0 :: a0)
  = prepend (m ++ [c0]) (findAssign pat true a0).
Proof.
  intros Hpat Hm Hsw Hc0.
  assert (Htest : (st && startsWith pat (m ++ c0 :: a0))%bool = false).
  { rewrite (startsWith_cut pat m a0 c0 Hpat Hc0), Hsw. apply andb_false_r. }
  destruct m as [|x m]; cbn [app] in *.
  - rewrite (findAssign_cons _ _ _ _ Htest), Hc0. reflexivity.
  - cbn [noLT forallb] in Hm. apply andb_true_iff in Hm.
    destruct Hm as [Hx Hm]. apply negb_true_iff in Hx.
    rewrite (findAssign_cons _ _ _ _ Htest), Hx.
    rewrite (findAssign_inside pat m a0 c0 Hm), Hc0, prepend_prepend.
    reflexivity.
Qed.

Lemma findAssign_last_line (pat m : jsstring) (st : bool) :
  noLT m = true -> startsWith pat m = false -> findAssign pat st m = None.
Proof.
  intros Hm Hsw. destruct m as [|x m]; [reflexivity|].
  rewrite findAssign_cons by (rewrite Hsw; apply andb_false_r).
  cbn [noLT forallb] in Hm. apply andb_true_iff in Hm.
  destruct Hm as [Hx Hm]. apply negb_true_iff in Hx.
  rewrite Hx, (findAssign_inside_end pat m Hm). reflexivity.
Qed.

Lemma ends_with_LT_tail (c : N) (b : jsstring) :
  (exists b0 z, c :: b = b0 ++ [z] /\ isLineTerminator z = true) ->
  (b = [] /\ isLineTerminator c = true)
  \/ (exists b1 z, b = b1 ++ [z] /\ isLineTerminator z = true).
Proof.
  intros (b0 & z & E & Hz). destruct b0 as [|x b0]; cbn [app] in E.
  - injection E as -> ->. left. split; [reflexivity|exact Hz].
  - injection E as -> ->. right. exists b0, z. split; [reflexivity|exact Hz].
Qed.

Lemma startsWith_ends_LT (pat b y y' : jsstring) :
  noLT pat = true ->
  (exists b0 z, b = b0 ++ [z] /\ isLineTerminator z = true) ->
  startsWith pat (b ++ y) = startsWith pat (b ++ y').
Proof.
  intros Hpat (b0 & z & -> & Hz). rewrite <- !app_assoc. cbn [app].
  rewrite !(startsWith_cut pat b0 _ z Hpat Hz). reflexivity.
Qed.

Lemma span_ends_LT (b : jsstring) :
  (exists b0 z, b = b0 ++ [z] /\ isLineTerminator z = true) ->
  exists l r, r <> []
    /\ forall y, span (fun c => negb (isLineTerminator c)) (b ++ y)
                 = (l, r ++ y).
Proof.
  intros (b0 & z & -> & Hz).
  destruct (span (fun c => negb (isLineTerminator c)) (b0 ++ [z]))
    as [l r] eqn:Es.
  exists l, r.
  destruct (span_split _ _ _ _ Es) as (Hs & Hl & _).
  assert (Hr : r <> []).
  { intros ->. rewrite app_nil_r in Hs. subst l.
    rewrite forallb_forall in Hl.
    assert (Hin : In z (b0 ++ [z]))
      by (apply in_or_app; right; left; reflexivity).
    apply Hl in Hin. rewrite Hz in Hin. discriminate. }
  split; [exact Hr|]. intros y. apply (span_app _ _ y l r Es).
  destruct r; [contradiction|exact I].
Qed.

(** Exchanging a line that does not begin with the pattern for another
    such line leaves the first match what it is. *)
Lemma findAssign_line_swap (pat m' n' a' : jsstring) :
  noLT pat = true -> noLT m' = true -> noLT n' = true ->
  startsWith pat m' = false -> startsWith pat n' = false ->
  match a' with [] => True | c :: _ => isLineTerminator c = true end ->
  forall b' st b m a,
    (b' = [] \/ exists b0 z, b' = b0 ++ [z] /\ isLineTerminator z = true) ->
    findAssign pat st (b' ++ m' ++ a') = Some (b, m, a) ->
    exists b2 a2, findAssign pat st (b' ++ n' ++ a') = Some (b2, m, a2).
Proof.
  intros Hpat Hm Hn Hsm Hsn Ha.
  induction b' as [|c b' IH]; intros st b m a Hb Hfind; cbn [app] in *.
  - destruct a' as [|c0 a0].
    + rewrite app_nil_r in Hfind.
      rewrite (findAssign_last_line pat m' st Hm Hsm) in Hfind. discriminate.
    + rewrite (findAssign_skip_line pat m' a0 c0 st Hpat Hm Hsm Ha) in Hfind.
      rewrite (findAssign_skip_line pat n' a0 c0 st Hpat Hn Hsn Ha).
      destruct (findAssign pat true a0) as [[[b0 m0] a1]|]; [|discriminate].
      cbn [prepend] in *. injection Hfind as _ <- _. eexists _, _. reflexivity.
  - destruct Hb as [Hb|Hb]; [discriminate|].
    pose proof (startsWith_ends_LT pat (c :: b') (m' ++ a') (n' ++ a') Hpat Hb)
      as Hsame.
    cbn [app] in Hsame.
    destruct (st && startsWith pat (c :: b' ++ m' ++ a'))%bool eqn:Et.
    + cbn [findAssign] in Hfind |- *. rewrite Et in Hfind.
      rewrite <- Hsame, Et.
      destruct (span_ends_LT (c :: b') Hb) as (l & r & _ & Hs).
      pose proof (Hs (m' ++ a')) as Hs1. pose proof (Hs (n' ++ a')) as Hs2.
      cbn [app] in Hs1, Hs2.
      rewrite Hs1 in Hfind. rewrite Hs2. injection Hfind as _ <- _.
      eexists _, _. reflexivity.
    + rewrite (findAssign_cons _ _ _ _ Et) in Hfind.
      rewrite Hsame in Et. rewrite (findAssign_cons _ _ _ _ Et).
      destruct (findAssign pat (isLineTerminator c) (b' ++ m' ++ a'))
        as [[[b1 m1] a1]|] eqn:Ef; [|discriminate].
      cbn [prepend] in Hfind. injection Hfind as _ <- _.
      destruct (ends_with_LT_tail c b' Hb) as [[-> _]|Hb'].
      * destruct (IH _ _ _ _ (or_introl eq_refl) Ef) as (b2 & a2 & ->).
        eexists _, _. reflexivity.
      * destruct (IH _ _ _ _ (or_intror Hb') Ef) as (b2 & a2 & ->).
        eexists _, _. reflexivity.
Qed.

(** Exchanging the matched line for another line that begins with the
    pattern moves the match to the new line. *)
Lemma findAssign_replaced (pat m n a : jsstring) :
  noLT pat = true -> n <> [] -> startsWith pat n = true -> noLT n = true ->
  match a with [] => True | c :: _ => isLineTerminator c = true end ->
  forall b st,
    findAssign pat st (b ++ m ++ a) = Some (b, m, a) ->
    findAssign pat st (b ++ n ++ a) = Some (b, n, a).
Proof.
  intros Hpat Hne Hsw Hn Ha. induction b as [|c b IH]; intros st Hfind.
  - cbn [app] in *. destruct n as [|x n]; [contradiction|].
    assert (Hst : st = true).
    { apply (findAssign_split pat st _ [] m a Hpat Hfind). reflexivity. }
    subst st. cbn [app findAssign].
    change (x :: n ++ a) with ((x :: n) ++ a).
    rewrite (startsWith_app pat (x :: n) a Hsw). cbn [andb].
    rewrite (span_line (x :: n) a Hn Ha). reflexivity.
  - destruct (findAssign_split pat st _ _ m a Hpat Hfind)
      as (_ & _ & _ & _ & _ & Hb).
    specialize (Hb ltac:(discriminate)).
    pose proof (startsWith_ends_LT pat (c :: b) (m ++ a) (n ++ a) Hpat Hb)
      as Hsame.
    cbn [app] in *.
    destruct (st && startsWith pat (c :: b ++ m ++ a))%bool eqn:Et.
    + cbn [findAssign] in Hfind. rewrite Et in Hfind.
      destruct (span _ _) in Hfind. discriminate.
    + rewrite (findAssign_cons _ _ _ _ Et) in Hfind.
      rewrite Hsame in Et. rewrite (findAssign_cons _ _ _ _ Et).
      destruct (findAssign pat (isLineTerminator c) (b ++ m ++ a))
        as [[[b1 m1] a1]|] eqn:Ef; [|discriminate].
      cbn [prepend app] in Hfind. injection Hfind as -> -> ->.
      rewrite (IH _ Ef). reflexivity.
Qed.

(** A line that begins with the pattern, appended to a text without a
    match, is the match. *)
Lemma findAssign_appended (pat n : jsstring) :
  noLT pat = true -> pat <> [] -> startsWith pat n = true -> noLT n = true ->
  forall s st,
    findAssign pat st s = None ->
    findAssign pat st (s ++ NL :: n) = Some (s ++ [NL], n, []).
Proof.
  intros Hpat Hne Hsw Hn. induction s as [|c s IH]; intros st Hnone.
  - cbn [app]. destruct pat as [|p pat]; [contradiction|].
    destruct n as [|x n]; [discriminate|].
    assert (Hp : (p =? NL) = false).
    { cbn [noLT forallb] in Hpat. apply andb_true_iff in Hpat.
      destruct Hpat as [Hp _]. apply negb_true_iff in Hp.
      apply not_true_is_false. intros E. apply N.eqb_eq in E. subst p.
      discriminate Hp. }
    rewrite findAssign_cons
      by (cbn [startsWith]; rewrite Hp; apply andb_false_r).
    change (isLineTerminator NL) with true.
    cbn [findAssign]. rewrite Hsw. cbn [andb].
    pose proof (span_line (x :: n) [] Hn I) as Hs.
    rewrite app_nil_r in Hs. rewrite Hs. reflexivity.
  - cbn [app].
    assert (Et : (st && startsWith pat (c :: s))%bool = false).
    { cbn [findAssign] in Hnone.
      destruct (st && startsWith pat (c :: s))%bool; [|reflexivity].
      destruct (span _ _) in Hnone. discriminate. }
    rewrite (findAssign_cons _ _ _ _ Et) in Hnone.
    assert (Et' : (st && startsWith pat (c :: s ++ NL :: n))%bool = false).
    { change (c :: s ++ NL :: n) with ((c :: s) ++ NL :: n).
      rewrite (startsWith_cut pat (c :: s) n NL Hpat eq_refl). exact Et. }
    rewrite (findAssign_cons _ _ _ _ Et').
    destruct (findAssign pat (isLineTerminator c) s) as [[[? ?] ?]|] eqn:Ef;
      [discriminate|].
    rewrite (IH _ Ef). reflexivity.
Qed.

(** Text appended after a line terminator does not disturb a match. *)
Lemma findAssign_app_some (pat t : jsstring) (c0 : N) :
  noLT pat = true -> isLineTerminator c0 = true ->
  forall s st b m a,
    findAssign pat st s = Some (b, m, a) ->
    findAssign pat st (s ++ c0 :: t) = Some (b, m, a ++ c0 :: t).
Proof.
  intros Hpat Hc0. induction s as [|c s IH]; intros st b m a Hfind;
    [discriminate|].
  cbn [app].
  destruct (st && startsWith pat (c :: s))%bool eqn:Et.
  - cbn [findAssign] in Hfind |- *. rewrite Et in Hfind.
    change (c :: s ++ c0 :: t) with ((c :: s) ++ c0 :: t).
    rewrite (startsWith_cut pat (c :: s) t c0 Hpat Hc0), Et.
    destruct (span (fun c => negb (isLineTerminator c)) (c :: s))
      as [l r] eqn:Es.
    injection Hfind as <- <- <-.
    rewrite (span_app _ _ (c0 :: t) l r Es); [reflexivity|].
    destruct r; [|exact I]. rewrite Hc0. reflexivity.
  - rewrite (findAssign_cons _ _ _ _ Et) in Hfind.
    assert (Et' : (st && startsWith pat (c :: s ++ c0 :: t))%bool = false).
    { change (c :: s ++ c0 :: t) with ((c :: s) ++ c0 :: t).
      rewrite (startsWith_cut pat (c :: s) t c0 Hpat Hc0). exact Et. }
    rewrite (findAssign_cons _ _ _ _ Et').
    destruct (findAssign pat (isLineTerminator c) s) as [[[b1 m1] a1]|] eqn:Ef;
      [|discriminate].
    cbn [prepend] in Hfind. injection Hfind as <- <- <-.
    rewrite (IH _ _ _ _ Ef). reflexivity.
Qed.

(** A line begins with the pattern of one key at most. *)
Lemma pattern_key_unique (k k' m : jsstring) :
  forallb isWordChar k = true -> forallb isWordChar k' = true ->
  startsWith (k ++ [EQUALS]) m = true ->
  startsWith (k' ++ [EQUALS]) m = true ->
  k = k'.
Proof.
  revert k' m. induction k as [|x k IH]; intros k' m Hk Hk' Hs Hs'.
  - destruct k' as [|y k']; [reflexivity|]. exfalso.
    destruct m as [|c m]; [discriminate|].
    cbn [app startsWith forallb] in *.
    apply andb_true_iff in Hs, Hs', Hk'.
    destruct Hs as [Hs _], Hs' as [Hs' _], Hk' as [Hy _].
    apply N.eqb_eq in Hs, Hs'. subst.
    destruct (wordChar_not_special _ Hy) as (_ & He & _).
    rewrite N.eqb_refl in He. discriminate.
  - destruct m as [|c m]; [discriminate|].
    cbn [app startsWith forallb] in Hs, Hk.
    apply andb_true_iff in Hs, Hk. destruct Hs as [Hx Hs], Hk as [Hwx Hk].
    apply N.eqb_eq in Hx. subst c.
    destruct k' as [|y k'].
    + exfalso. cbn [app startsWith] in Hs'. apply andb_true_iff in Hs'.
      destruct Hs' as [Hs' _]. apply N.eqb_eq in Hs'.
      destruct (wordChar_not_special _ Hwx) as (_ & He & _).
      rewrite <- Hs', N.eqb_refl in He. discriminate.
    + cbn [app startsWith forallb] in Hs', Hk'.
      apply andb_true_iff in Hs', Hk'.
      destruct Hs' as [Hy Hs'], Hk' as [_ Hk'].
      apply N.eqb_eq in Hy. subst y. f_equal.
      apply (IH k' m Hk Hk' Hs Hs').
Qed.

Lemma assignment_startsWith (key value : jsstring) :
  startsWith (key ++ [EQUALS]) (assignment key value) = true.
Proof.
  unfold assignment. rewrite app_assoc. apply startsWith_self.
Qed.

Lemma assignment_nonempty (key value : jsstring) : assignment key value <> [].
Proof. unfold assignment. destruct key; discriminate. Qed.

Lemma applyReplacement_plain (content key value : jsstring) :
  plainKey key = true -> noDollar value = true ->
  applyReplacement content key value
  = match findAssign (key ++ [EQUALS]) true content with
    | Some (before, _, after) => before ++ assignment key value ++ after
    | None => content ++ NL :: assignment key value
    end.
Proof.
  intros Hk Hv. unfold applyReplacement.
  destruct (findAssign _ _ _) as [[[b m] a]|]; [|reflexivity].
  rewrite (getSubstitution_noDollar _ _ _ _ (assignment_noDollar key value Hk Hv)).
  reflexivity.
Qed.

(** After its write-back, the first line of a key is its assignment. *)
Lemma settled_step_same (content key value : jsstring) :
  plainKey key = true -> noLT value = true -> noDollar value = true ->
  settled key value (applyReplacement content key value).
Proof.
  intros Hk Hl Hd. unfold settled.
  rewrite (applyReplacement_plain content key value Hk Hd).
  pose proof (pattern_noLT key Hk) as Hpat.
  destruct (findAssign (key ++ [EQUALS]) true content) as [[[b m] a]|] eqn:Ef.
  - destruct (findAssign_split _ _ _ _ _ _ Hpat Ef) as (Hs & _ & _ & Ha & _).
    exists b, a. rewrite Hs in Ef.
    apply (findAssign_replaced _ m _ a Hpat (assignment_nonempty key value)
             (assignment_startsWith key value)
             (assignment_noLT key value Hk Hl) Ha b true Ef).
  - exists (content ++ [NL]), [].
    apply (findAssign_appended _ _ Hpat); try assumption.
    + destruct key; discriminate.
    + apply assignment_startsWith.
    + apply assignment_noLT; assumption.
Qed.

(** Writing back a key whose first line is already its assignment changes
    nothing. *)
Lemma settled_fixed (content key value : jsstring) :
  plainKey key = true -> noDollar value = true ->
  settled key value content -> applyReplacement content key value = content.
Proof.
  intros Hk Hd (b & a & Ef).
  rewrite (applyReplacement_plain content key value Hk Hd), Ef.
  symmetry. apply (findAssign_split _ _ _ _ _ _ (pattern_noLT key Hk) Ef).
Qed.

Lemma startsWith_other_key (k k' m : jsstring) :
  plainKey k = true -> plainKey k' = true -> k <> k' ->
  startsWith (k' ++ [EQUALS]) m = true ->
  startsWith (k ++ [EQUALS]) m = false.
Proof.
  intros Hk Hk' Hne Hs'. apply not_true_is_false. intros Hs. apply Hne.
  destruct (plainKey_cons k Hk) as (? & ? & _ & _ & Hall).
  destruct (plainKey_cons k' Hk') as (? & ? & _ & _ & Hall').
  apply (pattern_key_unique k k' m Hall Hall' Hs Hs').
Qed.

(** The write-back of another key leaves a settled key settled. *)
Lemma settled_step_other (content k v k' v' : jsstring) :
  plainKey k = true -> plainKey k' = true -> k <> k' ->
  noLT v' = true -> noDollar v' = true ->
  settled k v content -> settled k v (applyReplacement content k' v').
Proof.
  intros Hk Hk' Hne Hl' Hd' (b & a & Ef). unfold settled.
  rewrite (applyReplacement_plain content k' v' Hk' Hd').
  pose proof (pattern_noLT k Hk) as Hpat.
  pose proof (pattern_noLT k' Hk') as Hpat'.
  destruct (findAssign (k' ++ [EQUALS]) true content) as [[[b' m'] a']|] eqn:Ef'.
  - destruct (findAssign_split _ _ _ _ _ _ Hpat' Ef')
      as (Hs & Hsw & Hlm & Ha & _ & Hb).
    rewrite Hs in Ef.
    apply (findAssign_line_swap (k ++ [EQUALS]) m' (assignment k' v') a' Hpat Hlm
             (assignment_noLT k' v' Hk' Hl')
             (startsWith_other_key k k' m' Hk Hk' Hne Hsw)
             (startsWith_other_key k k' _ Hk Hk' Hne
                (assignment_startsWith k' v'))
             Ha b' true b (assignment k v) a); [|exact Ef].
    destruct b' as [|x b']; [left; reflexivity|right].
    apply Hb. discriminate.
  - exists b, (a ++ NL :: assignment k' v').
    apply (findAssign_app_some _ _ NL Hpat eq_refl _ _ _ _ _ Ef).
Qed.

Lemma merged_overwrite (existingVars : Obj) (l : list (jsstring * jsstring))
  (content : jsstring) (updated : bool) :
  fst (fold_left (updateStep false existingVars) l (content, updated))
  = fold_left (fun c kv => applyReplacement c (fst kv) (snd kv)) l content.
Proof.
  revert content updated. induction l as [|kv l IH]; intros content updated;
    [reflexivity|].
  cbn [fold_left]. unfold updateStep at 2. cbn [skipped andb fst snd].
  apply IH.
Qed.

Lemma settled_fold (k v : jsstring) (l : list (jsstring * jsstring))
  (content : jsstring) :
  plainKey k = true ->
  (forall k' v', In (k', v') l ->
     plainKey k' = true /\ noLT v' = true /\ noDollar v' = true) ->
  ~ In k (map fst l) ->
  settled k v content ->
  settled k v (fold_left (fun c kv => applyReplacement c (fst kv) (snd kv))
                         l content).
Proof.
  intros Hk. revert content. induction l as [|[k' v'] l IH];
    intros content Hall Hnin Hs; [exact Hs|].
  cbn [fold_left fst snd]. apply IH.
  - intros k0 v0 Hin. apply Hall. right. exact Hin.
  - intros Hin. apply Hnin. right. exact Hin.
  - destruct (Hall k' v' (or_introl eq_refl)) as (Hk' & Hl' & Hd').
    apply settled_step_other; try assumption.
    intros ->. apply Hnin. left. reflexivity.
Qed.

Lemma fold_settles (l : list (jsstring * jsstring)) (content : jsstring) :
  NoDup (map fst l) ->
  (forall k v, In (k, v) l ->
     plainKey k = true /\ noLT v = true /\ noDollar v = true) ->
  forall k v, In (k, v) l ->
    settled k v (fold_left (fun c kv => applyReplacement c (fst kv) (snd kv))
                           l content).
Proof.
  revert content. induction l as [|[k0 v0] l IH]; intros content Hnd Hall k v Hin;
    [destruct Hin|].
  cbn [map fst] in Hnd. inversion Hnd as [|? ? Hnin Hnd']; subst.
  cbn [fold_left fst snd]. destruct Hin as [E|Hin].
  - injection E as -> ->.
    destruct (Hall k v (or_introl eq_refl)) as (Hk & Hl & Hd).
    apply settled_fold; try assumption.
    + intros k' v' Hin'. apply Hall. right. exact Hin'.
    + apply settled_step_same; assumption.
  - apply IH; try assumption.
    intros k' v' Hin'. apply Hall. right. exact Hin'.
Qed.

Lemma fold_fixed (l : list (jsstring * jsstring)) (content : jsstring) :
  (forall k v, In (k, v) l ->
     plainKey k = true /\ noDollar v = true /\ settled k v content) ->
  fold_left (fun c kv => applyReplacement c (fst kv) (snd kv)) l content
  = content.
Proof.
  induction l as [|[k v] l IH]; intros Hall; [reflexivity|].
  cbn [fold_left fst snd].
  destruct (Hall k v (or_introl eq_refl)) as (Hk & Hd & Hs).
  rewrite (settled_fixed content k v Hk Hd Hs). apply IH.
  intros k' v' Hin. apply Hall. right. exact Hin.
Qed.

(** X6.  For updates with plain keys and values free of line terminators
    and dollar signs, writing the same updates a second time writes back the
    very content that the first write left: after one write-back the file
    is a fixed point of the merge. *)
Theorem updateEnvFile_again (fs : Files) (path : string)
  (content : jsstring) (replacements : Obj) :
  fs path = Some content ->
  plainUpdates replacements ->
  replacements <> [] ->
  let c1 := merged false (parseEnvFile fs path) replacements content in
  updateEnvFile fs path replacements false
  = ([ Wrote path c1 ], Ok (writeFile fs path c1))
  /\ updateEnvFile (writeFile fs path c1) path replacements false
     = ([ Wrote path c1 ], Ok (writeFile (writeFile fs path c1) path c1)).
Proof.
  intros Hfile [Hnd Hall] Hne c1.
  assert (Happlies : forall ev, applies false ev replacements = true).
  { intros ev. destruct replacements; [contradiction|reflexivity]. }
  assert (Hfix : forall ev, merged false ev replacements c1 = c1).
  { intros ev. unfold merged. rewrite merged_overwrite.
    apply fold_fixed. intros k v Hin.
    destruct (Hall k v Hin) as (Hk & Hl & Hd). repeat split; try assumption.
    subst c1. unfold merged. rewrite merged_overwrite.
    apply (fold_settles replacements content Hnd Hall k v Hin). }
  split.
  - rewrite (updateEnvFile_unfold _ _ _ _ _ Hfile), Happlies. reflexivity.
  - rewrite (updateEnvFile_unfold _ _ c1 _ _ (writeFile_same fs path c1)).
    rewrite Happlies. cbv zeta. rewrite Hfix. reflexivity.
Qed.

Lemma updateEnvFile_again_witness :
  plainUpdates twoUpdates
  /\ updateEnvFile twoLinesFile ".env" twoUpdates false
     = ([ Wrote ".env" (text [ "# local"; "A=2"; "A=old"; "B=x y" ]%string) ],
        Ok (writeFile twoLinesFile ".env"
              (text [ "# local"; "A=2"; "A=old"; "B=x y" ]%string)))
  /\ updateEnvFile
       (writeFile twoLinesFile ".env"
          (text [ "# local"; "A=2"; "A=old"; "B=x y" ]%string))
       ".env" twoUpdates false
     = ([ Wrote ".env" (text [ "# local"; "A=2"; "A=old"; "B=x y" ]%string) ],
        Ok (writeFile
              (writeFile twoLinesFile ".env"
                 (text [ "# local"; "A=2"; "A=old"; "B=x y" ]%string))
              ".env" (text [ "# local"; "A=2"; "A=old"; "B=x y" ]%string))).
Proof.
  assert (Hplain : plainUpdates twoUpdates).
  { split.
    - repeat constructor; simpl; intuition discriminate.
    - intros k v [E|[E|[]]]; injection E as <- <-; repeat split. }
  split; [exact Hplain|].
  assert (Hne : twoUpdates <> []) by discriminate.
  exact (updateEnvFile_again twoLinesFile ".env"
           (text [ "# local"; "A=1"; "A=old" ]%string) twoUpdates
           eq_refl Hplain Hne).
Defined.

(** ** The template differ, key by key *)

Lemma isMissing_holds (fs : Files) (envPath : string) (key : jsstring) :
  ~ In key protoNames ->
  isMissing (parseEnvFile fs envPath) key = negb (holds fs envPath key).
Proof.
  intros Hp. unfold isMissing, has, get, holds.
  destruct (own key (parseEnvFile fs envPath)) as [[|c v]|]; try reflexivity.
  destruct (mem key protoNames) eqn:E; [|reflexivity].
  apply mem_In in E. contradiction.
Qed.

(** X7.  For a template that declares no inherited property name, the
    differ returns, in the template's order and without repetition, exactly
    the template keys that the target file does not hold with a non-empty
    value (an absent target file holds none). *)
Theorem getMissingVariables_exact (fs : Files) (examplePath envPath : string) :
  (forall key, In key (keys (parseEnvFile fs examplePath)) ->
               ~ In key protoNames) ->
  getMissingVariables fs examplePath envPath
  = filter (fun key => negb (holds fs envPath key))
           (keys (parseEnvFile fs examplePath))
  /\ NoDup (getMissingVariables fs examplePath envPath).
Proof.
  intros Hplain. unfold getMissingVariables. split.
  - apply filter_ext_in. intros key Hin.
    apply isMissing_holds, Hplain, Hin.
  - apply NoDup_filter, parseEnvFile_keys_distinct.
Qed.

Lemma getMissingVariables_exact_witness :
  (forall key, In key (keys (parseEnvFile partlyConfiguredFiles
                               "apps/web-spa/.env.example")) ->
               ~ In key protoNames)
  /\ getMissingVariables partlyConfiguredFiles "apps/web-spa/.env.example"
                         "apps/web-spa/.env"
     = [ js "VITE_API_URL" ].
Proof.
  assert (Hplain : forall key,
             In key (keys (parseEnvFile partlyConfiguredFiles
                             "apps/web-spa/.env.example")) ->
             ~ In key protoNames).
  { intros key [<-|[<-|[]]] Hin; vm_compute in Hin; intuition discriminate. }
  split; [exact Hplain|].
  exact (proj1 (getMissingVariables_exact partlyConfiguredFiles
                  "apps/web-spa/.env.example" "apps/web-spa/.env" Hplain)).
Defined.

(** ** The application detector: when it fails and what the flags mean *)

Lemma directoriesOf_ok (dir : string) (items : list (string * StatResult))
  (ds : list string) :
  result (directoriesOf dir items) = Ok ds ->
  forall item, ~ In (item, StatFails) items.
Proof.
  revert ds. induction items as [|[item st] items IH]; intros ds Hok it Hin;
    [destruct Hin|].
  cbn [directoriesOf] in Hok. destruct st.
  - rewrite result_bind in Hok.
    destruct (result (directoriesOf dir items)) as [ds'|e] eqn:E;
      [|discriminate].
    destruct Hin as [Hin|Hin]; [discriminate|]. apply (IH ds' eq_refl it Hin).
  - destruct Hin as [Hin|Hin]; [discriminate|]. apply (IH ds Hok it Hin).
  - discriminate.
Qed.

Lemma readDirectories_ok (dir : string) (d : DirState) (ds : list string) :
  dirExists d = true -> result (readDirectories dir d) = Ok ds -> listable d.
Proof.
  destruct d as [| |items]; cbn [dirExists readDirectories listable];
    try discriminate.
  intros _ Hok. apply (directoriesOf_ok dir items ds Hok).
Qed.

Lemma includes_directoryNames (name : string) (items : list (string * StatResult)) :
  includes name (directoryNames items) = true <-> In (name, IsDirectory) items.
Proof.
  unfold includes. rewrite existsb_exists. unfold directoryNames. split.
  - intros (x & Hin & E). apply String.eqb_eq in E. subst x.
    apply in_flat_map in Hin. destruct Hin as ([n st] & Hin & Hx).
    cbn [fst snd] in Hx. destruct st; [|destruct Hx|destruct Hx].
    destruct Hx as [<-|[]]. exact Hin.
  - intros Hin. exists name. split; [|apply String.eqb_refl].
    apply in_flat_map. exists (name, IsDirectory). split; [exact Hin|].
    left. reflexivity.
Qed.

Lemma detectAvailableApps_ok_listable (H : Host) (apps : AvailableApps) :
  result (detectAvailableApps H) = Ok apps ->
  listable (appsDir H) /\ listable (packagesDir H).
Proof.
  unfold detectAvailableApps. intros Hok. rewrite result_bind in Hok.
  destruct (dirExists (appsDir H)) eqn:Ea.
  + rewrite result_bind in Hok.
    destruct (result (readDirectories "apps" (appsDir H))) as [ds|e] eqn:Er;
      [|discriminate].
    split; [apply (readDirectories_ok _ _ ds Ea Er)|].
    cbn [ret result snd] in Hok.
    destruct (dirExists (packagesDir H)) eqn:Ep.
    * rewrite result_bind in Hok.
      destruct (result (readDirectories "packages" (packagesDir H)))
        as [ps|e] eqn:Erp; [|discriminate].
      apply (readDirectories_ok _ _ ps Ep Erp).
    * destruct (packagesDir H); try discriminate. exact I.
  + split; [destruct (appsDir H); try discriminate; exact I|].
    cbn [ret result snd] in Hok.
    destruct (dirExists (packagesDir H)) eqn:Ep.
    * rewrite result_bind in Hok.
      destruct (result (readDirectories "packages" (packagesDir H)))
        as [ps|e] eqn:Erp; [|discriminate].
      apply (readDirectories_ok _ _ ps Ep Erp).
    * destruct (packagesDir H); try discriminate. exact I.
Qed.

(** X8.  The detection returns exactly when each of the two roots is absent
    or can be listed with every item open to [statSync]; in every other state
    of the roots it throws. *)
Theorem detectAvailableApps_returns_iff (H : Host) :
  (exists apps, result (detectAvailableApps H) = Ok apps)
  <-> listable (appsDir H) /\ listable (packagesDir H).
Proof.
  unfold detectAvailableApps. split.
  - intros [apps Hok]. exact (detectAvailableApps_ok_listable H apps Hok).
  - intros [Ha Hp].
    destruct (appsDir H) as [| |appItems]; [|destruct Ha|];
      destruct (packagesDir H) as [| |packageItems];
      try destruct Hp;
      cbn [dirExists readDirectories listable] in *;
      repeat match goal with
             | Hl : forall item, ~ In (item, StatFails) ?items |- _ =>
                 rewrite (directoriesOf_listable _ items Hl); clear Hl
             end;
      eexists; reflexivity.
Qed.

(** X9.  When the detection returns, each flag is true exactly when its
    root is listed and holds an item of the expected name that is a
    directory; a regular file of that name does not count. *)
Theorem detectAvailableApps_flags_iff (H : Host) (apps : AvailableApps) :
  result (detectAvailableApps H) = Ok apps ->
  let present root name :=
    exists items, root = Listing items /\ In (name, IsDirectory) items in
  (api apps = true <-> present (appsDir H) "api"%string)
  /\ (webSpa apps = true <-> present (appsDir H) "web-spa"%string)
  /\ (webSsr apps = true <-> present (appsDir H) "web-ssr"%string)
  /\ (openapiGenerator apps = true
      <-> present (packagesDir H) "openapi-generator"%string).
Proof.
  intros Hok present.
  assert (Hl : listable (appsDir H) /\ listable (packagesDir H)).
  { exact (detectAvailableApps_ok_listable H apps Hok). }
  destruct Hl as [Ha Hp]. unfold detectAvailableApps in Hok. subst present.
  destruct (appsDir H) as [| |appItems]; [|destruct Ha|];
    destruct (packagesDir H) as [| |packageItems];
    try destruct Hp;
    cbn [dirExists readDirectories listable] in *;
    repeat match goal with
           | Hl : forall item, ~ In (item, StatFails) ?items |- _ =>
               rewrite (directoriesOf_listable _ items Hl) in Hok; clear Hl
           end;
    cbn in Hok; injection Hok as <-;
    cbn [api webSpa webSsr openapiGenerator];
    repeat split;
    try (intros E; discriminate E);
    try (intros (items & E & _); discriminate E);
    try (intros E; eexists; split; [reflexivity|];
         apply includes_directoryNames, E);
    try (intros (items & E & Hin); injection E as <-;
         apply includes_directoryNames, Hin).
Qed.

Lemma detectAvailableApps_flags_iff_witness :
  result (detectAvailableApps backendOnlyHost)
  = Ok {| api := true; webSpa := false; webSsr := false;
          openapiGenerator := false |}
  /\ (exists items, appsDir backendOnlyHost = Listing items
                    /\ In ("api"%string, IsDirectory) items).
Proof.
  split; [reflexivity|].
  apply (proj1 (detectAvailableApps_flags_iff backendOnlyHost
                  {| api := true; webSpa := false; webSsr := false;
                     openapiGenerator := false |} eq_refl)).
  reflexivity.
Defined.

(** ** Copying the templates *)

Lemma copyEnvFile_result (H : Host) (snapshot cur : Files)
  (ft : string * string) :
  result (copyEnvFile H cur (infoOf snapshot ft))
  = if existsSync snapshot (snd ft) then Ok cur
    else match cur (fst ft) with
         | Some content =>
             if copies H (fst ft) (snd ft)
             then Ok (writeFile cur (snd ft) content)
             else Throw (CopyError (fst ft) (snd ft))
         | None => Ok cur
         end.
Proof.
  unfold copyEnvFile, infoOf. cbn [exists_ missingVars from to].
  destruct (existsSync snapshot (snd ft)).
  - destruct (getMissingVariables snapshot (fst ft) (snd ft)); reflexivity.
  - destruct (cur (fst ft)); [|reflexivity].
    destruct (copies H (fst ft) (snd ft)); reflexivity.
Qed.

Lemma copyLoop_result (H : Host) (snapshot : Files)
  (pairs : list (string * string)) :
  NoDup (map snd pairs) ->
  (forall p p', In p pairs -> In p' pairs -> fst p <> snd p') ->
  forall cur,
    (forall p, In p pairs -> cur (fst p) = snapshot (fst p)) ->
    match find (refused H snapshot) pairs with
    | Some ft =>
        result (copyLoop H cur (map (infoOf snapshot) pairs))
        = Throw (CopyError (fst ft) (snd ft))
    | None =>
        exists fs',
          result (copyLoop H cur (map (infoOf snapshot) pairs)) = Ok fs'
          /\ forall q,
               fs' q = match pairOf pairs q with
                       | Some ft =>
                           if existsSync snapshot q then cur q
                           else match snapshot (fst ft) with
                                | Some content => Some content
                                | None => cur q
                                end
                       | None => cur q
                       end
    end.
Proof.
  induction pairs as [|[f t] pairs IH]; intros Hnd Hft cur Hcur.
  - exists cur. split; reflexivity.
  - cbn [map snd] in Hnd. inversion Hnd as [|? ? Hnin Hnd']; subst.
    cbn [map copyLoop find]. rewrite result_bind, copyEnvFile_result.
    unfold refused at 1. cbn [fst snd].
    pose proof (Hcur (f, t) (or_introl eq_refl)) as Hf. cbn [fst] in Hf.
    rewrite Hf. unfold existsSync at 2.
    set (cur' := if existsSync snapshot t then cur
                 else match snapshot f with
                      | Some content => writeFile cur t content
                      | None => cur
                      end).
    assert (Hother : forall q, q <> t -> cur' q = cur q).
    { intros q Hq. subst cur'. destruct (existsSync snapshot t); [reflexivity|].
      destruct (snapshot f); [apply writeFile_other, Hq|reflexivity]. }
    assert (Hrest : forall p, In p pairs -> cur' (fst p) = snapshot (fst p)).
    { intros p Hp. rewrite Hother.
      - apply Hcur. right. exact Hp.
      - apply (Hft p (f, t)); [right; exact Hp|left; reflexivity]. }
    assert (Hft' : forall p p', In p pairs -> In p' pairs -> fst p <> snd p').
    { intros p p' Hp Hp'. apply Hft; right; assumption. }
    specialize (IH Hnd' Hft' cur' Hrest).
    assert (Hstep :
              match find (refused H snapshot) pairs with
              | Some ft =>
                  result (copyLoop H cur' (map (infoOf snapshot) pairs))
                  = Throw (CopyError (fst ft) (snd ft))
              | None =>
                  exists fs',
                    result (copyLoop H cur' (map (infoOf snapshot) pairs))
                    = Ok fs'
                    /\ forall q,
                         fs' q
                         = match pairOf ((f, t) :: pairs) q with
                           | Some ft =>
                               if existsSync snapshot q then cur q
                               else match snapshot (fst ft) with
                                    | Some content => Some content
                                    | None => cur q
                                    end
                           | None => cur q
                           end
              end).
    { destruct (find (refused H snapshot) pairs) as [ft|]; [exact IH|].
      destruct IH as (fs' & Hres & Hfs').
      exists fs'. split; [exact Hres|]. intros q. rewrite Hfs'.
      unfold pairOf. cbn [find snd].
      destruct (String.eqb t q) eqn:Et.
      * apply String.eqb_eq in Et. subst q.
        assert (Hnone : find (fun ft => String.eqb (snd ft) t) pairs = None).
        { destruct (find _ pairs) as [[f' t']|] eqn:Ef; [|reflexivity].
          apply find_some in Ef. destruct Ef as [Hin Ht].
          cbn [snd] in Ht. apply String.eqb_eq in Ht. subst t'.
          exfalso. apply Hnin. apply (in_map snd _ _ Hin). }
        rewrite Hnone. subst cur'. cbn [fst].
        destruct (existsSync snapshot t); [reflexivity|].
        destruct (snapshot f); [apply writeFile_same|reflexivity].
      * assert (Hq : q <> t).
        { intros ->. rewrite String.eqb_refl in Et. discriminate. }
        rewrite (Hother q Hq). reflexivity. }
    subst cur'.
    destruct (existsSync snapshot t); cbn [negb andb]; [exact Hstep|].
    destruct (snapshot f) as [content|]; cbn [andb]; [|exact Hstep].
    destruct (copies H f t); cbn [negb]; [exact Hstep|reflexivity].
Qed.

Lemma envPairs_distinct (apps : AvailableApps) :
  NoDup (map snd (envPairs apps))
  /\ forall p p', In p (envPairs apps) -> In p' (envPairs apps) ->
                  fst p <> snd p'.
Proof.
  destruct apps as [[] [] [] []]; cbn; split;
    try (repeat constructor; cbn; intuition discriminate);
    intros p p' Hp Hp';
    repeat (destruct Hp as [<-|Hp]; [|]); try destruct Hp;
    repeat (destruct Hp' as [<-|Hp']; [|]); try destruct Hp';
    discriminate.
Qed.

Lemma pairOf_In (pairs : list (string * string)) (q : string) (ft : string * string) :
  pairOf pairs q = Some ft -> In ft pairs /\ snd ft = q.
Proof.
  unfold pairOf. intros E. apply find_some in E. destruct E as [Hin Hq].
  apply String.eqb_eq in Hq. split; assumption.
Qed.

Lemma pairOf_unique (pairs : list (string * string)) (f t : string) :
  NoDup (map snd pairs) -> In (f, t) pairs -> pairOf pairs t = Some (f, t).
Proof.
  unfold pairOf. induction pairs as [|[f' t'] pairs IH]; intros Hnd Hin;
    [destruct Hin|].
  cbn [map snd] in Hnd. inversion Hnd as [|? ? Hnin Hnd']; subst.
  cbn [find snd]. destruct Hin as [E|Hin].
  - injection E as -> ->. rewrite String.eqb_refl. reflexivity.
  - destruct (String.eqb t' t) eqn:Et; [|apply IH; assumption].
    apply String.eqb_eq in Et. subst t'. exfalso. apply Hnin.
    apply (in_map snd _ _ Hin).
Qed.

(** X10.  Copying the templates on the strength of the snapshot throws
    exactly when a copy that it attempts (the target is absent and the
    template present) fails, with the error of the first such copy.
    Otherwise it returns, and afterwards: every file that existed is
    unchanged; a target that did not exist has the content of its template,
    and stays absent when the template is absent too; no path other than
    those targets is touched. *)
Theorem copyEnvFiles_effect (H : Host) (fs : Files) (apps : AvailableApps) :
  match find (refused H fs) (envPairs apps) with
  | Some ft =>
      result (copyEnvFiles H fs (checkEnvFiles fs apps))
      = Throw (CopyError (fst ft) (snd ft))
  | None =>
      exists fs',
        result (copyEnvFiles H fs (checkEnvFiles fs apps)) = Ok fs'
        /\ (forall q content, fs q = Some content -> fs' q = Some content)
        /\ (forall template target,
              In (template, target) (envPairs apps) -> fs target = None ->
              fs' target = fs template)
        /\ (forall q, (forall template, ~ In (template, q) (envPairs apps)) ->
                      fs' q = fs q)
  end.
Proof.
  destruct (envPairs_distinct apps) as [Hnd Hft].
  pose proof (copyLoop_result H fs (envPairs apps) Hnd Hft fs
                (fun p _ => eq_refl)) as Hloop.
  assert (Hsame : result (copyEnvFiles H fs (checkEnvFiles fs apps))
                  = result (copyLoop H fs (map (infoOf fs) (envPairs apps)))).
  { unfold copyEnvFiles. rewrite result_bind. reflexivity. }
  rewrite Hsame.
  destruct (find (refused H fs) (envPairs apps)) as [ft|]; [exact Hloop|].
  destruct Hloop as (fs' & Hres & Hfs').
  exists fs'. split; [exact Hres|]. split; [|split].
  - intros q content Hq. rewrite Hfs'. unfold existsSync. rewrite Hq.
    destruct (pairOf (envPairs apps) q); reflexivity.
  - intros template target Hin Habs. rewrite Hfs'.
    rewrite (pairOf_unique _ _ _ Hnd Hin). unfold existsSync. rewrite Habs.
    cbn [fst]. destruct (fs template); reflexivity.
  - intros q Hnot. rewrite Hfs'.
    destruct (pairOf (envPairs apps) q) as [[f t]|] eqn:E; [|reflexivity].
    apply pairOf_In in E. destruct E as [Hin Ht]. cbn [snd] in Ht. subst t.
    exfalso. apply (Hnot f Hin).
Qed.

Lemma copyEnvFiles_effect_witness :
  refused readOnlyBackendHost freshBackendFiles
          ("apps/api/.env.example", "apps/api/.env")%string = true
  /\ result (copyEnvFiles readOnlyBackendHost freshBackendFiles
               (checkEnvFiles freshBackendFiles
                  {| api := true; webSpa := false; webSsr := false;
                     openapiGenerator := false |}))
     = Throw (CopyError "apps/api/.env.example" "apps/api/.env").
Proof.
  split; [reflexivity|].
  exact (copyEnvFiles_effect readOnlyBackendHost freshBackendFiles
           {| api := true; webSpa := false; webSsr := false;
              openapiGenerator := false |}).
Defined.

(** ** The questions of the database and mail stages *)

Lemma promptIfMissing_attentive (H : Host) (missing : list jsstring)
  (existingVars exampleVars : Obj) (key message : string) (fallback : jsstring) :
  attentive H ->
  exists s,
    promptIfMissing H missing existingVars exampleVars key message fallback
    = ((if mem (js key) missing
        then [ Asked message
                 (getOr key existingVars (getOr key exampleVars fallback)) ]
        else []), Ok s).
Proof.
  intros Hatt. unfold promptIfMissing, prompt.
  destruct (mem (js key) missing).
  - destruct (answer H message _) as [s|] eqn:E.
    + exists s. reflexivity.
    + exfalso. apply (Hatt _ _ E).
  - eexists. reflexivity.
Qed.

Ltac answer_all Hatt :=
  repeat match goal with
         | |- context [promptIfMissing ?H ?m ?e ?x ?k ?q ?f] =>
             let s := fresh "s" in
             let E := fresh "E" in
             destruct (promptIfMissing_attentive H m e x k q f Hatt) as [s E];
             rewrite E; clear E
         end.

Lemma numOr_truthy (n : number) (d : Z) :
  (d <> 0)%Z -> numTruthy (numOr n d) = true.
Proof.
  intros Hd. unfold numOr. destruct (numTruthy n) eqn:E; [exact E|].
  cbn [numTruthy]. apply negb_true_iff, Z.eqb_neq, Hd.
Qed.

(** X11.  With a user who answers every question, the database stage
    returns, and it asks exactly the questions of the database keys that are
    missing from the root target file (all template keys when that file is
    absent), in the order user, password, name, host, port.  When it asks at
    all, the port it returns is never zero or NaN. *)
Theorem promptDatabaseConfig_questions (H : Host) (fs : Files) :
  attentive H ->
  asked (events (promptDatabaseConfig H fs))
  = questionsOf (missingOrAll fs ".env.example" ".env") databaseQuestions
  /\ exists db,
       result (promptDatabaseConfig H fs) = Ok db
       /\ (questionsOf (missingOrAll fs ".env.example" ".env")
                       databaseQuestions <> [] ->
           numTruthy (Database.port db) = true).
Proof.
  intros Hatt. unfold promptDatabaseConfig, questionsOf.
  cbn [existsb dbVars databaseQuestions flat_map fst snd].
  set (missing := missingOrAll fs ".env.example" ".env").
  answer_all Hatt.
  destruct (mem (js "DATABASE_USER") missing),
    (mem (js "DATABASE_PASSWORD") missing),
    (mem (js "DATABASE_NAME") missing),
    (mem (js "DATABASE_HOST") missing),
    (mem (js "DATABASE_PORT") missing);
    (split; [reflexivity|]); eexists; (split; [reflexivity|]);
    cbn [orb negb app Database.port];
    intros Hne; try (exfalso; apply Hne; reflexivity);
    apply numOr_truthy; discriminate.
Qed.

Lemma promptDatabaseConfig_questions_witness :
  attentive quietHost
  /\ asked (events (promptDatabaseConfig quietHost freshBackendFiles))
     = [ "Database user"; "Database port" ]%string.
Proof.
  assert (Hatt : attentive quietHost) by (intros m i; discriminate).
  split; [exact Hatt|].
  exact (proj1 (promptDatabaseConfig_questions quietHost freshBackendFiles
                  Hatt)).
Defined.

(** X12.  With a user who answers every question, the mail stage returns
    and asks exactly the questions of [SMTP_PORT] and [SMTP_PORT_WEB] that
    are missing from the root target file, in that order; the ports it
    returns from answers are never zero or NaN. *)
Theorem promptSmtpConfig_questions (H : Host) (fs : Files) :
  attentive H ->
  asked (events (promptSmtpConfig H fs))
  = questionsOf (missingOrAll fs ".env.example" ".env") smtpQuestions
  /\ exists mail,
       result (promptSmtpConfig H fs) = Ok mail
       /\ (questionsOf (missingOrAll fs ".env.example" ".env") smtpQuestions
           <> [] ->
           numTruthy (Smtp.port mail) = true
           /\ numTruthy (Smtp.portWeb mail) = true).
Proof.
  intros Hatt. unfold promptSmtpConfig, questionsOf.
  cbn [existsb smtpVars smtpQuestions flat_map fst snd].
  set (missing := missingOrAll fs ".env.example" ".env").
  answer_all Hatt.
  destruct (mem (js "SMTP_PORT") missing), (mem (js "SMTP_PORT_WEB") missing);
    (split; [reflexivity|]); eexists; (split; [reflexivity|]);
    cbn [orb negb app Smtp.port Smtp.portWeb];
    intros Hne; try (exfalso; apply Hne; reflexivity);
    split; apply numOr_truthy; discriminate.
Qed.

Lemma promptSmtpConfig_questions_witness :
  attentive quietHost
  /\ asked (events (promptSmtpConfig quietHost configuredRootFiles))
     = [ "SMTP port" ]%string.
Proof.
  assert (Hatt : attentive quietHost) by (intros m i; discriminate).
  split; [exact Hatt|].
  exact (proj1 (promptSmtpConfig_questions quietHost configuredRootFiles Hatt)).
Defined.

(** ** The questions of the port stage *)

Lemma portNeeds_frontends (fs : Files) (apps : AvailableApps) :
  (includes "Web SPA" (snd (portNeeds fs apps)) = true ->
   webSpa apps = true
   /\ existsSync fs "apps/web-spa/.env" = true
   /\ getMissingVariables fs "apps/web-spa/.env.example" "apps/web-spa/.env"
      <> [])
  /\ (includes "Web SSR" (snd (portNeeds fs apps)) = true ->
      webSsr apps = true
      /\ existsSync fs "apps/web-ssr/.env" = true
      /\ getMissingVariables fs "apps/web-ssr/.env.example" "apps/web-ssr/.env"
         <> []).
Proof.
  unfold portNeeds.
  destruct (api apps), (webSpa apps), (webSsr apps);
    repeat match goal with
           | |- context [if mem ?a ?b then _ else _] => destruct (mem a b)
           end;
    destruct (existsSync fs "apps/web-spa/.env");
    destruct (existsSync fs "apps/web-ssr/.env");
    destruct (getMissingVariables fs "apps/web-spa/.env.example"
                                  "apps/web-spa/.env");
    destruct (getMissingVariables fs "apps/web-ssr/.env.example"
                                  "apps/web-ssr/.env");
    cbn; split; intros E; try discriminate E;
    repeat split; discriminate.
Qed.

(** X13.  The port of a frontend is asked only when the frontend is
    detected, its target file already exists and that file lacks some key of
    its template; on a fresh clone, where the target file is absent, it is
    never asked.  A frontend's port is set only by that question, and is then
    never zero or NaN. *)
Theorem promptPortsConfig_frontends (H : Host) (fs : Files)
  (apps : AvailableApps) :
  let t := asked (events (promptPortsConfig H fs apps)) in
  (In "Web SPA port"%string t ->
   webSpa apps = true
   /\ existsSync fs "apps/web-spa/.env" = true
   /\ getMissingVariables fs "apps/web-spa/.env.example" "apps/web-spa/.env"
      <> [])
  /\ (In "Web SSR port"%string t ->
      webSsr apps = true
      /\ existsSync fs "apps/web-ssr/.env" = true
      /\ getMissingVariables fs "apps/web-ssr/.env.example"
                             "apps/web-ssr/.env" <> [])
  /\ forall p, result (promptPortsConfig H fs apps) = Ok p ->
       (forall n, Ports.webSpa p = Some n ->
                  In "Web SPA port"%string t /\ numTruthy n = true)
       /\ (forall n, Ports.webSsr p = Some n ->
                     In "Web SSR port"%string t /\ numTruthy n = true).
Proof.
  intros t. subst t. unfold promptPortsConfig.
  pose proof (portNeeds_frontends fs apps) as [Hspa Hssr].
  pose proof (portNeeds_detected fs apps) as (_ & Hb & Hc).
  destruct (portNeeds fs apps) as [ports needs]. cbn [fst snd] in *.
  destruct needs as [|need needs].
  - cbn. split; [intros []|]. split; [intros []|].
    intros p Hp. injection Hp as <-. split; intros n Hn; congruence.
  - unfold prompt.
    destruct (api apps), (webSpa apps) eqn:Espa, (webSsr apps) eqn:Essr;
      cbn [andb];
      repeat match goal with
             | |- context [if includes ?a ?b then _ else _] =>
                 destruct (includes a b) eqn:?
             | |- context [answer H ?a ?b] => destruct (answer H a b)
             end;
      cbn;
      (split; [|split]);
      try (intros Hin; repeat destruct Hin as [Hin|Hin];
           try discriminate Hin; try destruct Hin;
           first [apply Hspa; reflexivity | apply Hssr; reflexivity]);
      intros p Hp; try discriminate Hp; injection Hp as <-; cbn;
      split; intros n Hn; try congruence;
      injection Hn as <-;
      (split; [auto 6|apply numOr_truthy; discriminate]).
Qed.

(** ** Which events a computation performs *)

Lemma emitsOnly_weaken {A} (P Q : Event -> Prop) (m : M A) :
  (forall e, P e -> Q e) -> emitsOnly P m -> emitsOnly Q m.
Proof. intros HPQ Hm e Hin. apply HPQ, Hm, Hin. Qed.

Lemma emitsOnly_ret {A} (P : Event -> Prop) (a : A) : emitsOnly P (ret a).
Proof. intros e []. Qed.

Lemma emitsOnly_throw {A} (P : Event -> Prop) (x : Exn) :
  emitsOnly P (@throw A x).
Proof. intros e []. Qed.

Lemma emitsOnly_emit (P : Event -> Prop) (e : Event) :
  P e -> emitsOnly P (emit e).
Proof. intros He e' [<-|[]]. exact He. Qed.

Lemma emitsOnly_say (P : Event -> Prop) (line : string) :
  P (Print (js line)) -> emitsOnly P (say line).
Proof. apply emitsOnly_emit. Qed.

Lemma emitsOnly_bind {A B} (P : Event -> Prop) (m : M A) (f : A -> M B) :
  emitsOnly P m -> (forall a, emitsOnly P (f a)) -> emitsOnly P (bind m f).
Proof.
  intros Hm Hf e Hin. rewrite events_bind in Hin.
  apply in_app_or in Hin. destruct Hin as [Hin|Hin]; [apply Hm, Hin|].
  destruct (result m) as [a|x]; [apply (Hf a), Hin|destruct Hin].
Qed.

Lemma emitsOnly_catch {A} (P : Event -> Prop) (m : M A) (h : Exn -> M A) :
  emitsOnly P m -> (forall x, emitsOnly P (h x)) -> emitsOnly P (catch m h).
Proof.
  intros Hm Hh e Hin. rewrite events_catch in Hin.
  apply in_app_or in Hin. destruct Hin as [Hin|Hin]; [apply Hm, Hin|].
  destruct (result m) as [a|x]; [destruct Hin|apply (Hh x), Hin].
Qed.

Lemma emitsOnly_prompt (H : Host) (P : Event -> Prop) (message : string)
  (initial : jsstring) :
  P (Asked message initial) -> emitsOnly P (prompt H message initial).
Proof.
  intros HP. unfold prompt. apply emitsOnly_bind.
  - apply emitsOnly_emit, HP.
  - intros _. destruct (answer H message initial);
      [apply emitsOnly_ret|apply emitsOnly_throw].
Qed.

Lemma emitsOnly_confirm (H : Host) (P : Event -> Prop) (message : string) :
  P (Confirmed message) -> emitsOnly P (confirm H message).
Proof.
  intros HP. unfold confirm. apply emitsOnly_bind.
  - apply emitsOnly_emit, HP.
  - intros _. destruct (accept H message);
      [apply emitsOnly_ret|apply emitsOnly_throw].
Qed.

Lemma emitsOnly_runCommand (H : Host) (P : Event -> Prop) (command : string)
  (args : list string) :
  (forall line, P (Print line)) -> P (Ran command args) ->
  emitsOnly P (runCommand H command args).
Proof.
  intros Hprint Hran. unfold runCommand.
  apply emitsOnly_bind; [apply emitsOnly_emit, Hprint|intros _].
  apply emitsOnly_bind; [apply emitsOnly_emit, Hran|intros _].
  destruct (exec H command args) as [[[| |]|]|];
    first [apply emitsOnly_ret|apply emitsOnly_throw].
Qed.

(** One step of the traversal; [leaf] settles the property of an event. *)
Ltac emits_step leaf :=
  match goal with
  | |- emitsOnly _ (bind _ _) => apply emitsOnly_bind; [|intros]
  | |- emitsOnly _ (catch _ _) => apply emitsOnly_catch; [|intros]
  | |- emitsOnly _ (ret _) => apply emitsOnly_ret
  | |- emitsOnly _ (throw _) => apply emitsOnly_throw
  | |- emitsOnly _ (say _) => apply emitsOnly_say; leaf
  | |- emitsOnly _ (emit _) => apply emitsOnly_emit; leaf
  | |- emitsOnly _ (prompt _ _ _) => apply emitsOnly_prompt; leaf
  | |- emitsOnly _ (confirm _ _) => apply emitsOnly_confirm; leaf
  | |- emitsOnly _ (runCommand _ _ _) =>
      apply emitsOnly_runCommand; [intros; leaf|leaf]
  | |- emitsOnly _ (if ?c then _ else _) => destruct c eqn:?
  | |- emitsOnly _ (match ?x with _ => _ end) => destruct x eqn:?
  end.

Ltac emits leaf := repeat emits_step leaf.

Ltac trivial_leaf := first [ exact I | split; reflexivity | reflexivity ].

(** *** The collecting stages *)

Lemma directoriesOf_emits (P : Event -> Prop) (dir : string)
  (items : list (string * StatResult)) :
  emitsOnly P (directoriesOf dir items).
Proof.
  induction items as [|[item st] items IH]; cbn [directoriesOf];
    emits idtac; apply IH.
Qed.

Lemma detectAvailableApps_emits (P : Event -> Prop) (H : Host) :
  emitsOnly P (detectAvailableApps H).
Proof.
  unfold detectAvailableApps, readDirectories.
  emits idtac; apply directoriesOf_emits.
Qed.

Lemma updateManifests_collecting (H : Host) (newPrefix : jsstring)
  (l : list (string * string * bool)) :
  emitsOnly collecting (updateManifests H newPrefix l).
Proof.
  induction l as [|[[path name] condition] l IH]; cbn [updateManifests];
    [emits trivial_leaf|].
  unfold updateManifest. emits trivial_leaf. apply IH.
Qed.

Lemma renameProjects_collecting (H : Host) (projectName : jsstring)
  (apps : AvailableApps) :
  emitsOnly collecting (renameProjects H projectName apps).
Proof.
  unfold renameProjects. emits trivial_leaf; apply updateManifests_collecting.
Qed.

Lemma promptIfMissing_collecting (H : Host) (missing : list jsstring)
  (existingVars exampleVars : Obj) (key message : string) (fallback : jsstring) :
  emitsOnly collecting
    (promptIfMissing H missing existingVars exampleVars key message fallback).
Proof. unfold promptIfMissing. emits trivial_leaf. Qed.

Lemma promptDatabaseConfig_collecting (H : Host) (fs : Files) :
  emitsOnly collecting (promptDatabaseConfig H fs).
Proof.
  unfold promptDatabaseConfig. destruct (negb _); emits trivial_leaf;
    apply promptIfMissing_collecting.
Qed.

Lemma promptSmtpConfig_collecting (H : Host) (fs : Files) :
  emitsOnly collecting (promptSmtpConfig H fs).
Proof.
  unfold promptSmtpConfig. destruct (negb _); emits trivial_leaf;
    apply promptIfMissing_collecting.
Qed.

Lemma promptPortsConfig_collecting (H : Host) (fs : Files)
  (apps : AvailableApps) :
  emitsOnly collecting (promptPortsConfig H fs apps).
Proof.
  unfold promptPortsConfig. destruct (portNeeds fs apps) as [ports needs].
  destruct needs; emits trivial_leaf.
Qed.

(** *** The writing stages *)

Lemma updateEnvFile_writingBack (fs : Files) (path : string)
  (replacements : Obj) (onlyMissing : bool) :
  emitsOnly writingBack (updateEnvFile fs path replacements onlyMissing).
Proof.
  unfold updateEnvFile. destruct (fs path); [|emits trivial_leaf].
  destruct (fold_left _ _ _) as [content updated]. emits trivial_leaf.
Qed.

Lemma copyLoop_writingBack (H : Host) (fs : Files)
  (infos : list EnvFileInfo) :
  emitsOnly writingBack (copyLoop H fs infos).
Proof.
  revert fs. induction infos as [|info infos IH]; intros fs; cbn [copyLoop];
    [emits trivial_leaf|].
  apply emitsOnly_bind; [unfold copyEnvFile; emits trivial_leaf|].
  intros fs'. apply IH.
Qed.

Lemma updateAllEnvFiles_writingBack (fs : Files) (config : EnvConfig)
  (apps : AvailableApps) :
  emitsOnly writingBack (updateAllEnvFiles fs config apps).
Proof.
  unfold updateAllEnvFiles, updateWhen.
  emits trivial_leaf; apply updateEnvFile_writingBack.
Qed.

(** *** The two stages of the mandatory part *)

Lemma staged_collect {A B} (m : M A) (f : A -> M B) :
  emitsOnly collecting m -> (forall a, staged (f a)) -> staged (bind m f).
Proof.
  intros Hm Hf. destruct (result m) as [a|x] eqn:Er.
  - destruct (Hf a) as (t1 & t2 & He & H1 & H2 & Hthrow).
    exists (events m ++ t1), t2. repeat split.
    + rewrite events_bind, Er, He, app_assoc. reflexivity.
    + apply Forall_app. split; [apply Forall_forall, Hm|exact H1].
    + exact H2.
    + intros e. rewrite result_bind, Er. apply Hthrow.
  - exists (events m), []. repeat split.
    + rewrite events_bind, Er. reflexivity.
    + apply Forall_forall, Hm.
    + constructor.
    + intros e _. right. reflexivity.
Qed.

Lemma staged_write {A} (m : M A) :
  emitsOnly writingBack m ->
  (forall e, result m = Throw e -> copyError e) -> staged m.
Proof.
  intros Hm Hthrow. exists [], (events m). repeat split.
  - constructor.
  - apply Forall_forall, Hm.
  - intros e He. left. apply (Hthrow e He).
Qed.

Lemma copyLoop_throws (H : Host) (fs : Files) (infos : list EnvFileInfo)
  (e : Exn) :
  result (copyLoop H fs infos) = Throw e -> copyError e.
Proof.
  revert fs. induction infos as [|info infos IH]; intros fs; cbn [copyLoop];
    [discriminate|].
  rewrite result_bind.
  destruct (result (copyEnvFile H fs info)) as [fs1|x] eqn:E; [apply IH|].
  intros Hx. injection Hx as ->. unfold copyEnvFile in E.
  destruct (exists_ info); [destruct (missingVars info); discriminate E|].
  destruct (fs (from info)); [|discriminate E].
  destruct (copies H (from info) (to info)); [discriminate E|].
  injection E as <-. eexists _, _. reflexivity.
Qed.

Lemma sayWhen_writingBack (port : option number) (label : string) :
  emitsOnly writingBack (sayWhen port label)
  /\ result (sayWhen port label) = Ok tt.
Proof.
  unfold sayWhen. destruct port as [n|]; [destruct (numTruthy n)|];
    (split; [emits trivial_leaf|reflexivity]).
Qed.

Lemma configure_staged (H : Host) (fs : Files) : staged (configure H fs).
Proof.
  unfold configure. cbv zeta.
  repeat (apply staged_collect;
          [ solve [ apply detectAvailableApps_emits
                  | apply renameProjects_collecting
                  | apply promptDatabaseConfig_collecting
                  | apply promptPortsConfig_collecting
                  | apply promptSmtpConfig_collecting
                  | emits trivial_leaf ]
          | intros ]).
  apply staged_write.
  - unfold copyEnvFiles.
    emits trivial_leaf;
      first [ apply copyLoop_writingBack | apply updateAllEnvFiles_writingBack
            | apply sayWhen_writingBack ].
  - unfold copyEnvFiles. intros e. rewrite !result_bind.
    cbn [say emit result snd].
    match goal with
    | |- context [result (copyLoop ?h ?f ?l)] =>
        destruct (result (copyLoop h f l)) as [fs1|x] eqn:Ecopy;
          [|intros Hx; injection Hx as <-;
            apply (copyLoop_throws _ _ _ _ Ecopy)]
    end.
    rewrite result_bind.
    match goal with
    | |- context [result (updateAllEnvFiles ?f ?c ?a)] =>
        destruct (updateAllEnvFiles_returns f c a) as [fs2 ->]
    end.
    repeat (rewrite result_bind;
            rewrite ?(proj2 (sayWhen_writingBack _ _));
            cbn [say emit result snd]).
    discriminate.
Qed.

Lemma collecting_not_write (e : Event) : collecting e -> envWrite e = false.
Proof. destruct e; cbn; intros Hc; try reflexivity; destruct Hc. Qed.

Lemma writingBack_not_asked (t : list Event) :
  Forall writingBack t -> asked t = [].
Proof.
  induction 1 as [|e t He _ IH]; [reflexivity|].
  cbn [asked flat_map]. fold (asked t). rewrite IH.
  destruct e; try destruct He; reflexivity.
Qed.

Lemma silent_asked {A} (m : M A) : silent m -> asked (events m) = [].
Proof.
  intros Hs. destruct (asked (events m)) as [|x l] eqn:E; [reflexivity|].
  exfalso. apply (Hs x). rewrite E. left. reflexivity.
Qed.

Lemma written_app (fs : Files) (t t' : list Event) :
  written fs (t ++ t') = written (written fs t) t'.
Proof. unfold written. apply fold_left_app. Qed.

Lemma written_nothing (fs : Files) (t : list Event) :
  (forall e, In e t -> envWrite e = false) -> written fs t = fs.
Proof.
  induction t as [|e t IH]; intros Hno; [reflexivity|].
  change (written fs (e :: t)) with (written (written fs [e]) t).
  replace (written fs [e]) with fs.
  - apply IH. intros x Hx. apply Hno. right. exact Hx.
  - pose proof (Hno e (or_introl eq_refl)) as He.
    destruct e; try reflexivity; discriminate He.
Qed.



Lemma write_in_second (A B t1 t2 : list Event) (e : Event) :
  A ++ B = t1 ++ e :: t2 ->
  Forall (fun x => envWrite x = false) A -> envWrite e = true ->
  exists B1, B = B1 ++ e :: t2.
Proof.
  revert t1. induction A as [|a A IH]; intros t1 Heq HA He.
  - exists t1. exact Heq.
  - inversion HA as [|? ? Ha HA']; subst. destruct t1 as [|x t1].
    + cbn [app] in Heq. injection Heq as -> _. congruence.
    + cbn [app] in Heq. injection Heq as _ Heq. apply (IH t1 Heq HA' He).
Qed.

(** X15.  In every run, whatever its outcome, no question is asked once
    the first template has been copied or the first target file written:
    all the answers are collected before anything is written back. *)
Theorem questions_precede_writes (H : Host) (fs : Files)
  (t1 t2 : list Event) (e : Event) :
  trace (main H fs) = t1 ++ e :: t2 -> envWrite e = true -> asked t2 = [].
Proof.
  intros Heq He.
  destruct (configure_staged H fs) as (c1 & c2 & Hev & H1 & H2 & _).
  assert (Hshape : exists rest,
             trace (main H fs) = (Print (js "Development Environment Setup")
                                  :: c1) ++ (c2 ++ rest)
             /\ asked rest = []).
  { unfold main. destruct (configure H fs) as [t [[apps fs']|x]];
      cbn [events fst] in Hev; subst t.
    - pose proof (silent_asked _ (optionalSteps_silent H apps)) as Hs.
      destruct (optionalSteps H apps) as [t' [u|x]]; cbn [events fst] in Hs;
        cbn [trace].
      + exists t'. split; [|exact Hs]. cbn [app]. rewrite <- app_assoc.
        reflexivity.
      + exists (t' ++ [fatal x]). split.
        * cbn [app]. rewrite <- app_assoc. reflexivity.
        * rewrite asked_app, Hs. reflexivity.
    - cbn [trace]. exists [fatal x]. split; [|reflexivity].
      cbn [app]. rewrite <- app_assoc. reflexivity. }
  destruct Hshape as (rest & Hshape & Hrest). rewrite Hshape in Heq.
  destruct (write_in_second _ _ _ _ _ Heq) as [B1 HB]; [|exact He|].
  - constructor; [reflexivity|].
    apply Forall_forall. intros x Hx. apply collecting_not_write.
    rewrite Forall_forall in H1. apply H1, Hx.
  - assert (Hasked : asked (c2 ++ rest) = []).
    { rewrite asked_app, (writingBack_not_asked c2 H2), Hrest. reflexivity. }
    rewrite HB in Hasked. rewrite asked_app in Hasked.
    apply app_eq_nil in Hasked. destruct Hasked as [_ Hasked].
    change (e :: t2) with ([e] ++ t2) in Hasked. rewrite asked_app in Hasked.
    apply app_eq_nil in Hasked. apply Hasked.
Qed.

Lemma questions_precede_writes_witness :
  trace firstRun
  = firstn 28 (trace firstRun)
    ++ Copied ".env.example" ".env" :: skipn 29 (trace firstRun)
  /\ asked (firstn 28 (trace firstRun))
     = [ "Project name"; "Database host"; "API port" ]%string
  /\ asked (skipn 29 (trace firstRun)) = [].
Proof.
  assert (Hsplit : trace firstRun
                   = firstn 28 (trace firstRun)
                     ++ Copied ".env.example" ".env"
                        :: skipn 29 (trace firstRun))
    by (vm_compute; reflexivity).
  split; [exact Hsplit|]. split; [vm_compute; reflexivity|].
  exact (questions_precede_writes remoteDatabaseHost hostTemplateFiles
           _ _ _ Hsplit eq_refl).
Defined.

(** ** The optional steps: what gates them and what can fail *)

Lemma waitLoop_waiting (H : Host) (maxRetries delayMs remaining i : nat) :
  emitsOnly waiting (waitLoop H maxRetries delayMs remaining i).
Proof.
  revert i. induction remaining as [|remaining IH]; intros i;
    cbn [waitLoop]; emits trivial_leaf. apply IH.
Qed.

Lemma waitForDatabase_waiting (H : Host) (maxRetries delayMs : nat) :
  emitsOnly waiting (waitForDatabase H maxRetries delayMs).
Proof.
  unfold waitForDatabase. emits trivial_leaf. apply waitLoop_waiting.
Qed.

Lemma configure_no_migration (H : Host) (fs : Files) :
  ~ In migration (events (configure H fs)).
Proof.
  destruct (configure_staged H fs) as (t1 & t2 & He & H1 & H2 & _).
  rewrite He. intros Hin. apply in_app_or in Hin.
  rewrite Forall_forall in H1, H2. destruct Hin as [Hin|Hin].
  - apply H1 in Hin. destruct Hin as [_ Hin]. discriminate Hin.
  - apply H2 in Hin. exact Hin.
Qed.

Ltac split_in Hin :=
  repeat first
    [ destruct Hin as [Hin|Hin]; [try discriminate Hin|]
    | apply in_app_or in Hin; destruct Hin as [Hin|Hin] ].

(** X16.  The migration command is run only when the mandatory part has
    succeeded with the backend detected, the user has accepted Docker, the
    Docker command has exited with status 0, the database has been found
    ready within the 30 attempts, and the user has accepted the migrations. *)
Theorem migration_is_gated (H : Host) (fs : Files) :
  In migration (trace (main H fs)) ->
  (exists apps fs', result (configure H fs) = Ok (apps, fs')
                    /\ api apps = true)
  /\ accept H "Start Docker services (database, maildev)?" = Some true
  /\ exec H "pnpm" [ "docker:up" ]%string = Exited (Some 0%Z)
  /\ result (waitForDatabase H 30 1000) = Ok true
  /\ accept H "Run database migrations?" = Some true.
Proof.
  intros Hin.
  assert (Hopt : exists apps fs',
             result (configure H fs) = Ok (apps, fs')
             /\ In migration (events (optionalSteps H apps))).
  { pose proof (configure_no_migration H fs) as Hno.
    unfold main in Hin. destruct (configure H fs) as [t [[apps fs']|x]];
      cbn [events fst] in Hno.
    - exists apps, fs'. split; [reflexivity|].
      destruct (optionalSteps H apps) as [t' [u|x]]; cbn [trace events fst] in *;
        destruct Hin as [Hin|Hin]; try discriminate Hin;
        apply in_app_or in Hin; destruct Hin as [Hin|Hin];
        try contradiction; try exact Hin.
      apply in_app_or in Hin. destruct Hin as [Hin|[Hin|[]]];
        [exact Hin|discriminate Hin].
    - cbn [trace] in Hin. destruct Hin as [Hin|Hin]; [discriminate Hin|].
      apply in_app_or in Hin. destruct Hin as [Hin|[Hin|[]]];
        [contradiction|discriminate Hin]. }
  destruct Hopt as (apps & fs' & Hconf & Hrun).
  pose proof (waitForDatabase_waiting H 30 1000) as Hwait.
  unfold optionalSteps, afterDockerUp, runMigrations, dockerFailed, confirm,
    runCommand in Hrun.
  destruct (accept H "Start Docker services (database, maildev)?")
    as [[|]|] eqn:Edocker;
    [| cbn in Hrun; destruct (api apps); cbn in Hrun; split_in Hrun;
       destruct Hrun
     | cbn in Hrun; split_in Hrun; destruct Hrun ].
  destruct (exec H "pnpm" [ "docker:up" ]%string) as [[[|c|c]|]|] eqn:Eup;
    try (cbn in Hrun; destruct (api apps); cbn in Hrun; split_in Hrun;
         destruct Hrun).
  destruct (waitForDatabase H 30 1000) as [tw [ready|x]] eqn:Ew;
    cbn [events fst] in Hwait.
  - destruct ready, (api apps) eqn:Eapi;
      try (cbn in Hrun; split_in Hrun;
           first [ apply Hwait in Hrun; destruct Hrun | destruct Hrun ]).
    destruct (accept H "Run database migrations?") as [[|]|] eqn:Emig;
      try (cbn in Hrun; split_in Hrun;
           first [ apply Hwait in Hrun; destruct Hrun | destruct Hrun ]).
    repeat split; try reflexivity. exists apps, fs'. split; assumption.
  - cbn in Hrun. split_in Hrun;
      first [ apply Hwait in Hrun; destruct Hrun | destruct Hrun ].
Qed.

Lemma migration_is_gated_witness :
  In migration (trace (main failedMigrationHost freshBackendFiles))
  /\ accept failedMigrationHost "Run database migrations?" = Some true
  /\ result (waitForDatabase failedMigrationHost 30 1000) = Ok true.
Proof.
  assert (Hin : In migration (trace (main failedMigrationHost freshBackendFiles))).
  { vm_compute. repeat first [ left; reflexivity | right ]. }
  split; [exact Hin|].
  destruct (migration_is_gated failedMigrationHost freshBackendFiles Hin)
    as (_ & _ & _ & Hw & Hm).
  split; assumption.
Defined.

(** X17.  Once the mandatory part has succeeded, the only thing that can
    make the run exit with code 1 is the cancelling of the Docker
    confirmation: whatever the Docker command, the readiness probe, the
    migration confirmation and the migration command do, the run exits with
    code 0 and leaves the files as written back. *)
Theorem optional_steps_are_not_fatal (H : Host) (fs fs' : Files)
  (apps : AvailableApps) :
  result (configure H fs) = Ok (apps, fs') ->
  accept H "Start Docker services (database, maildev)?" <> None ->
  exitCode (main H fs) = 0%Z /\ files (main H fs) = fs'.
Proof.
  intros Hconf Hdocker.
  assert (Hopt : result (optionalSteps H apps) = Ok tt).
  { unfold optionalSteps, afterDockerUp, runMigrations, dockerFailed, confirm,
      runCommand.
    destruct (accept H "Start Docker services (database, maildev)?")
      as [[|]|]; [| |contradiction].
    - destruct (waitLoop_returns H 30 1000 30 0) as [ready Hready].
      rewrite <- waitForDatabase_result in Hready.
      destruct (waitForDatabase H 30 1000) as [tw rw].
      cbn [result snd] in Hready. subst rw.
      destruct (exec H "pnpm" [ "docker:up" ]%string) as [[[|c|c]|]|];
        destruct ready, (api apps);
        try reflexivity;
        destruct (accept H "Run database migrations?") as [[|]|];
        try reflexivity;
        destruct (exec H "pnpm" [ "--filter=api"; "db:migrate:up" ]%string)
          as [[[|c'|c']|]|];
        reflexivity.
    - destruct (api apps); reflexivity. }
  unfold main. destruct (configure H fs) as [t r].
  cbn [result snd] in Hconf. subst r.
  destruct (optionalSteps H apps) as [t' r'].
  cbn [result snd] in Hopt. subst r'. split; reflexivity.
Qed.

Lemma optional_steps_are_not_fatal_witness :
  accept brokenDockerHost "Start Docker services (database, maildev)?"
  = Some true
  /\ exec brokenDockerHost "pnpm" [ "docker:up" ]%string = SpawnError
  /\ exitCode (main brokenDockerHost hostTemplateFiles) = 0%Z.
Proof.
  split; [reflexivity|]. split; [reflexivity|].
  apply (optional_steps_are_not_fatal brokenDockerHost hostTemplateFiles
           (files (main brokenDockerHost hostTemplateFiles))
           {| api := false; webSpa := false; webSsr := false;
              openapiGenerator := false |}).
  - vm_compute. reflexivity.
  - discriminate.
Defined.

(** ** The files of a run are those that its trace writes *)

Lemma lands_ret {A} (fs : Files) (a : A) (file : A -> Files) :
  file a = fs -> lands fs (ret a) file.
Proof. intros E b Hb. injection Hb as <-. symmetry. exact E. Qed.

Lemma lands_quiet {A B} (fs : Files) (m : M A) (k : A -> M B)
  (file : B -> Files) :
  quiet m -> (forall a, lands fs (k a) file) -> lands fs (bind m k) file.
Proof.
  intros Hm Hk b. rewrite result_bind, events_bind, written_app.
  rewrite (written_nothing fs (events m) Hm).
  destruct (result m) as [a|x]; [apply Hk|discriminate].
Qed.

Lemma lands_thread {B} (fs : Files) (m : M Files) (k : Files -> M B)
  (file : B -> Files) :
  lands fs m (fun fs1 => fs1) -> (forall fs1, lands fs1 (k fs1) file) ->
  lands fs (bind m k) file.
Proof.
  intros Hm Hk b. rewrite result_bind, events_bind, written_app.
  destruct (result m) as [fs1|x] eqn:E; [|discriminate].
  rewrite (Hm fs1 E). apply Hk.
Qed.

Lemma collecting_quiet {A} (m : M A) : emitsOnly collecting m -> quiet m.
Proof. apply emitsOnly_weaken. exact collecting_not_write. Qed.

Lemma updateEnvFile_lands (fs : Files) (path : string) (replacements : Obj)
  (onlyMissing : bool) :
  lands fs (updateEnvFile fs path replacements onlyMissing) (fun fs1 => fs1).
Proof.
  unfold lands, updateEnvFile. destruct (fs path) as [content|].
  - destruct (fold_left _ _ _) as [c [|]]; cbn; intros fs' E;
      injection E as <-; reflexivity.
  - cbn. intros fs' E. injection E as <-. reflexivity.
Qed.

Lemma copyLoop_lands (H : Host) (fs : Files) (infos : list EnvFileInfo) :
  lands fs (copyLoop H fs infos) (fun fs1 => fs1).
Proof.
  revert fs. induction infos as [|info infos IH]; intros fs; cbn [copyLoop].
  - apply lands_ret. reflexivity.
  - apply lands_thread; [|intros fs1; apply IH].
    unfold lands, copyEnvFile.
    destruct (exists_ info); [destruct (missingVars info)|];
      try (cbn; intros fs' E; injection E as <-; reflexivity).
    destruct (fs (from info)) as [content|] eqn:Ef;
      [|cbn; intros fs' E; injection E as <-; reflexivity].
    destruct (copies H (from info) (to info)); [|discriminate].
    cbn. rewrite Ef. intros fs' E. injection E as <-. reflexivity.
Qed.

Lemma updateAllEnvFiles_lands (fs : Files) (config : EnvConfig)
  (apps : AvailableApps) :
  lands fs (updateAllEnvFiles fs config apps) (fun fs1 => fs1).
Proof.
  assert (Hwhen : forall fs0 available port path f,
             lands fs0 (updateWhen fs0 available port path f)
                   (fun fs1 => fs1)).
  { intros fs0 available port path f. unfold updateWhen.
    destruct port as [n|]; [destruct (available && numTruthy n)%bool|];
      first [ apply updateEnvFile_lands | apply lands_ret; reflexivity ]. }
  unfold updateAllEnvFiles.
  apply lands_quiet; [unfold quiet; emits trivial_leaf|intros _].
  apply lands_thread.
  { destruct (keys (rootUpdates config));
      [apply lands_ret; reflexivity|apply updateEnvFile_lands]. }
  intros fs1. repeat (apply lands_thread; [apply Hwhen|intros ?fs]).
  apply lands_quiet; [unfold quiet; emits trivial_leaf|intros _].
  apply lands_ret. reflexivity.
Qed.

Lemma sayWhen_quiet (port : option number) (label : string) :
  quiet (sayWhen port label).
Proof. unfold quiet, sayWhen. emits trivial_leaf. Qed.

Lemma configure_lands (H : Host) (fs : Files) :
  lands fs (configure H fs) snd.
Proof.
  unfold configure. cbv zeta.
  repeat (apply lands_quiet;
          [ solve [ apply collecting_quiet;
                    first [ apply detectAvailableApps_emits
                          | apply renameProjects_collecting
                          | apply promptDatabaseConfig_collecting
                          | apply promptPortsConfig_collecting
                          | apply promptSmtpConfig_collecting
                          | emits trivial_leaf ] ]
          | intros ]).
  apply lands_thread.
  { unfold copyEnvFiles.
    apply lands_quiet; [unfold quiet; emits trivial_leaf|intros _].
    apply copyLoop_lands. }
  intros fs1. apply lands_thread; [apply updateAllEnvFiles_lands|].
  intros fs2.
  repeat (apply lands_quiet;
          [ first [ apply sayWhen_quiet | unfold quiet; emits trivial_leaf ]
          | intros ]).
  apply lands_ret. reflexivity.
Qed.

Lemma optionalSteps_quiet (H : Host) (apps : AvailableApps) :
  quiet (optionalSteps H apps).
Proof.
  unfold quiet, optionalSteps, afterDockerUp, runMigrations, dockerFailed.
  emits trivial_leaf.
  all: try (apply (emitsOnly_weaken waiting);
            [intros e He; destruct e; try destruct He; reflexivity
            |apply waitForDatabase_waiting]).
Qed.

(** Whatever the outcome of a run, the key-value files that it leaves are
    those that the copies and writes of its trace produce. *)
Lemma main_files_written (H : Host) (fs : Files) :
  files (main H fs) = written fs (trace (main H fs)).
Proof.
  pose proof (configure_lands H fs) as Hlands. unfold lands in Hlands.
  unfold main. destruct (configure H fs) as [t [[apps fs']|x]];
    cbn [result events fst snd] in Hlands.
  - specialize (Hlands (apps, fs') eq_refl). cbn [snd] in Hlands.
    pose proof (optionalSteps_quiet H apps) as Hq. unfold quiet in Hq.
    destruct (optionalSteps H apps) as [t' [u|x]]; cbn [files trace];
      change (written fs (?e :: ?l)) with (written fs l);
      rewrite !written_app, Hlands; symmetry.
    + apply written_nothing. exact Hq.
    + rewrite (written_nothing fs' t' Hq). reflexivity.
  - cbn [files trace].
    change (written fs (?e :: ?l)) with (written fs l).
    rewrite written_app. reflexivity.
Qed.

(** A copy that fails ends the run with exit code 1, after the copies that
    precede it: here the root template has been copied, the backend's has
    not, and nothing has been written back. *)
Lemma failed_copy_keeps_earlier_copies :
  result (configure readOnlyBackendHost freshBackendFiles)
  = Throw (CopyError "apps/api/.env.example" "apps/api/.env")
  /\ exitCode (main readOnlyBackendHost freshBackendFiles) = 1%Z
  /\ files (main readOnlyBackendHost freshBackendFiles) ".env"%string
     = freshBackendFiles ".env.example"%string
  /\ files (main readOnlyBackendHost freshBackendFiles) "apps/api/.env"%string
     = None.
Proof. repeat split; vm_compute; reflexivity. Qed.

(** ** The write-back of all files: what it leaves alone *)

Lemma updateEnvFile_frame (fs fs' : Files) (path : string)
  (replacements : Obj) (onlyMissing : bool) :
  result (updateEnvFile fs path replacements onlyMissing) = Ok fs' ->
  (forall q, q <> path -> fs' q = fs q)
  /\ (forall q, existsSync fs' q = existsSync fs q).
Proof.
  unfold updateEnvFile. destruct (fs path) as [content|] eqn:Efile.
  - destruct (fold_left _ _ _) as [c [|]]; cbn; intros E; injection E as <-.
    + split.
      * intros q Hq. apply writeFile_other, Hq.
      * intros q. unfold existsSync, writeFile.
        destruct (String.eqb q path) eqn:Eq; [|reflexivity].
        apply String.eqb_eq in Eq. subst q. rewrite Efile. reflexivity.
    + split; reflexivity.
  - cbn. intros E. injection E as <-. split; reflexivity.
Qed.

Lemma updateWhen_frame (fs fs' : Files) (available : bool)
  (port : option number) (path : string) (f : number -> Obj) :
  result (updateWhen fs available port path f) = Ok fs' ->
  (forall q, q <> path -> fs' q = fs q)
  /\ (forall q, existsSync fs' q = existsSync fs q)
  /\ (match port with Some n => numTruthy n | None => false end = false ->
      fs' = fs).
Proof.
  unfold updateWhen. destruct port as [n|].
  - destruct (numTruthy n); [rewrite andb_true_r|rewrite andb_false_r].
    + destruct available.
      * intros E. destruct (updateEnvFile_frame _ _ _ _ _ E) as [Ha Hb].
        repeat split; [exact Ha|exact Hb|discriminate].
      * cbn. intros E. injection E as <-. repeat split.
    + cbn. intros E. injection E as <-. repeat split.
  - cbn. intros E. injection E as <-. repeat split.
Qed.

(** X18.  The write-back of all files never creates or removes a file and
    changes nothing but the five target files; of these, only the root one
    is touched when the API has no usable port (none, zero or NaN), even if
    the backend and the frontends were detected. *)
Theorem updateAllEnvFiles_frame (fs fs' : Files) (config : EnvConfig)
  (apps : AvailableApps) :
  result (updateAllEnvFiles fs config apps) = Ok fs' ->
  (forall q, existsSync fs' q = existsSync fs q)
  /\ (forall q, ~ In q (map snd (envPairs {| api := true; webSpa := true;
                                             webSsr := true;
                                             openapiGenerator := true |})) ->
                fs' q = fs q)
  /\ (match Ports.api (ports config) with
      | Some n => numTruthy n
      | None => false
      end = false ->
      forall q, q <> ".env"%string -> fs' q = fs q).
Proof.
  unfold updateAllEnvFiles. rewrite result_bind. cbn [say emit result snd].
  rewrite result_bind.
  destruct (result (match keys (rootUpdates config) with
                    | [] => ret fs
                    | _ :: _ => updateEnvFile fs ".env" (rootUpdates config)
                                              false
                    end)) as [fs1|x] eqn:E1; [|discriminate].
  assert (H1 : (forall q, q <> ".env"%string -> fs1 q = fs q)
               /\ (forall q, existsSync fs1 q = existsSync fs q)).
  { destruct (keys (rootUpdates config)).
    - cbn in E1. injection E1 as <-. split; reflexivity.
    - apply (updateEnvFile_frame _ _ _ _ _ E1). }
  clear E1. destruct H1 as [H1a H1b].
  rewrite result_bind.
  destruct (result (updateWhen fs1 (api apps) _ "apps/api/.env" _))
    as [fs2|x] eqn:E2; [|discriminate].
  destruct (updateWhen_frame _ _ _ _ _ _ E2) as (H2a & H2b & H2c).
  rewrite result_bind.
  destruct (result (updateWhen fs2 (webSpa apps) _ "apps/web-spa/.env" _))
    as [fs3|x] eqn:E3; [|discriminate].
  destruct (updateWhen_frame _ _ _ _ _ _ E3) as (H3a & H3b & H3c).
  rewrite result_bind.
  destruct (result (updateWhen fs3 (webSsr apps) _ "apps/web-ssr/.env" _))
    as [fs4|x] eqn:E4; [|discriminate].
  destruct (updateWhen_frame _ _ _ _ _ _ E4) as (H4a & H4b & H4c).
  rewrite result_bind.
  destruct (result (updateWhen fs4 (openapiGenerator apps) _
                               "packages/openapi-generator/.env" _))
    as [fs5|x] eqn:E5; [|discriminate].
  destruct (updateWhen_frame _ _ _ _ _ _ E5) as (H5a & H5b & H5c).
  rewrite result_bind. cbn. intros E. injection E as <-.
  split; [|split].
  - intros q. rewrite H5b, H4b, H3b, H2b, H1b. reflexivity.
  - intros q Hq. cbn in Hq.
    rewrite H5a, H4a, H3a, H2a, H1a; try reflexivity;
      intros ->; apply Hq; auto 10.
  - intros Hport q Hq.
    rewrite (H5c Hport), (H4c Hport), (H3c Hport), (H2c Hport).
    apply H1a, Hq.
Qed.

Lemma updateAllEnvFiles_frame_witness :
  result (updateAllEnvFiles settledFile portlessConfig everyApp)
  = Ok (writeFile settledFile ".env"
          (text [ "A=1"; "DATABASE_USER=u"; "DATABASE_PASSWORD=p";
                  "DATABASE_NAME=d"; "DATABASE_PORT=5432"; "SMTP_PORT=1025";
                  "SMTP_PORT_WEB=1080" ]%string))
  /\ existsSync
       (writeFile settledFile ".env"
          (text [ "A=1"; "DATABASE_USER=u"; "DATABASE_PASSWORD=p";
                  "DATABASE_NAME=d"; "DATABASE_PORT=5432"; "SMTP_PORT=1025";
                  "SMTP_PORT_WEB=1080" ]%string))
       "apps/api/.env"
     = existsSync settledFile "apps/api/.env".
Proof.
  assert (E : result (updateAllEnvFiles settledFile portlessConfig everyApp)
              = Ok (writeFile settledFile ".env"
                      (text [ "A=1"; "DATABASE_USER=u"; "DATABASE_PASSWORD=p";
                              "DATABASE_NAME=d"; "DATABASE_PORT=5432";
                              "SMTP_PORT=1025"; "SMTP_PORT_WEB=1080"
                            ]%string))).
  { vm_compute. reflexivity. }
  split; [exact E|].
  exact (proj1 (updateAllEnvFiles_frame _ _ _ _ E) "apps/api/.env"%string).
Defined.

(** ** The renaming of the packages *)

Lemma firstFailure_app (H : Host) (l1 l2 : list string) :
  firstFailure H (l1 ++ l2)
  = match firstFailure H l1 with
    | Some error => Some error
    | None => firstFailure H l2
    end.
Proof.
  induction l1 as [|path l1 IH]; cbn [app firstFailure]; [reflexivity|].
  destruct (manifestError path (manifest H path)); [reflexivity|exact IH].
Qed.

Lemma updateManifests_result (H : Host) (newPrefix : jsstring)
  (l : list (string * string * bool)) :
  result (updateManifests H newPrefix l)
  = match firstFailure H (selected l) with
    | Some error => Throw error
    | None => Ok tt
    end.
Proof.
  induction l as [|[[path name] condition] rest IH];
    cbn [updateManifests]; [reflexivity|].
  rewrite result_bind. unfold selected. cbn [filter snd].
  destruct condition; cbn [map fst firstFailure].
  - unfold updateManifest.
    destruct (manifest H path); cbn; try reflexivity; exact IH.
  - cbn. exact IH.
Qed.

Lemma lint_result (H : Host) :
  result (catch (runCommand H "pnpm" [ "lint:fix" ]%string ;;
                 say "Linting completed")
                (fun _ => say "Linting failed, but continuing setup"))
  = Ok tt.
Proof.
  unfold runCommand.
  destruct (exec H "pnpm" [ "lint:fix" ]%string) as [[[|c|c]|]|]; reflexivity.
Qed.

(** X19.  The renaming throws exactly when one of the manifests it reads
    exists but cannot be updated: its text is not JSON, its JSON is [null]
    or a primitive, or it cannot be read or written.  The error is that of
    the first such manifest in reading order; the manifests of applications
    that were not detected are not read, those of the documentation and of
    the UI package always are, and the outcome of the linter never
    matters. *)
Theorem renameProjects_result (H : Host) (projectName : jsstring)
  (availableApps : AvailableApps) :
  result (renameProjects H projectName availableApps)
  = match firstFailure H (selectedManifests availableApps) with
    | Some error => Throw error
    | None => Ok tt
    end.
Proof.
  unfold renameProjects, selectedManifests. cbn [firstFailure].
  rewrite result_bind. cbn [say emit result snd]. rewrite result_bind.
  destruct (manifest H "package.json");
    cbn [manifestError result snd ret throw];
    try reflexivity;
    rewrite ?result_bind, !updateManifests_result, firstFailure_app;
    cbn [say emit result snd];
    (destruct (firstFailure H (selected _)); [reflexivity|]);
    (destruct (firstFailure H (selected _)); [reflexivity|]);
    apply lint_result.
Qed.

Lemma updateManifests_renamed (H : Host) (newPrefix : jsstring)
  (l : list (string * string * bool)) (path : string) (name : jsstring) :
  In (Renamed path name) (events (updateManifests H newPrefix l)) ->
  In path (selected l) /\ manifest H path = Manifest.
Proof.
  induction l as [|[[p n] condition] rest IH];
    cbn [updateManifests]; [intros []|].
  rewrite events_bind. unfold selected. cbn [filter snd].
  intros Hin. apply in_app_or in Hin. destruct Hin as [Hin|Hin].
  - destruct condition; [|destruct Hin].
    unfold updateManifest in Hin.
    destruct (manifest H p) eqn:Em; cbn in Hin;
      repeat (destruct Hin as [Hin|Hin]; [try discriminate Hin|]);
      try contradiction.
    injection Hin as -> _. split; [left; reflexivity|exact Em].
  - assert (Hrest : In (Renamed path name)
                       (events (updateManifests H newPrefix rest))).
    { destruct (result _); [exact Hin|destruct Hin]. }
    destruct (IH Hrest) as [Hsel Hm]. split; [|exact Hm].
    destruct condition; [right|]; exact Hsel.
Qed.

(** X20.  A manifest is renamed only if it is one of those selected by the
    detection and it could be parsed: the manifest of an application that
    was not detected is left alone. *)
Theorem renameProjects_renames_selected (H : Host) (projectName : jsstring)
  (availableApps : AvailableApps) (path : string) (name : jsstring) :
  In (Renamed path name) (events (renameProjects H projectName availableApps))
  -> In path (selectedManifests availableApps)
     /\ manifest H path = Manifest.
Proof.
  unfold renameProjects, selectedManifests. intros Hin.
  rewrite events_bind in Hin. cbn [say emit result snd events fst] in Hin.
  destruct Hin as [Hin|Hin]; [discriminate Hin|]. cbn [app] in Hin.
  rewrite events_bind in Hin. apply in_app_or in Hin.
  destruct Hin as [Hin|Hin].
  - destruct (manifest H "package.json") eqn:Em; cbn in Hin;
      repeat (destruct Hin as [Hin|Hin]; [try discriminate Hin|]);
      try contradiction.
    injection Hin as <- _. split; [left; reflexivity|exact Em].
  - destruct (result _); [|destruct Hin].
    rewrite events_bind in Hin. apply in_app_or in Hin.
    destruct Hin as [Hin|Hin].
    + apply updateManifests_renamed in Hin. destruct Hin as [Hsel Hm].
      split; [|exact Hm]. right. apply in_or_app. left. exact Hsel.
    + destruct (result _); [|destruct Hin].
      rewrite events_bind in Hin. apply in_app_or in Hin.
      destruct Hin as [Hin|Hin].
      * apply updateManifests_renamed in Hin. destruct Hin as [Hsel Hm].
        split; [|exact Hm]. right. apply in_or_app. right. exact Hsel.
      * exfalso. destruct (result _); [|destruct Hin].
        rewrite events_bind in Hin. cbn [emit events fst result snd] in Hin.
        destruct Hin as [Hin|Hin]; [discriminate Hin|]. cbn [app] in Hin.
        rewrite events_bind in Hin. cbn [say emit events fst result snd] in Hin.
        destruct Hin as [Hin|Hin]; [discriminate Hin|]. cbn [app] in Hin.
        rewrite events_catch in Hin. apply in_app_or in Hin.
        unfold runCommand in Hin.
        destruct (exec H "pnpm" [ "lint:fix" ]%string) as [[[|c|c]|]|];
          cbn in Hin;
          repeat match goal with
                 | Hx : _ \/ _ |- _ => destruct Hx as [Hx|Hx]
                 | Hx : False |- _ => destruct Hx
                 | Hx : _ = Renamed _ _ |- _ => discriminate Hx
                 end.
Qed.

Lemma renameProjects_renames_selected_witness :
  In (Renamed "apps/documentation/package.json" (js "@acme/documentation"))
     (events (renameProjects quietHost (js "acme")
                {| api := false; webSpa := false; webSsr := false;
                   openapiGenerator := false |}))
  /\ manifest quietHost "apps/documentation/package.json" = Manifest.
Proof.
  assert (Hin : In (Renamed "apps/documentation/package.json"
                            (js "@acme/documentation"))
                   (events (renameProjects quietHost (js "acme")
                              {| api := false; webSpa := false;
                                 webSsr := false;
                                 openapiGenerator := false |}))).
  { vm_compute. repeat first [ left; reflexivity | right ]. }
  split; [exact Hin|].
  exact (proj2 (renameProjects_renames_selected _ _ _ _ _ Hin)).
Defined.
